(** * olcPGEX_Media: decode / synchronisation pipeline

    A shallow embedding of the queue, clock and seek logic of
    [olcPGEX_Media.h] (class [olc::Media] and its private helper classes
    [VideoQueue] and [AudioQueue]).

    Conventions of the embedding.
    - [uint16_t] fields are [Z] with the wrap-around written out ([u16]).
    - A finite [double] or [float] is the rational number [Q] it denotes.
      Every operation of the source that rounds is written with its rounding
      ([to_double], [to_float]: IEEE 754 round to nearest, ties to even, with
      gradual underflow); comparisons of finite values are the comparisons
      of the rationals.  Infinities and NaN have no counterpart: where the
      source would produce one (a division by a zero sample rate or time
      base denominator, a [float] sum beyond [FLT_MAX]) the theorems exclude
      the case by a hypothesis, and arguments are finite.  The sign of a
      zero, which no modelled operation observes, is dropped.
    - Member functions take the object as their last argument and return
      the updated object (together with the returned value, if any).
    - The mutexes are not modelled: every member function is one atomic
      step of a sequential execution.
    - Calls into FFmpeg / miniaudio whose result the code branches on are fed
      by oracles: a packet carries what the decoder answers for it. *)

From Stdlib Require Import ZArith QArith Qround Qabs Qpower List Bool Lia.
Import ListNotations.
Open Scope Z_scope.

Set Implicit Arguments.

(* ================================================================= *)
(** ** Machine integers and small list helpers *)

Definition u16 (z : Z) : Z := z mod 65536.

(** [size_t] (64 bits) *)
Definition usize (z : Z) : Z := z mod 2 ^ 64.

(** [l[i] := x]; writing outside the array is undefined behaviour in the
    source and leaves the list unchanged here. *)
Fixpoint set_nth {A : Type} (n : nat) (x : A) (l : list A) : list A :=
  match l, n with
  | [], _ => []
  | _ :: t, O => x :: t
  | h :: t, S k => h :: set_nth k x t
  end.

(* ================================================================= *)
(** ** Binary floating point

    [round_binary prec emin q] is the number with a [prec]-bit significand
    and exponents from [emin] upwards that is nearest to [q], the one with
    an even significand when two are equally near.  The exponent range has
    no upper end here: [float_max] is the largest finite [float]. *)

(** [floor (log2 q)], for [0 < q]. *)
Definition Qlog2 (q : Q) : Z :=
  let e := Z.log2 (Qnum q) - Z.log2 (Z.pos (Qden q)) in
  if Qle_bool (2 ^ e) q then e else e - 1.

(** The nearest integer, the even one of two that are equally near. *)
Definition round_half_even (q : Q) : Z :=
  let f := Qfloor q in
  match (q - inject_Z f ?= 1 # 2)%Q with
  | Lt => f
  | Gt => f + 1
  | Eq => if Z.even f then f else f + 1
  end.

Definition round_binary (prec emin : Z) (q : Q) : Q :=
  match Qnum q with
  | Z0 => 0%Q
  | _ =>
      let a := Qabs q in
      let e := Z.max emin (Qlog2 a - prec + 1) in
      let r := (inject_Z (round_half_even (a / 2 ^ e)) * 2 ^ e)%Q in
      Qred (if Qnum q <? 0 then - r else r)%Q
  end.

(** Rounding to [float] (binary32) and to [double] (binary64). *)
Definition to_float : Q -> Q := round_binary 24 (-149).
Definition to_double : Q -> Q := round_binary 53 (-1074).

(** [FLT_MAX] *)
Definition float_max : Q := inject_Z ((2 ^ 24 - 1) * 2 ^ 104).

(** The sum of two [float]s, as [+=] on a [float] computes it. *)
Definition float_add (x y : Q) : Q := to_float (x + y).

(** [double(z)] for an integer [z] *)
Definition double_of_Z (z : Z) : Q := to_double (inject_Z z).

(** Conversion of a [double] to an unsigned integer type: the fractional
    part is discarded.  (The conversion is undefined in C++ when the result
    is not a value of the type; the model wraps.) *)
Definition Qtrunc (x : Q) : Z := Z.quot (Qnum x) (Z.pos (Qden x)).
Definition size_t_of_double (x : Q) : Z := usize (Qtrunc x).
Definition uint16_of_double (x : Q) : Z := u16 (Qtrunc x).

(* ================================================================= *)
(** ** Results *)

Inductive Result : Type := Success | Error.

(* ================================================================= *)
(** ** Decoded frames ([AVFrame])

    Only the fields the source reads are kept.  [frame_data] stands for the
    payload (picture planes of a video frame, samples of an audio frame). *)

Record AVFrame : Type := mkFrame {
  best_effort_timestamp : Z;
  pkt_size : Z;
  frame_data : list Z
}.

Definition AV_NOPTS_VALUE : Z := - 2 ^ 63.

(** What [av_frame_alloc] returns and what [av_frame_unref] resets a frame
    to (libavutil's frame defaults: no time stamp, [pkt_size = -1]). *)
Definition frame_defaults : AVFrame :=
  {| best_effort_timestamp := AV_NOPTS_VALUE; pkt_size := -1; frame_data := [] |}.

Definition av_frame_unref (f : AVFrame) : AVFrame := frame_defaults.

(** [AVRational] *)
Record AVRational : Type := mkRational { num : Z; den : Z }.

(** [double(ts * tb.num) / double(tb.den)], for a denominator other than 0
    (with 0 the quotient is not finite). *)
Definition rescale (ts : Z) (tb : AVRational) : Q :=
  to_double (double_of_Z (ts * num tb) / double_of_Z (den tb))%Q.

(* ================================================================= *)
(** ** [VideoQueue]: circular buffer of pre-allocated frames *)

Record VideoQueue : Type := mkVideoQueue {
  _size : Z;
  _capacity : Z;
  _insert_idx : Z;
  _delete_idx : Z;
  _data : option (list AVFrame)      (* [None] is [nullptr] *)
}.

Definition VideoQueue_new : VideoQueue :=
  {| _size := 0; _capacity := 0; _insert_idx := 0; _delete_idx := 0;
     _data := None |}.

(** [_data[i]] *)
Definition VideoQueue_slot (q : VideoQueue) (i : Z) : AVFrame :=
  match _data q with
  | Some d => nth (Z.to_nat i) d frame_defaults
  | None => frame_defaults
  end.

Definition VideoQueue_clear (q : VideoQueue) : VideoQueue :=
  match _data q with
  | Some d =>
      {| _size := 0; _capacity := _capacity q; _insert_idx := 0;
         _delete_idx := 0; _data := Some (map av_frame_unref d) |}
  | None => q
  end.

Definition VideoQueue_free (q : VideoQueue) : VideoQueue :=
  match _data q with
  | Some _ =>
      {| _size := 0; _capacity := _capacity q; _insert_idx := 0;
         _delete_idx := 0; _data := None |}
  | None => q
  end.

(** [init(capacity)].  [alloc_fail] is the oracle for [av_frame_alloc]:
    [Some i] when the allocation of slot [i] returns [nullptr]. *)
Definition VideoQueue_init (capacity : Z) (alloc_fail : option nat)
    (q : VideoQueue) : Result * VideoQueue :=
  let q0 := {| _size := 0; _capacity := _capacity q; _insert_idx := 0;
               _delete_idx := 0; _data := _data q |} in
  let q1 := match _data q0 with
            | Some _ => VideoQueue_free (VideoQueue_clear q0)
            | None => q0
            end in
  if capacity <=? 1 then (Error, q1)
  else
    let n := Z.to_nat capacity in
    match alloc_fail with
    | Some i =>
        if (i <? n)%nat
        then (Error, {| _size := 0; _capacity := capacity; _insert_idx := 0;
                        _delete_idx := 0;
                        _data := Some (repeat frame_defaults i) |})
        else (Success, {| _size := 0; _capacity := capacity; _insert_idx := 0;
                          _delete_idx := 0;
                          _data := Some (repeat frame_defaults n) |})
    | None =>
        (Success, {| _size := 0; _capacity := capacity; _insert_idx := 0;
                     _delete_idx := 0;
                     _data := Some (repeat frame_defaults n) |})
    end.

Definition VideoQueue_back (q : VideoQueue) : AVFrame :=
  VideoQueue_slot q (_insert_idx q).

Definition VideoQueue_front (q : VideoQueue) : AVFrame :=
  VideoQueue_slot q (_delete_idx q).

(** The producer fills the frame [back()] points to: a write through that
    pointer is a write into the slot at the insertion cursor. *)
Definition VideoQueue_store_back (f : AVFrame) (q : VideoQueue) : VideoQueue :=
  {| _size := _size q; _capacity := _capacity q;
     _insert_idx := _insert_idx q; _delete_idx := _delete_idx q;
     _data := option_map (set_nth (Z.to_nat (_insert_idx q)) f) (_data q) |}.

Definition VideoQueue_push (q : VideoQueue) : VideoQueue :=
  {| _size := u16 (_size q + 1);
     _capacity := _capacity q;
     _insert_idx := u16 ((_insert_idx q + 1) mod _capacity q);
     _delete_idx := _delete_idx q;
     _data := _data q |}.

Definition VideoQueue_pop (q : VideoQueue) : VideoQueue :=
  if 0 <? _size q then
    {| _size := u16 (_size q - 1);
       _capacity := _capacity q;
       _insert_idx := _insert_idx q;
       _delete_idx := u16 ((_delete_idx q + 1) mod _capacity q);
       _data := option_map
                  (set_nth (Z.to_nat (_delete_idx q))
                           (av_frame_unref (VideoQueue_front q)))
                  (_data q) |}
  else q.

Definition VideoQueue_size (q : VideoQueue) : Z := _size q.
Definition VideoQueue_capacity (q : VideoQueue) : Z := _capacity q.

(** The committed frames, oldest first: [_size] slots read from the deletion
    cursor onwards, wrapping at [_capacity]. *)
Fixpoint ring_slice (d : list AVFrame) (cap : Z) (start : Z) (n : nat)
    : list AVFrame :=
  match n with
  | O => []
  | S k => nth (Z.to_nat start) d frame_defaults
           :: ring_slice d cap ((start + 1) mod cap) k
  end.

Definition VideoQueue_contents (q : VideoQueue) : list AVFrame :=
  match _data q with
  | Some d => ring_slice d (_capacity q) (_delete_idx q) (Z.to_nat (_size q))
  | None => []
  end.

(** Consistency of the ring: the slots are allocated, the cursors are inside
    the array, and the insertion cursor is [_size] slots after the deletion
    cursor. *)
Definition VideoQueue_wf (q : VideoQueue) : Prop :=
  exists d,
    _data q = Some d
    /\ Z.of_nat (length d) = _capacity q
    /\ 2 <= _capacity q < 65536
    /\ 0 <= _size q <= _capacity q
    /\ 0 <= _delete_idx q < _capacity q
    /\ _insert_idx q = (_delete_idx q + _size q) mod _capacity q.

(** Sequences of producer / consumer calls. *)
Inductive queue_op : Type := OpPush | OpPop.

Definition apply_op (o : queue_op) (q : VideoQueue) : VideoQueue :=
  match o with
  | OpPush => VideoQueue_push q
  | OpPop => VideoQueue_pop q
  end.

Fixpoint apply_ops (ops : list queue_op) (q : VideoQueue) : VideoQueue :=
  match ops with
  | [] => q
  | o :: rest => apply_ops rest (apply_op o q)
  end.

(** The caller's side of the contract: [push()] is only issued while a free
    slot is left. *)
Fixpoint pushes_guarded (ops : list queue_op) (q : VideoQueue) : bool :=
  match ops with
  | [] => true
  | o :: rest =>
      match o with
      | OpPush => VideoQueue_size q <? VideoQueue_capacity q
      | OpPop => true
      end && pushes_guarded rest (apply_op o q)
  end.

(* ================================================================= *)
(** ** [AVAudioFifo] (libavutil) and its wrapper [AudioQueue]

    The FIFO itself lives in libavutil; its documented contract is what is
    modelled: [av_audio_fifo_size] is the number of stored samples,
    [av_audio_fifo_space] the allocated room that is left,
    [av_audio_fifo_drain] removes from the read end (at most what is
    stored), [av_audio_fifo_read] copies out and removes at most what is
    stored, and [av_audio_fifo_write] appends all samples, reallocating the
    FIFO (to twice the resulting size) when the room left is too small.
    One element of [fifo_samples] is one sample of all channels. *)

Record AVAudioFifo : Type := mkFifo {
  fifo_samples : list Z;          (* oldest first *)
  allocated_samples : nat
}.

Definition av_audio_fifo_size (f : AVAudioFifo) : nat := length (fifo_samples f).

Definition av_audio_fifo_space (f : AVAudioFifo) : nat :=
  (allocated_samples f - av_audio_fifo_size f)%nat.

Definition av_audio_fifo_drain (f : AVAudioFifo) (n : nat) : AVAudioFifo :=
  {| fifo_samples := skipn (Nat.min n (av_audio_fifo_size f)) (fifo_samples f);
     allocated_samples := allocated_samples f |}.

Definition av_audio_fifo_write (f : AVAudioFifo) (data : list Z)
    : nat * AVAudioFifo :=
  let n := length data in
  let alloc :=
    if (av_audio_fifo_space f <? n)%nat
    then (2 * (av_audio_fifo_size f + n))%nat
    else allocated_samples f in
  (n, {| fifo_samples := fifo_samples f ++ data; allocated_samples := alloc |}).

Definition av_audio_fifo_read (f : AVAudioFifo) (n : nat)
    : list Z * AVAudioFifo :=
  let k := Nat.min n (av_audio_fifo_size f) in
  (firstn k (fifo_samples f),
   {| fifo_samples := skipn k (fifo_samples f);
      allocated_samples := allocated_samples f |}).

(** [av_audio_fifo_alloc(format, channels, capacity)] *)
Definition av_audio_fifo_alloc (nb_samples : nat) : AVAudioFifo :=
  {| fifo_samples := []; allocated_samples := nb_samples |}.

Record AudioQueue : Type := mkAudioQueue {
  _fifo : option AVAudioFifo         (* [None] is [nullptr] *)
}.

Definition AudioQueue_new : AudioQueue := {| _fifo := None |}.

Definition AudioQueue_clear (q : AudioQueue) : AudioQueue :=
  match _fifo q with
  | Some f => {| _fifo := Some (av_audio_fifo_drain f (av_audio_fifo_size f)) |}
  | None => q
  end.

Definition AudioQueue_free (q : AudioQueue) : AudioQueue := {| _fifo := None |}.

(** [init(format, channels, capacity)]; [alloc_ok] is the oracle for
    [av_audio_fifo_alloc] returning a FIFO. *)
Definition AudioQueue_init (channels capacity : Z) (alloc_ok : bool)
    (q : AudioQueue) : Result * AudioQueue :=
  if (capacity =? 0) || (channels =? 0) then (Error, q)
  else
    let q1 := match _fifo q with
              | Some _ => AudioQueue_free (AudioQueue_clear q)
              | None => q
              end in
    if alloc_ok
    then (Success, {| _fifo := Some (av_audio_fifo_alloc (Z.to_nat capacity)) |})
    else (Error, {| _fifo := None |}).

(** The stored samples fit the allocation. *)
Definition fifo_ok (f : AVAudioFifo) : Prop :=
  (av_audio_fifo_size f <= allocated_samples f)%nat.

(** [push(data, samples)]: [data] holds the [samples] samples to append.
    The member functions below dereference [_fifo]; on [nullptr] (never the
    case while the audio stream is open) the model leaves the queue as it
    is. *)
Definition drain_for_push (samples : nat) (f : AVAudioFifo) : AVAudioFifo :=
  let space := av_audio_fifo_space f in
  if (space <? samples)%nat
  then av_audio_fifo_drain f (Nat.min (av_audio_fifo_size f) (samples - space))
  else f.

Definition AudioQueue_push (data : list Z) (q : AudioQueue) : nat * AudioQueue :=
  match _fifo q with
  | Some f =>
      let samples := length data in
      let '(written, f2) := av_audio_fifo_write (drain_for_push samples f) data in
      (written, {| _fifo := Some f2 |})
  | None => (O, q)
  end.

Definition AudioQueue_pop (samples : nat) (q : AudioQueue)
    : list Z * AudioQueue :=
  match _fifo q with
  | Some f =>
      let '(out, f1) := av_audio_fifo_read f samples in
      (out, {| _fifo := Some f1 |})
  | None => ([], q)
  end.

Definition AudioQueue_drain (samples : nat) (q : AudioQueue) : AudioQueue :=
  match _fifo q with
  | Some f => {| _fifo := Some (av_audio_fifo_drain f samples) |}
  | None => q
  end.

Definition AudioQueue_size (q : AudioQueue) : nat :=
  match _fifo q with
  | Some f => av_audio_fifo_size f
  | None => O
  end.

Definition AudioQueue_capacity (q : AudioQueue) : nat :=
  match _fifo q with
  | Some f => (av_audio_fifo_space f + av_audio_fifo_size f)%nat
  | None => O
  end.

Definition AudioQueue_samples (q : AudioQueue) : list Z :=
  match _fifo q with
  | Some f => fifo_samples f
  | None => []
  end.

(* ================================================================= *)
(** ** Packets and the decoder / resampler oracles

    A packet read by [av_read_frame] carries what FFmpeg answers when the
    code decodes it: the response of [avcodec_send_packet], the frames the
    successive [avcodec_receive_frame] calls deliver, and the (negative)
    response of the call that delivers no further frame.  For an audio frame, [r_convert_response] and
    [r_resampled] are the response and the output of [swr_convert_frame] on
    it, and [r_flush] the further conversions made while [swr_get_delay]
    is positive. *)

Record Received : Type := mkReceived {
  r_frame : AVFrame;
  r_convert_response : Z;
  r_resampled : list Z;
  r_flush : list (Z * list Z)
}.

Record AVPacket : Type := mkPacket {
  stream_index : Z;
  send_response : Z;
  received : list Received;
  receive_end : Z
}.

Definition AVERROR_EAGAIN : Z := -11.
Definition AVERROR_EOF : Z := -541478725.

(** [olc::Renderable]: [Decal()] is [nullptr] until [Create] was called;
    [pixels] is the picture held by the sprite. *)
Record Renderable : Type := mkRenderable {
  created : bool;
  pixels : list Z
}.

Definition Decal (r : Renderable) : option (list Z) :=
  if created r then Some (pixels r) else None.

(** Calls into the audio device, the decoders and the thread library, newest
    first. *)
Inductive Call : Type :=
| ma_device_stop
| ma_device_start
| ma_device_uninit
| avcodec_flush_buffers_video
| avcodec_flush_buffers_audio
| thread_start
| thread_join.

(* ================================================================= *)
(** ** [olc::Media] *)

Record Media : Type := mkMedia {
  demuxer : list AVPacket;       (* what [av_read_frame] will deliver *)
  is_paused : bool;
  finished_reading : bool;
  keep_loading : bool;
  frame_loader : bool;           (* [frame_loader.joinable()] *)
  video_stream_index : Z;
  video_time_base : AVRational;
  video_fifo : VideoQueue;
  video_frame : Renderable;
  delta_time_accumulator : Q;
  last_video_pts : Q;
  video_opened : bool;
  attached_pic : bool;
  audio_stream_index : Z;
  audio_time_base : AVRational;
  audio_fifo : AudioQueue;
  audio_frames_consumed : Z;
  audio_time : Q;
  audio_sample_rate : Z;
  audio_opened : bool;
  calls : list Call
}.

Definition set_demuxer (v : list AVPacket) (m : Media) : Media :=
  mkMedia v (is_paused m) (finished_reading m) (keep_loading m)
    (frame_loader m) (video_stream_index m) (video_time_base m) (video_fifo m)
    (video_frame m) (delta_time_accumulator m) (last_video_pts m)
    (video_opened m) (attached_pic m) (audio_stream_index m)
    (audio_time_base m) (audio_fifo m) (audio_frames_consumed m)
    (audio_time m) (audio_sample_rate m) (audio_opened m) (calls m).

Definition set_is_paused (v : bool) (m : Media) : Media :=
  mkMedia (demuxer m) v (finished_reading m) (keep_loading m)
    (frame_loader m) (video_stream_index m) (video_time_base m) (video_fifo m)
    (video_frame m) (delta_time_accumulator m) (last_video_pts m)
    (video_opened m) (attached_pic m) (audio_stream_index m)
    (audio_time_base m) (audio_fifo m) (audio_frames_consumed m)
    (audio_time m) (audio_sample_rate m) (audio_opened m) (calls m).

Definition set_finished_reading (v : bool) (m : Media) : Media :=
  mkMedia (demuxer m) (is_paused m) v (keep_loading m)
    (frame_loader m) (video_stream_index m) (video_time_base m) (video_fifo m)
    (video_frame m) (delta_time_accumulator m) (last_video_pts m)
    (video_opened m) (attached_pic m) (audio_stream_index m)
    (audio_time_base m) (audio_fifo m) (audio_frames_consumed m)
    (audio_time m) (audio_sample_rate m) (audio_opened m) (calls m).

Definition set_keep_loading (v : bool) (m : Media) : Media :=
  mkMedia (demuxer m) (is_paused m) (finished_reading m) v
    (frame_loader m) (video_stream_index m) (video_time_base m) (video_fifo m)
    (video_frame m) (delta_time_accumulator m) (last_video_pts m)
    (video_opened m) (attached_pic m) (audio_stream_index m)
    (audio_time_base m) (audio_fifo m) (audio_frames_consumed m)
    (audio_time m) (audio_sample_rate m) (audio_opened m) (calls m).

Definition set_frame_loader (v : bool) (m : Media) : Media :=
  mkMedia (demuxer m) (is_paused m) (finished_reading m) (keep_loading m)
    v (video_stream_index m) (video_time_base m) (video_fifo m)
    (video_frame m) (delta_time_accumulator m) (last_video_pts m)
    (video_opened m) (attached_pic m) (audio_stream_index m)
    (audio_time_base m) (audio_fifo m) (audio_frames_consumed m)
    (audio_time m) (audio_sample_rate m) (audio_opened m) (calls m).

Definition set_video_fifo (v : VideoQueue) (m : Media) : Media :=
  mkMedia (demuxer m) (is_paused m) (finished_reading m) (keep_loading m)
    (frame_loader m) (video_stream_index m) (video_time_base m) v
    (video_frame m) (delta_time_accumulator m) (last_video_pts m)
    (video_opened m) (attached_pic m) (audio_stream_index m)
    (audio_time_base m) (audio_fifo m) (audio_frames_consumed m)
    (audio_time m) (audio_sample_rate m) (audio_opened m) (calls m).

Definition set_video_frame (v : Renderable) (m : Media) : Media :=
  mkMedia (demuxer m) (is_paused m) (finished_reading m) (keep_loading m)
    (frame_loader m) (video_stream_index m) (video_time_base m) (video_fifo m)
    v (delta_time_accumulator m) (last_video_pts m)
    (video_opened m) (attached_pic m) (audio_stream_index m)
    (audio_time_base m) (audio_fifo m) (audio_frames_consumed m)
    (audio_time m) (audio_sample_rate m) (audio_opened m) (calls m).

Definition set_delta_time_accumulator (v : Q) (m : Media) : Media :=
  mkMedia (demuxer m) (is_paused m) (finished_reading m) (keep_loading m)
    (frame_loader m) (video_stream_index m) (video_time_base m) (video_fifo m)
    (video_frame m) v (last_video_pts m)
    (video_opened m) (attached_pic m) (audio_stream_index m)
    (audio_time_base m) (audio_fifo m) (audio_frames_consumed m)
    (audio_time m) (audio_sample_rate m) (audio_opened m) (calls m).

Definition set_last_video_pts (v : Q) (m : Media) : Media :=
  mkMedia (demuxer m) (is_paused m) (finished_reading m) (keep_loading m)
    (frame_loader m) (video_stream_index m) (video_time_base m) (video_fifo m)
    (video_frame m) (delta_time_accumulator m) v
    (video_opened m) (attached_pic m) (audio_stream_index m)
    (audio_time_base m) (audio_fifo m) (audio_frames_consumed m)
    (audio_time m) (audio_sample_rate m) (audio_opened m) (calls m).

Definition set_video_opened (v : bool) (m : Media) : Media :=
  mkMedia (demuxer m) (is_paused m) (finished_reading m) (keep_loading m)
    (frame_loader m) (video_stream_index m) (video_time_base m) (video_fifo m)
    (video_frame m) (delta_time_accumulator m) (last_video_pts m)
    v (attached_pic m) (audio_stream_index m)
    (audio_time_base m) (audio_fifo m) (audio_frames_consumed m)
    (audio_time m) (audio_sample_rate m) (audio_opened m) (calls m).

Definition set_attached_pic (v : bool) (m : Media) : Media :=
  mkMedia (demuxer m) (is_paused m) (finished_reading m) (keep_loading m)
    (frame_loader m) (video_stream_index m) (video_time_base m) (video_fifo m)
    (video_frame m) (delta_time_accumulator m) (last_video_pts m)
    (video_opened m) v (audio_stream_index m)
    (audio_time_base m) (audio_fifo m) (audio_frames_consumed m)
    (audio_time m) (audio_sample_rate m) (audio_opened m) (calls m).

Definition set_audio_fifo (v : AudioQueue) (m : Media) : Media :=
  mkMedia (demuxer m) (is_paused m) (finished_reading m) (keep_loading m)
    (frame_loader m) (video_stream_index m) (video_time_base m) (video_fifo m)
    (video_frame m) (delta_time_accumulator m) (last_video_pts m)
    (video_opened m) (attached_pic m) (audio_stream_index m)
    (audio_time_base m) v (audio_frames_consumed m)
    (audio_time m) (audio_sample_rate m) (audio_opened m) (calls m).

Definition set_audio_clock (consumed : Z) (time : Q) (m : Media) : Media :=
  mkMedia (demuxer m) (is_paused m) (finished_reading m) (keep_loading m)
    (frame_loader m) (video_stream_index m) (video_time_base m) (video_fifo m)
    (video_frame m) (delta_time_accumulator m) (last_video_pts m)
    (video_opened m) (attached_pic m) (audio_stream_index m)
    (audio_time_base m) (audio_fifo m) consumed
    time (audio_sample_rate m) (audio_opened m) (calls m).

Definition set_audio_opened (v : bool) (m : Media) : Media :=
  mkMedia (demuxer m) (is_paused m) (finished_reading m) (keep_loading m)
    (frame_loader m) (video_stream_index m) (video_time_base m) (video_fifo m)
    (video_frame m) (delta_time_accumulator m) (last_video_pts m)
    (video_opened m) (attached_pic m) (audio_stream_index m)
    (audio_time_base m) (audio_fifo m) (audio_frames_consumed m)
    (audio_time m) (audio_sample_rate m) v (calls m).

Definition call (c : Call) (m : Media) : Media :=
  mkMedia (demuxer m) (is_paused m) (finished_reading m) (keep_loading m)
    (frame_loader m) (video_stream_index m) (video_time_base m) (video_fifo m)
    (video_frame m) (delta_time_accumulator m) (last_video_pts m)
    (video_opened m) (attached_pic m) (audio_stream_index m)
    (audio_time_base m) (audio_fifo m) (audio_frames_consumed m)
    (audio_time m) (audio_sample_rate m) (audio_opened m) (c :: calls m).

(** The object as its constructor leaves it.  [is_paused] and the two time
    bases have no initialiser in the source. *)
Definition Media_new (paused : bool) (vtb atb : AVRational) : Media :=
  {| demuxer := []; is_paused := paused; finished_reading := false;
     keep_loading := true; frame_loader := false;
     video_stream_index := -1; video_time_base := vtb;
     video_fifo := VideoQueue_new;
     video_frame := {| created := false; pixels := [] |};
     delta_time_accumulator := 0; last_video_pts := 0;
     video_opened := false; attached_pic := false;
     audio_stream_index := -1; audio_time_base := atb;
     audio_fifo := AudioQueue_new; audio_frames_consumed := 0;
     audio_time := 0; audio_sample_rate := 0; audio_opened := false;
     calls := [] |}.

Definition IsVideoOpened (m : Media) : bool := video_opened m.
Definition IsAudioOpened (m : Media) : bool := audio_opened m.
Definition IsPaused (m : Media) : bool := is_paused m.
Definition HasAlbumArt (m : Media) : bool := attached_pic m.

Definition CalculateVideoPts (m : Media) (frame : AVFrame) : Q :=
  rescale (best_effort_timestamp frame) (video_time_base m).

Definition CalculateAudioPts (m : Media) (frame : AVFrame) : Q :=
  rescale (best_effort_timestamp frame) (audio_time_base m).

(** [x < y] on time stamps. *)
Definition Qlt_bool (x y : Q) : bool := negb (Qle_bool y x).

Definition FinishedReading (m : Media) : bool :=
  if negb (IsVideoOpened m) && negb (IsAudioOpened m) then false
  else if finished_reading m then
    let video_finished :=
      if IsVideoOpened m && (0 <? VideoQueue_size (video_fifo m))
      then false else true in
    let audio_finished :=
      if IsAudioOpened m && (0 <? AudioQueue_size (audio_fifo m))%nat
      then false else true in
    video_finished && audio_finished
  else false.

Definition Pause (m : Media) : Media :=
  if negb (IsAudioOpened m || IsVideoOpened m) then m
  else if IsPaused m then m
  else
    let m1 := if IsAudioOpened m then call ma_device_stop m else m in
    set_is_paused true m1.

Definition Play (m : Media) : Media :=
  if negb (IsAudioOpened m || IsVideoOpened m) then m
  else if negb (IsPaused m) then m
  else
    let m1 := if IsAudioOpened m then call ma_device_start m else m in
    set_is_paused false m1.

(** The worker thread itself runs concurrently; starting and stopping it is
    what the controller does, and that is what is modelled here.  After
    [StopDecodingThread] the worker has been joined: it has left its loop and
    set [finished_reading].

    [StartDecodingThread] move-assigns a new [std::thread] to [frame_loader]:
    when [frame_loader] is still joinable the assignment calls
    [std::terminate] and the program ends, which is the result [None]. *)
Definition StartDecodingThread (m : Media) : option Media :=
  let m1 := set_finished_reading false (set_keep_loading true m) in
  if frame_loader m1 then None
  else Some (call thread_start (set_frame_loader true m1)).

Definition StopDecodingThread (m : Media) : Media :=
  let m1 := set_finished_reading true (set_keep_loading false m) in
  if frame_loader m1
  then set_frame_loader false (call thread_join m1)
  else m1.

Definition ConvertFrameToRGBASprite (frame : AVFrame) (m : Media) : Media :=
  set_video_frame
    {| created := created (video_frame m); pixels := frame_data frame |} m.

Definition PeekFrame (m : Media) : option AVFrame :=
  if 0 <? VideoQueue_size (video_fifo m)
  then Some (VideoQueue_front (video_fifo m))
  else None.

(** [GetVideoFrame()] *)
Definition GetVideoFrame_now (m : Media) : option (list Z) * Media :=
  if negb (IsVideoOpened m) then (Decal (video_frame m), m)
  else if FinishedReading m then (Decal (video_frame m), m)
  else if 0 <? VideoQueue_size (video_fifo m) then
    let frame_ref := VideoQueue_front (video_fifo m) in
    let m1 := ConvertFrameToRGBASprite frame_ref m in
    let m2 := set_video_fifo (VideoQueue_pop (video_fifo m1)) m1 in
    (Decal (video_frame m2), m2)
  else (Decal (video_frame m), m).

Definition SkipVideoFrame (m : Media) : Result * Media :=
  if negb (IsVideoOpened m) then (Error, m)
  else if FinishedReading m then (Error, m)
  else if 0 <? VideoQueue_size (video_fifo m) then
    (Success, set_video_fifo (VideoQueue_pop (video_fifo m)) m)
  else (Error, m).

(** The [while (true)] loop of [GetVideoFrame(float)].  [inl d]: the loop
    returned the decal [d]; [inr tt]: it left through [break].  [None] only
    when [fuel] iterations were not enough. *)
Fixpoint sync_loop (fuel : nat) (time_reference : Q) (m : Media)
    : option ((option (list Z) + unit) * Media) :=
  match fuel with
  | O => None
  | S k =>
      match PeekFrame m with
      | None => Some (inl (Decal (video_frame m)), m)
      | Some next_frame =>
          let m1 := set_last_video_pts (CalculateVideoPts m next_frame) m in
          if Qle_bool time_reference (last_video_pts m1)
          then Some (inr tt, m1)
          else sync_loop k time_reference (snd (SkipVideoFrame m1))
      end
  end.

(** [GetVideoFrame(float delta_time)].  The outer [option] is [None] only if
    the loop ran out of fuel, which [GetVideoFrame_total] excludes for every
    consistent queue: each iteration that does not leave the loop pops a
    frame. *)
Definition GetVideoFrame (delta_time : Q) (m : Media)
    : option (option (list Z) * Media) :=
  if negb (IsVideoOpened m) then Some (None, m)
  else if FinishedReading m then Some (GetVideoFrame_now m)
  else if IsPaused m then Some (Decal (video_frame m), m)
  else if HasAlbumArt m then Some (GetVideoFrame_now m)
  else
    let '(time_reference, m1) :=
      if IsAudioOpened m then (audio_time m, m)
      else
        let acc := float_add (delta_time_accumulator m) delta_time in
        (acc, set_delta_time_accumulator acc m) in
    if Qlt_bool time_reference (last_video_pts m1)
    then Some (Decal (video_frame m1), m1)
    else
      match sync_loop (S (Z.to_nat (VideoQueue_size (video_fifo m1))))
                      time_reference m1 with
      | None => None
      | Some (inl d, m2) => Some (d, m2)
      | Some (inr _, m2) => Some (GetVideoFrame_now m2)
      end.

(** The reference time a call of [GetVideoFrame(delta_time)] synchronises
    to. *)
Definition reference_time (delta_time : Q) (m : Media) : Q :=
  if IsAudioOpened m then audio_time m
  else float_add (delta_time_accumulator m) delta_time.

(* ----------------------------------------------------------------- *)
(** *** The decode worker, [DecodingThread]

    The worker is modelled between two actions of the consumer: it runs
    until it leaves its loop or has to wait on the condition variable. *)

Inductive WorkerStatus : Type :=
| Waiting                    (* blocked in [conditional.wait] *)
| Returned (r : Result).

(** Video branch of the routing phase. *)
Definition decode_video_packet (max_video_queue_size : Z) (p : AVPacket)
    (m : Media) : Result * Media :=
  let q1 := if max_video_queue_size =? VideoQueue_size (video_fifo m)
            then VideoQueue_pop (video_fifo m) else video_fifo m in
  if negb (send_response p =? 0) then (Error, set_video_fifo q1 m)
  else
    let '(response, decoded) :=
      match received p with
      | r :: _ => (0, r_frame r)
      | [] => (receive_end p, frame_defaults)
      end in
    let q2 := VideoQueue_store_back decoded q1 in
    if (response <? 0)
       && negb ((response =? AVERROR_EOF) || (response =? AVERROR_EAGAIN))
    then (Error, set_video_fifo q2 m)
    else
      let q3 := if negb (pkt_size (VideoQueue_back q2) =? -1)
                then VideoQueue_push q2 else q2 in
      (Success, set_video_fifo q3 m).

(** The loop that empties the resampler after a frame was converted. *)
Fixpoint push_flushed (fl : list (Z * list Z)) (q : AudioQueue)
    : Result * AudioQueue :=
  match fl with
  | [] => (Success, q)
  | (response, block) :: rest =>
      if response =? 0
      then push_flushed rest (snd (AudioQueue_push block q))
      else (Error, q)
  end.

(** The receive loop of the audio branch. *)
Fixpoint decode_audio_frames (rs : list Received) (last_response : Z)
    (m : Media) : Result * Media :=
  match rs with
  | [] =>
      if (last_response <? 0)
         && negb ((last_response =? AVERROR_EOF)
                  || (last_response =? AVERROR_EAGAIN))
      then (Error, m) else (Success, m)
  | r :: rest =>
      if negb (pkt_size (r_frame r) =? -1) then
        if r_convert_response r =? 0 then
          let q1 := snd (AudioQueue_push (r_resampled r) (audio_fifo m)) in
          match push_flushed (r_flush r) q1 with
          | (Success, q2) =>
              decode_audio_frames rest last_response (set_audio_fifo q2 m)
          | (Error, q2) => (Error, set_audio_fifo q2 m)
          end
        else (Error, m)
      else decode_audio_frames rest last_response m
  end.

Definition decode_audio_packet (p : AVPacket) (m : Media) : Result * Media :=
  if (send_response p <? 0) && negb (send_response p =? AVERROR_EAGAIN)
  then (Error, m)
  else decode_audio_frames (received p) (receive_end p) m.

Fixpoint DecodingThread_loop (pkts : list AVPacket)
    (max_video_queue_size min_video_queue_size min_audio_queue_size : Z)
    (m : Media) : WorkerStatus * Media :=
  let wake :=
    (negb (HasAlbumArt m) && IsVideoOpened m
       && (VideoQueue_size (video_fifo m) <=? min_video_queue_size))
    || (IsAudioOpened m
          && (Z.of_nat (AudioQueue_size (audio_fifo m))
                <=? min_audio_queue_size))
    || negb (keep_loading m) in
  if negb wake then (Waiting, set_demuxer pkts m)
  else if negb (keep_loading m)
  then (Returned Success, set_finished_reading true (set_demuxer pkts m))
  else
    match pkts with
    | [] => (Returned Success, set_finished_reading true (set_demuxer [] m))
    | p :: rest =>
        if IsVideoOpened m && (stream_index p =? video_stream_index m) then
          match decode_video_packet max_video_queue_size p m with
          | (Success, m1) =>
              DecodingThread_loop rest max_video_queue_size
                min_video_queue_size min_audio_queue_size m1
          | (Error, m1) => (Returned Error, set_demuxer rest m1)
          end
        else if IsAudioOpened m && (stream_index p =? audio_stream_index m) then
          match decode_audio_packet p m with
          | (Success, m1) =>
              DecodingThread_loop rest max_video_queue_size
                min_video_queue_size min_audio_queue_size m1
          | (Error, m1) => (Returned Error, set_demuxer rest m1)
          end
        else
          DecodingThread_loop rest max_video_queue_size
            min_video_queue_size min_audio_queue_size m
    end.

Definition DecodingThread (m : Media) : WorkerStatus * Media :=
  let m0 := set_finished_reading false m in
  let max_video_queue_size :=
    if IsVideoOpened m0 then
      if HasAlbumArt m0 then 1
      else usize (VideoQueue_capacity (video_fifo m0) - 1)
    else 0 in
  let min_video_queue_size :=
    if IsVideoOpened m0 then
      if HasAlbumArt m0 then 1
      else Z.max (max_video_queue_size / 2) 1
    else 0 in
  let min_audio_queue_size :=
    if IsAudioOpened m0
    then Z.max (Z.of_nat (AudioQueue_capacity (audio_fifo m0)) / 2) 1
    else 0 in
  DecodingThread_loop (demuxer m0) max_video_queue_size min_video_queue_size
    min_audio_queue_size m0.

(* ----------------------------------------------------------------- *)
(** *** Seeking: [AdjustSeekedPosition] and [Seek] *)

Definition resync_video_packet (wanted_timepoint : Q)
    (max_video_queue_size : Z) (p : AVPacket) (video_seeked : bool)
    (m : Media) : Result * bool * Media :=
  let q1 := if max_video_queue_size =? VideoQueue_size (video_fifo m)
            then VideoQueue_pop (video_fifo m) else video_fifo m in
  if negb (send_response p =? 0) then (Error, video_seeked, set_video_fifo q1 m)
  else
    let '(response, decoded) :=
      match received p with
      | r :: _ => (0, r_frame r)
      | [] => (receive_end p, frame_defaults)
      end in
    let q2 := VideoQueue_store_back decoded q1 in
    if (response <? 0)
       && negb ((response =? AVERROR_EOF) || (response =? AVERROR_EAGAIN))
    then (Error, video_seeked, set_video_fifo q2 m)
    else
      if negb (pkt_size (VideoQueue_back q2) =? -1) then
        if Qle_bool wanted_timepoint (CalculateVideoPts m (VideoQueue_back q2))
        then (Success, true, set_video_fifo (VideoQueue_push q2) m)
        else (Success, video_seeked, set_video_fifo q2 m)
      else (Success, video_seeked, set_video_fifo q2 m).

Fixpoint resync_audio_frames (wanted_timepoint : Q) (rs : list Received)
    (last_response : Z) (audio_seeked : bool) (m : Media)
    : Result * bool * Media :=
  match rs with
  | [] =>
      if (last_response <? 0)
         && negb ((last_response =? AVERROR_EOF)
                  || (last_response =? AVERROR_EAGAIN))
      then (Error, audio_seeked, m) else (Success, audio_seeked, m)
  | r :: rest =>
      if negb (pkt_size (r_frame r) =? -1) then
        if Qle_bool wanted_timepoint (CalculateAudioPts m (r_frame r)) then
          let m1 :=
            if negb audio_seeked then
              let t := CalculateAudioPts m (r_frame r) in
              set_audio_clock
                (size_t_of_double
                   (to_double (t * double_of_Z (audio_sample_rate m)))) t m
            else m in
          if r_convert_response r =? 0 then
            let q1 := snd (AudioQueue_push (r_resampled r) (audio_fifo m1)) in
            match push_flushed (r_flush r) q1 with
            | (Success, q2) =>
                resync_audio_frames wanted_timepoint rest last_response true
                  (set_audio_fifo q2 m1)
            | (Error, q2) => (Error, true, set_audio_fifo q2 m1)
            end
          else (Error, true, m1)
        else resync_audio_frames wanted_timepoint rest last_response
               audio_seeked m
      else resync_audio_frames wanted_timepoint rest last_response
             audio_seeked m
  end.

Definition resync_audio_packet (wanted_timepoint : Q) (p : AVPacket)
    (audio_seeked : bool) (m : Media) : Result * bool * Media :=
  if (send_response p <? 0) && negb (send_response p =? AVERROR_EAGAIN)
  then (Error, audio_seeked, m)
  else resync_audio_frames wanted_timepoint (received p) (receive_end p)
         audio_seeked m.

(** The loop of [AdjustSeekedPosition]; besides the result and the object it
    returns the two locals [video_seeked] and [audio_seeked] as they are when
    the function is left. *)
Fixpoint AdjustSeekedPosition_loop (pkts : list AVPacket)
    (wanted_timepoint : Q) (max_video_queue_size : Z)
    (video_seeked audio_seeked : bool) (m : Media)
    : Result * (bool * bool) * Media :=
  if video_seeked && audio_seeked then
    let m1 :=
      if IsVideoOpened m then
        let pts := CalculateVideoPts m (VideoQueue_front (video_fifo m)) in
        set_delta_time_accumulator (to_float pts) (set_last_video_pts pts m)
      else m in
    (Success, (video_seeked, audio_seeked), set_demuxer pkts m1)
  else
    match pkts with
    | [] => (Success, (video_seeked, audio_seeked), set_demuxer [] m)
    | p :: rest =>
        if IsVideoOpened m && (stream_index p =? video_stream_index m) then
          match resync_video_packet wanted_timepoint max_video_queue_size p
                  video_seeked m with
          | (Success, video_seeked1, m1) =>
              AdjustSeekedPosition_loop rest wanted_timepoint
                max_video_queue_size video_seeked1 audio_seeked m1
          | (Error, video_seeked1, m1) =>
              (Error, (video_seeked1, audio_seeked), set_demuxer rest m1)
          end
        else if IsAudioOpened m && (stream_index p =? audio_stream_index m) then
          match resync_audio_packet wanted_timepoint p audio_seeked m with
          | (Success, audio_seeked1, m1) =>
              AdjustSeekedPosition_loop rest wanted_timepoint
                max_video_queue_size video_seeked audio_seeked1 m1
          | (Error, audio_seeked1, m1) =>
              (Error, (video_seeked, audio_seeked1), set_demuxer rest m1)
          end
        else
          AdjustSeekedPosition_loop rest wanted_timepoint
            max_video_queue_size video_seeked audio_seeked m
    end.

(** [AdjustSeekedPosition] when [av_read_frame] delivers [pkts]. *)
Definition AdjustSeekedPosition_from (pkts : list AVPacket)
    (wanted_timepoint : Q) (m : Media) : Result * (bool * bool) * Media :=
  let max_video_queue_size :=
    if IsVideoOpened m then usize (VideoQueue_capacity (video_fifo m) - 1)
    else 0 in
  AdjustSeekedPosition_loop pkts wanted_timepoint max_video_queue_size
    (if IsVideoOpened m then false else true)
    (if IsAudioOpened m then false else true) m.

Definition AdjustSeekedPosition_run (wanted_timepoint : Q) (m : Media)
    : Result * (bool * bool) * Media :=
  AdjustSeekedPosition_from (demuxer m) wanted_timepoint m.

Definition AdjustSeekedPosition (wanted_timepoint : Q) (m : Media)
    : Result * Media :=
  let '(result, _, m1) := AdjustSeekedPosition_run wanted_timepoint m in
  (result, m1).

(** What [Seek] does between a successful [av_seek_frame] and the call of
    [AdjustSeekedPosition]: the demuxer stands at [repositioned], both
    queues are cleared and both decoders flushed. *)
Definition Seek_flush (repositioned : list AVPacket) (m : Media) : Media :=
  let m1 := set_demuxer repositioned m in
  let m2 :=
    if IsVideoOpened m1
    then call avcodec_flush_buffers_video
           (set_video_fifo (VideoQueue_clear (video_fifo m1)) m1)
    else m1 in
  if IsAudioOpened m2
  then call avcodec_flush_buffers_audio
         (set_audio_fifo (AudioQueue_clear (audio_fifo m2)) m2)
  else m2.

(** [Seek(new_time)].  [response] is what [av_seek_frame] returns and
    [repositioned] where the demuxer stands after a seek that succeeded.
    [None]: the program was terminated (see [StartDecodingThread]). *)
Definition Seek (new_time : Q) (response : Z) (repositioned : list AVPacket)
    (m : Media) : option (Result * Media) :=
  if negb (IsVideoOpened m || IsAudioOpened m) then Some (Error, m)
  else
    let m1 := StopDecodingThread (Pause m) in
    let '(result, m2) :=
      if 0 <=? response
      then AdjustSeekedPosition new_time (Seek_flush repositioned m1)
      else (Error, m1) in
    match StartDecodingThread m2 with
    | Some m3 => Some (result, Play m3)
    | None => None
    end.

(** The object [AdjustSeekedPosition] starts from inside [Seek]. *)
Definition resync_start (repositioned : list AVPacket) (m : Media) : Media :=
  Seek_flush repositioned (StopDecodingThread (Pause m)).

(* ----------------------------------------------------------------- *)
(** *** [InitVideo]

    What [InitVideo()] does to the object.  Oracles: [best_stream] is the
    value of [av_find_best_stream]; [codec_ok] tells whether the calls that
    set up the decoder and the scaler all succeed; [fps_capacity] is
    [uint16_t(settings.preloaded_frames_scale * GetAverageVideoFPS())];
    [time_base] and [disposition_attached_pic] are read from the stream. *)

Definition AVERROR_STREAM_NOT_FOUND : Z := -1381258232.

Definition InitVideo (best_stream : Z) (codec_ok : bool) (fps_capacity : Z)
    (alloc_fail : option nat) (time_base : AVRational)
    (disposition_attached_pic : bool) (m : Media) : Result * Media :=
  let with_queue (q : VideoQueue) (m : Media) : Media :=
    mkMedia (demuxer m) (is_paused m) (finished_reading m) (keep_loading m)
      (frame_loader m) best_stream (video_time_base m) q
      (video_frame m) (delta_time_accumulator m) (last_video_pts m)
      (video_opened m) (attached_pic m) (audio_stream_index m)
      (audio_time_base m) (audio_fifo m) (audio_frames_consumed m)
      (audio_time m) (audio_sample_rate m) (audio_opened m) (calls m) in
  if best_stream <? 0 then
    if best_stream =? AVERROR_STREAM_NOT_FOUND
    then (Success, with_queue (video_fifo m) m)
    else (Error, with_queue (video_fifo m) m)
  else if negb codec_ok then (Error, with_queue (video_fifo m) m)
  else
    let '(result, q) :=
      if HasAlbumArt m
      then (Success, snd (VideoQueue_init 2 alloc_fail (video_fifo m)))
      else VideoQueue_init (Z.max fps_capacity 2) alloc_fail (video_fifo m) in
    match result with
    | Error => (Error, with_queue q m)
    | Success =>
        (Success,
         mkMedia (demuxer m) (is_paused m) (finished_reading m)
           (keep_loading m) (frame_loader m) best_stream time_base q
           {| created := true; pixels := [] |} 0 0
           true disposition_attached_pic (audio_stream_index m)
           (audio_time_base m) (audio_fifo m) (audio_frames_consumed m)
           (audio_time m) (audio_sample_rate m) (audio_opened m) (calls m))
    end.

(* ----------------------------------------------------------------- *)
(** *** [Close] *)

Definition CloseFile (m : Media) : Media := set_demuxer [] m.

Definition CloseVideo (m : Media) : Media :=
  let m1 := set_video_opened false (set_attached_pic false m) in
  let m2 := set_video_fifo
              (VideoQueue_free (VideoQueue_clear (video_fifo m1))) m1 in
  set_video_frame {| created := true; pixels := [] |} m2.

Definition CloseAudio (m : Media) : Media :=
  let m1 := set_audio_opened false (call ma_device_uninit m) in
  set_audio_fifo (AudioQueue_free (AudioQueue_clear (audio_fifo m1))) m1.

Definition Close (m : Media) : Media :=
  CloseAudio (CloseVideo (CloseFile (StopDecodingThread m))).

(* ----------------------------------------------------------------- *)
(** *** Output sample format, [ChooseAudioFormat] *)

Inductive AudioFormat : Type := Default | U8 | S16 | S32 | F32.

(** FFmpeg's [enum AVSampleFormat]. *)
Inductive AVSampleFormat : Type :=
| AV_SAMPLE_FMT_NONE
| AV_SAMPLE_FMT_U8 | AV_SAMPLE_FMT_S16 | AV_SAMPLE_FMT_S32
| AV_SAMPLE_FMT_FLT | AV_SAMPLE_FMT_DBL
| AV_SAMPLE_FMT_U8P | AV_SAMPLE_FMT_S16P | AV_SAMPLE_FMT_S32P
| AV_SAMPLE_FMT_FLTP | AV_SAMPLE_FMT_DBLP
| AV_SAMPLE_FMT_S64 | AV_SAMPLE_FMT_S64P
| AV_SAMPLE_FMT_NB.

(** [av_sample_fmt_is_planar] *)
Definition av_sample_fmt_is_planar (f : AVSampleFormat) : bool :=
  match f with
  | AV_SAMPLE_FMT_U8P | AV_SAMPLE_FMT_S16P | AV_SAMPLE_FMT_S32P
  | AV_SAMPLE_FMT_FLTP | AV_SAMPLE_FMT_DBLP | AV_SAMPLE_FMT_S64P => true
  | _ => false
  end.

(** [av_get_packed_sample_fmt]: the interleaved format of the same sample
    type. *)
Definition av_get_packed_sample_fmt (f : AVSampleFormat) : AVSampleFormat :=
  match f with
  | AV_SAMPLE_FMT_U8P => AV_SAMPLE_FMT_U8
  | AV_SAMPLE_FMT_S16P => AV_SAMPLE_FMT_S16
  | AV_SAMPLE_FMT_S32P => AV_SAMPLE_FMT_S32
  | AV_SAMPLE_FMT_FLTP => AV_SAMPLE_FMT_FLT
  | AV_SAMPLE_FMT_DBLP => AV_SAMPLE_FMT_DBL
  | AV_SAMPLE_FMT_S64P => AV_SAMPLE_FMT_S64
  | _ => f
  end.

(** The member [settings.audio_format] and the stream's original format
    are the inputs; the members [audio_format] and [audio_sample_size] that
    the function assigns are returned next to its result.  The source's
    [default: return Result::Error] is for values outside the enumeration,
    which the type [AudioFormat] does not have. *)
Definition ChooseAudioFormat (setting : AudioFormat) (original : AVSampleFormat)
    : Result * AVSampleFormat * Z :=
  match setting with
  | Default =>
      match original with
      | AV_SAMPLE_FMT_U8 | AV_SAMPLE_FMT_U8P => (Success, AV_SAMPLE_FMT_U8, 1)
      | AV_SAMPLE_FMT_S16 | AV_SAMPLE_FMT_S16P => (Success, AV_SAMPLE_FMT_S16, 2)
      | AV_SAMPLE_FMT_S32 | AV_SAMPLE_FMT_S32P => (Success, AV_SAMPLE_FMT_S32, 4)
      | AV_SAMPLE_FMT_FLT | AV_SAMPLE_FMT_FLTP => (Success, AV_SAMPLE_FMT_FLT, 4)
      | _ => (Success, AV_SAMPLE_FMT_FLT, 4)
      end
  | U8 => (Success, AV_SAMPLE_FMT_U8, 1)
  | S16 => (Success, AV_SAMPLE_FMT_S16, 2)
  | S32 => (Success, AV_SAMPLE_FMT_S32, 4)
  | F32 => (Success, AV_SAMPLE_FMT_FLT, 4)
  end.

Definition chosen_format (setting : AudioFormat) (original : AVSampleFormat)
    : AVSampleFormat :=
  snd (fst (ChooseAudioFormat setting original)).

(** The formats the [Default] setting keeps the sample type of. *)
Definition kept_by_default (f : AVSampleFormat) : bool :=
  match f with
  | AV_SAMPLE_FMT_U8 | AV_SAMPLE_FMT_U8P
  | AV_SAMPLE_FMT_S16 | AV_SAMPLE_FMT_S16P
  | AV_SAMPLE_FMT_S32 | AV_SAMPLE_FMT_S32P
  | AV_SAMPLE_FMT_FLT | AV_SAMPLE_FMT_FLTP => true
  | _ => false
  end.

(** The FFmpeg format a fixed setting names. *)
Definition format_of_setting (s : AudioFormat) : option AVSampleFormat :=
  match s with
  | Default => None
  | U8 => Some AV_SAMPLE_FMT_U8
  | S16 => Some AV_SAMPLE_FMT_S16
  | S32 => Some AV_SAMPLE_FMT_S32
  | F32 => Some AV_SAMPLE_FMT_FLT
  end.

(** [GetVideoFrame(delta_time)] called once per element of [dts], nothing
    else touching the object in between. *)
Fixpoint GetVideoFrame_each (dts : list Q) (m : Media)
    : option (list (option (list Z)) * Media) :=
  match dts with
  | [] => Some ([], m)
  | dt :: rest =>
      match GetVideoFrame dt m with
      | None => None
      | Some (d, m1) =>
          match GetVideoFrame_each rest m1 with
          | None => None
          | Some (ds, m2) => Some (d :: ds, m2)
          end
      end
  end.

(** The queued frames a call with reference time [ref] leaves in the queue,
    the one it presents first: the frames before it are those whose time
    stamp is below [ref].  [tb] is the video time base. *)
Fixpoint from_reference (tb : AVRational) (ref : Q) (frames : list AVFrame)
    : list AVFrame :=
  match frames with
  | [] => []
  | f :: rest =>
      if Qle_bool ref (rescale (best_effort_timestamp f) tb) then frames
      else from_reference tb ref rest
  end.

(** [p] is a packet of the open video stream that the decoder accepts and
    answers with the non-empty frame [f]. *)
Definition decodes_to_video_frame (m : Media) (f : AVFrame) (p : AVPacket)
    : Prop :=
  stream_index p = video_stream_index m
  /\ send_response p = 0
  /\ (exists r rest, received p = r :: rest /\ r_frame r = f)
  /\ pkt_size f <> -1.

(** *** Vocabulary for the re-synchronisation after a seek *)

(** [p] is routed to the audio branch of the loops. *)
Definition audio_routed (m : Media) (p : AVPacket) : bool :=
  negb (IsVideoOpened m && (stream_index p =? video_stream_index m))
  && (IsAudioOpened m && (stream_index p =? audio_stream_index m)).

(** The packet [p] with the decoded audio frames before [wanted_timepoint]
    taken out of what the decoder delivers for it. *)
Definition without_early_audio (wanted_timepoint : Q) (m : Media)
    (p : AVPacket) : AVPacket :=
  if audio_routed m p then
    {| stream_index := stream_index p;
       send_response := send_response p;
       received :=
         filter (fun r => Qle_bool wanted_timepoint
                            (CalculateAudioPts m (r_frame r)))
                (received p);
       receive_end := receive_end p |}
  else p.

(** [p] is a packet of the video stream that decodes to a non-empty frame
    at or after [wanted_timepoint]. *)
Definition video_unit_from (wanted_timepoint : Q) (m : Media) (p : AVPacket)
    : Prop :=
  stream_index p = video_stream_index m
  /\ exists r rest,
       received p = r :: rest
       /\ pkt_size (r_frame r) <> -1
       /\ (wanted_timepoint <= CalculateVideoPts m (r_frame r))%Q.

(** [p] is a packet of the audio stream one of whose decoded frames is
    non-empty and at or after [wanted_timepoint]. *)
Definition audio_unit_from (wanted_timepoint : Q) (m : Media) (p : AVPacket)
    : Prop :=
  stream_index p = audio_stream_index m
  /\ exists r,
       In r (received p)
       /\ pkt_size (r_frame r) <> -1
       /\ (wanted_timepoint <= CalculateAudioPts m (r_frame r))%Q.

(** [p] is routed to the video branch of the loops. *)
Definition video_routed (m : Media) (p : AVPacket) : bool :=
  IsVideoOpened m && (stream_index p =? video_stream_index m).

(** The audio decoder refuses the packet [p]. *)
Definition audio_packet_refused (p : AVPacket) : bool :=
  (send_response p <? 0) && negb (send_response p =? AVERROR_EAGAIN).

(** The frame the video decoder delivers for [p] when it is a packet of the
    video stream, the decoder takes it and the frame is non-empty and at or
    after [wanted_timepoint]. *)
Definition accepted_video_frame (wanted_timepoint : Q) (m : Media)
    (p : AVPacket) : option AVFrame :=
  if video_routed m p && (send_response p =? 0) then
    match received p with
    | r :: _ =>
        if negb (pkt_size (r_frame r) =? -1)
           && Qle_bool wanted_timepoint (CalculateVideoPts m (r_frame r))
        then Some (r_frame r) else None
    | [] => None
    end
  else None.

(** The blocks the audio decoder delivers for [p] that are non-empty and at
    or after [wanted_timepoint], when [p] is a packet of the audio stream
    that the decoder takes. *)
Definition accepted_audio_blocks (wanted_timepoint : Q) (m : Media)
    (p : AVPacket) : list Received :=
  if audio_routed m p && negb (audio_packet_refused p) then
    filter (fun r => negb (pkt_size (r_frame r) =? -1)
                     && Qle_bool wanted_timepoint
                          (CalculateAudioPts m (r_frame r)))
           (received p)
  else [].

(** The packet [p] yields a unit at or after [wanted_timepoint]. *)
Definition video_accepts (wanted_timepoint : Q) (m : Media) (p : AVPacket)
    : bool :=
  match accepted_video_frame wanted_timepoint m p with
  | Some _ => true
  | None => false
  end.

Definition audio_accepts (wanted_timepoint : Q) (m : Media) (p : AVPacket)
    : bool :=
  match accepted_audio_blocks wanted_timepoint m p with
  | [] => false
  | _ :: _ => true
  end.

(** Among the packets [pkts] the video stream, respectively the audio
    stream, has produced a unit at or after [wanted_timepoint]; a stream that
    is not open counts as done. *)
Definition video_reached (wanted_timepoint : Q) (m : Media)
    (pkts : list AVPacket) : bool :=
  negb (IsVideoOpened m) || existsb (video_accepts wanted_timepoint m) pkts.

Definition audio_reached (wanted_timepoint : Q) (m : Media)
    (pkts : list AVPacket) : bool :=
  negb (IsAudioOpened m) || existsb (audio_accepts wanted_timepoint m) pkts.

(** The audio clock after the blocks [blocks] have been accepted: the first
    of them sets [audio_time] to its time stamp and [audio_frames_consumed]
    to [size_t(audio_time * audio_sample_rate)]. *)
Definition resync_audio_clock (m : Media) (blocks : list Received) : Z * Q :=
  match blocks with
  | [] => (audio_frames_consumed m, audio_time m)
  | b :: _ =>
      let t := CalculateAudioPts m (r_frame b) in
      (size_t_of_double (to_double (t * double_of_Z (audio_sample_rate m))), t)
  end.

(** The function is left through the exit in which both streams have been
    found. *)
Definition regular_exit (r : Result) (video_seeked audio_seeked : bool)
    : bool :=
  match r with
  | Success => video_seeked && audio_seeked
  | Error => false
  end.

(** What one packet does to the queued frames, as a list, in a queue of
    capacity [cap]: a packet of the video stream takes out the oldest frame
    when [cap - 1] frames are queued, and its frame, when accepted, is
    appended. *)
Definition requeue (wanted_timepoint : Q) (m : Media) (cap : Z)
    (frames : list AVFrame) (p : AVPacket) : list AVFrame :=
  if video_routed m p then
    let kept := if cap - 1 =? Z.of_nat (length frames)
                then tl frames else frames in
    match accepted_video_frame wanted_timepoint m p with
    | Some f => kept ++ [f]
    | None => kept
    end
  else frames.

(** The samples of one decoded block and of what the resampler still holds
    go into the audio queue. *)
Definition push_block (q : AudioQueue) (r : Received) : AudioQueue :=
  snd (push_flushed (r_flush r) (snd (AudioQueue_push (r_resampled r) q))).

(** The state of the video queue the loop maintains: at most
    [capacity - 1] frames, none of them before the wanted time point. *)
Definition resync_queue_ok (t : Q) (tb : AVRational) (cap : Z)
    (q : VideoQueue) : Prop :=
  VideoQueue_wf q
  /\ VideoQueue_capacity q = cap
  /\ VideoQueue_size q <= cap - 1
  /\ Forall (fun f => (t <= rescale (best_effort_timestamp f) tb)%Q)
            (VideoQueue_contents q).

(** The object with everything the re-synchronisation may write blanked
    out: two objects agree on all other members when their [settled] images
    are equal. *)
Definition settled (m : Media) : Media :=
  set_demuxer []
    (set_video_fifo VideoQueue_new
       (set_audio_fifo AudioQueue_new
          (set_audio_clock 0 0
             (set_last_video_pts 0 (set_delta_time_accumulator 0 m))))).

(* ================================================================= *)
(** ** Further members *)

(** *** Producer and consumer of the video queue *)

(** The producer's side of one frame: fill the slot [back()] points to,
    then [push()]. *)
Definition VideoQueue_commit (f : AVFrame) (q : VideoQueue) : VideoQueue :=
  VideoQueue_push (VideoQueue_store_back f q).

Fixpoint VideoQueue_commit_all (fs : list AVFrame) (q : VideoQueue)
    : VideoQueue :=
  match fs with
  | [] => q
  | f :: rest => VideoQueue_commit_all rest (VideoQueue_commit f q)
  end.

(** The consumer's side, [n] times: read [front()], then [pop()]. *)
Fixpoint VideoQueue_take (n : nat) (q : VideoQueue)
    : list AVFrame * VideoQueue :=
  match n with
  | O => ([], q)
  | S k =>
      let f := VideoQueue_front q in
      let '(rest, q') := VideoQueue_take k (VideoQueue_pop q) in
      (f :: rest, q')
  end.

(** *** Clock and audio consumption *)

Definition GetCurrentPlaybackTime (m : Media) : Q :=
  if IsVideoOpened m then last_video_pts m
  else if IsAudioOpened m then audio_time m
  else 0.

(** [double(audio_frames_consumed) / double(audio_sample_rate)], for a
    sample rate other than 0 (with 0 the quotient is not finite). *)
Definition audio_clock (consumed sample_rate : Z) : Q :=
  to_double (double_of_Z consumed / double_of_Z sample_rate).

(** [GetAudioFrame(output, sample_count)].  [output_valid] tells whether
    [output] and [*output] are non-null.  Returned are the function's value,
    the contents of the output buffer ([None]: not written; one element is
    one sample of all channels, [0] is silence) and the object. *)
Definition GetAudioFrame (output_valid : bool) (sample_count : Z) (m : Media)
    : Z * option (list Z) * Media :=
  if negb output_valid || (sample_count <? 0) then (-1, None, m)
  else
    let silence := repeat 0 (Z.to_nat sample_count) in
    let '(read, q) := AudioQueue_pop (Z.to_nat sample_count) (audio_fifo m) in
    let buffer := read ++ skipn (length read) silence in
    let samples_read := Z.of_nat (length read) in
    let m1 := set_audio_fifo q m in
    if samples_read <? 0 then (-1, Some buffer, m1)
    else
      let consumed := usize (audio_frames_consumed m1 + samples_read) in
      (samples_read, Some buffer,
       set_audio_clock consumed
         (audio_clock consumed (audio_sample_rate m1)) m1).

(** The FIFO of an audio queue, when it has one, holds no more than it is
    allocated for. *)
Definition AudioQueue_ok (q : AudioQueue) : Prop :=
  match _fifo q with
  | Some f => fifo_ok f
  | None => True
  end.

(** *** Volume

    The member [audio_volume] is passed next to the object; [SetAudioVolume]
    returns its new value, which is also what the audio device is given. *)
Definition SetAudioVolume (new_volume : Q) (m : Media) (audio_volume : Q) : Q :=
  if negb (IsAudioOpened m) then audio_volume
  else if Qlt_bool new_volume 0 then 0
  else if Qlt_bool 1 new_volume then 1
  else new_volume.

Definition GetAudioVolume (m : Media) (audio_volume : Q) : Q :=
  if negb (IsAudioOpened m) then 0 else audio_volume.

(** *** Pixel formats, [CorrectDeprecatedPixelFormat] *)

(** The pixel formats the function names; [AV_PIX_FMT_other] stands for
    every other enumerator of FFmpeg's [enum AVPixelFormat]. *)
Inductive AVPixelFormat : Type :=
| AV_PIX_FMT_YUV420P | AV_PIX_FMT_YUV422P
| AV_PIX_FMT_YUV444P | AV_PIX_FMT_YUV440P
| AV_PIX_FMT_YUVJ420P | AV_PIX_FMT_YUVJ422P
| AV_PIX_FMT_YUVJ444P | AV_PIX_FMT_YUVJ440P
| AV_PIX_FMT_other (id : Z).

Definition CorrectDeprecatedPixelFormat (pix_fmt : AVPixelFormat)
    : AVPixelFormat :=
  match pix_fmt with
  | AV_PIX_FMT_YUVJ420P => AV_PIX_FMT_YUV420P
  | AV_PIX_FMT_YUVJ422P => AV_PIX_FMT_YUV422P
  | AV_PIX_FMT_YUVJ444P => AV_PIX_FMT_YUV444P
  | AV_PIX_FMT_YUVJ440P => AV_PIX_FMT_YUV440P
  | _ => pix_fmt
  end.

(** The deprecated full-range formats. *)
Definition is_yuvj (pix_fmt : AVPixelFormat) : bool :=
  match pix_fmt with
  | AV_PIX_FMT_YUVJ420P | AV_PIX_FMT_YUVJ422P
  | AV_PIX_FMT_YUVJ444P | AV_PIX_FMT_YUVJ440P => true
  | _ => false
  end.

(** *** Opening: [InitialiseAndStartMiniaudio], [InitAudio], [Open] *)

Inductive ma_format : Type :=
| ma_format_u8 | ma_format_s16 | ma_format_s32 | ma_format_f32.

(** The [switch (audio_format)] of [InitialiseAndStartMiniaudio]; [None] is
    its [default: return Result::Error]. *)
Definition playback_format (audio_format : AVSampleFormat) : option ma_format :=
  match audio_format with
  | AV_SAMPLE_FMT_U8 => Some ma_format_u8
  | AV_SAMPLE_FMT_S16 => Some ma_format_s16
  | AV_SAMPLE_FMT_S32 => Some ma_format_s32
  | AV_SAMPLE_FMT_FLT => Some ma_format_f32
  | _ => None
  end.

(** [av_get_bytes_per_sample] *)
Definition av_get_bytes_per_sample (f : AVSampleFormat) : Z :=
  match f with
  | AV_SAMPLE_FMT_U8 | AV_SAMPLE_FMT_U8P => 1
  | AV_SAMPLE_FMT_S16 | AV_SAMPLE_FMT_S16P => 2
  | AV_SAMPLE_FMT_S32 | AV_SAMPLE_FMT_S32P => 4
  | AV_SAMPLE_FMT_FLT | AV_SAMPLE_FMT_FLTP => 4
  | AV_SAMPLE_FMT_DBL | AV_SAMPLE_FMT_DBLP => 8
  | AV_SAMPLE_FMT_S64 | AV_SAMPLE_FMT_S64P => 8
  | AV_SAMPLE_FMT_NONE | AV_SAMPLE_FMT_NB => 0
  end.

(** [InitialiseAndStartMiniaudio()] in the default build (the library plays
    the audio itself).  [device_init_ok] and [device_start_ok] tell whether
    [ma_device_init] and [ma_device_start] return [MA_SUCCESS]. *)
Definition InitialiseAndStartMiniaudio (audio_format : AVSampleFormat)
    (device_init_ok device_start_ok : bool) (m : Media) : Result * Media :=
  match playback_format audio_format with
  | None => (Error, m)
  | Some _ =>
      if negb device_init_ok then (Error, m)
      else
        let m1 := call ma_device_start m in
        if negb device_start_ok then (Error, m1) else (Success, m1)
  end.

(** [Settings] *)
Record Settings : Type := mkSettings {
  preloaded_frames_scale : Z;          (* [uint8_t] *)
  audio_format_setting : AudioFormat
}.

(** What FFmpeg and the audio device answer while [InitAudio()] runs:
    [audio_best_stream] is the value of [av_find_best_stream],
    [audio_codec_ok] tells whether the decoder is set up, [resampler_ok]
    whether [swr_alloc_set_opts] returns a context, [fifo_alloc_ok] whether
    [av_audio_fifo_alloc] returns a FIFO; the other fields are read from the
    stream's codec parameters. *)
Record AudioStream : Type := mkAudioStream {
  audio_best_stream : Z;
  audio_codec_ok : bool;
  original_format : AVSampleFormat;
  resampler_ok : bool;
  stream_time_base : AVRational;
  channels : Z;
  sample_rate : Z;
  fifo_alloc_ok : bool;
  device_init_ok : bool;
  device_start_ok : bool
}.

Definition InitAudio (settings : Settings) (a : AudioStream) (m : Media)
    : Result * Media :=
  let found (m : Media) : Media :=
    mkMedia (demuxer m) (is_paused m) (finished_reading m) (keep_loading m)
      (frame_loader m) (video_stream_index m) (video_time_base m)
      (video_fifo m) (video_frame m) (delta_time_accumulator m)
      (last_video_pts m) (video_opened m) (attached_pic m)
      (audio_best_stream a)
      (audio_time_base m) (audio_fifo m) (audio_frames_consumed m)
      (audio_time m) (audio_sample_rate m) (audio_opened m) (calls m) in
  let m1 := found m in
  if audio_best_stream a <? 0 then
    if audio_best_stream a =? AVERROR_STREAM_NOT_FOUND
    then (Success, m1) else (Error, m1)
  else if negb (audio_codec_ok a) then (Error, m1)
  else
    match ChooseAudioFormat (audio_format_setting settings)
            (original_format a) with
    | (Error, _, _) => (Error, m1)
    | (Success, audio_format, _) =>
        if negb (resampler_ok a) then (Error, m1)
        else
          let m2 :=
            mkMedia (demuxer m1) (is_paused m1) (finished_reading m1)
              (keep_loading m1) (frame_loader m1) (video_stream_index m1)
              (video_time_base m1) (video_fifo m1) (video_frame m1)
              (delta_time_accumulator m1) (last_video_pts m1)
              (video_opened m1) (attached_pic m1) (audio_stream_index m1)
              (stream_time_base a) (audio_fifo m1) 0 0 (sample_rate a)
              (audio_opened m1) (calls m1) in
          match AudioQueue_init (channels a)
                  (preloaded_frames_scale settings * sample_rate a)
                  (fifo_alloc_ok a) (audio_fifo m2) with
          | (Error, q) => (Error, set_audio_fifo q m2)
          | (Success, q) =>
              match InitialiseAndStartMiniaudio audio_format
                      (device_init_ok a) (device_start_ok a)
                      (set_audio_fifo q m2) with
              | (Error, m3) => (Error, m3)
              | (Success, m3) => (Success, set_audio_opened true m3)
              end
          end
    end.

(** [ApplySettings()] *)
Definition ApplySettings (settings : Settings) : Result :=
  if 0 <? preloaded_frames_scale settings then Success else Error.

(** [OpenFile(filename)]: [file_ok] tells whether the file is found, opened
    and probed; [packets] is what its demuxer will deliver. *)
Definition OpenFile (file_ok : bool) (packets : list AVPacket) (m : Media)
    : Result * Media :=
  if file_ok then (Success, set_demuxer packets m) else (Error, m).

(** What FFmpeg answers while [InitVideo()] runs (see [InitVideo]);
    [average_fps] is the [double] that [GetAverageVideoFPS()] returns. *)
Record VideoStream : Type := mkVideoStream {
  video_best_stream : Z;
  video_codec_ok : bool;
  average_fps : Q;
  frame_alloc_fail : option nat;
  video_stream_time_base : AVRational;
  disposition_attached_pic : bool
}.

(** [uint16_t(settings.preloaded_frames_scale * GetAverageVideoFPS())] *)
Definition fps_capacity (settings : Settings) (v : VideoStream) : Z :=
  uint16_of_double
    (to_double (double_of_Z (preloaded_frames_scale settings)
                * average_fps v)).

(** [Open(filename, open_video, open_audio, playback_settings)].  The member
    [settings] is passed next to the object and returned; [playback_settings]
    is [None] for [nullptr].  The result [None]: the program was terminated
    (see [StartDecodingThread]). *)
Definition Open (file_ok : bool) (packets : list AVPacket)
    (v : VideoStream) (a : AudioStream)
    (open_video open_audio : bool) (playback_settings : option Settings)
    (settings : Settings) (m : Media) : option (Result * Settings * Media) :=
  let settings1 := match playback_settings with
                   | Some s => s
                   | None => settings
                   end in
  match ApplySettings settings1 with
  | Error => Some (Error, settings1, m)
  | Success =>
      let m1 := if IsVideoOpened m || IsAudioOpened m then Close m else m in
      match OpenFile file_ok packets m1 with
      | (Error, m2) => Some (Error, settings1, m2)
      | (Success, m2) =>
          let m3 := set_is_paused false m2 in
          let '(result_v, m4) :=
            if open_video then
              InitVideo (video_best_stream v) (video_codec_ok v)
                (fps_capacity settings1 v)
                (frame_alloc_fail v) (video_stream_time_base v)
                (disposition_attached_pic v) m3
            else (Success, m3) in
          match result_v with
          | Error => Some (Error, settings1, m4)
          | Success =>
              let '(result_a, m5) :=
                if open_audio then InitAudio settings1 a m4
                else (Success, m4) in
              match result_a with
              | Error => Some (Error, settings1, m5)
              | Success =>
                  match StartDecodingThread m5 with
                  | Some m6 => Some (Success, settings1, m6)
                  | None => None
                  end
              end
          end
      end
  end.

(** *** Vocabulary for the worker *)

(** The state of the video queue the worker maintains: at most [max]
    frames, none of them empty. *)
Definition worker_queue_ok (max : Z) (q : VideoQueue) : Prop :=
  VideoQueue_wf q
  /\ 1 <= max < VideoQueue_capacity q
  /\ VideoQueue_size q <= max
  /\ Forall (fun f => pkt_size f <> -1) (VideoQueue_contents q).

(** The [max_video_queue_size] and the two low-water marks [DecodingThread]
    computes. *)
Definition worker_max_video (m : Media) : Z :=
  if HasAlbumArt m then 1
  else usize (VideoQueue_capacity (video_fifo m) - 1).



(** What [avcodec_receive_frame] leaves in the slot [back()] points to while
    the worker handles the video packet [p]. *)
Definition decoded_frame (p : AVPacket) : AVFrame :=
  match received p with
  | r :: _ => r_frame r
  | [] => frame_defaults
  end.

(** The object with everything the worker may write blanked out. *)
Definition idle (m : Media) : Media :=
  set_demuxer []
    (set_video_fifo VideoQueue_new
       (set_audio_fifo AudioQueue_new (set_finished_reading false m))).

(* ================================================================= *)
(** * Properties *)

(** ** Arithmetic of the ring cursors *)

Lemma u16_small : forall z, 0 <= z < 65536 -> u16 z = z.
Proof. intros z H. unfold u16. apply Z.mod_small. exact H. Qed.

Section RingCursor.

Variable cap : Z.
Hypothesis cap_pos : 0 < cap.

Lemma mod_wrap_once :
  forall a, cap <= a < 2 * cap -> a mod cap = a - cap.
Proof.
  intros a Ha.
  replace a with ((a - cap) + 1 * cap) at 1 by ring.
  rewrite Z_mod_plus_full. apply Z.mod_small. lia.
Qed.

Lemma cursor_shift_ne :
  forall d k, 0 <= d < cap -> 0 < k < cap -> (d + k) mod cap <> d.
Proof.
  intros d k Hd Hk.
  destruct (Z_lt_ge_dec (d + k) cap) as [Hlt | Hge].
  - rewrite Z.mod_small by lia. lia.
  - rewrite mod_wrap_once by lia. lia.
Qed.

Lemma cursor_shift_inj :
  forall d j k,
    0 <= d < cap -> 0 <= j < k -> k < cap ->
    (d + j) mod cap <> (d + k) mod cap.
Proof.
  intros d j k Hd Hj Hk Heq.
  destruct (Z_lt_ge_dec (d + j) cap) as [Hj1 | Hj1];
    destruct (Z_lt_ge_dec (d + k) cap) as [Hk1 | Hk1].
  - rewrite !Z.mod_small in Heq by lia. lia.
  - rewrite Z.mod_small in Heq by lia.
    rewrite (mod_wrap_once (a := d + k)) in Heq by lia. lia.
  - lia.
  - rewrite !mod_wrap_once in Heq by lia. lia.
Qed.

Lemma cursor_next_range : forall d, 0 <= (d + 1) mod cap < cap.
Proof. intros d. apply Z.mod_pos_bound. exact cap_pos. Qed.

End RingCursor.

(** ** Slots and slices *)

Lemma set_nth_length :
  forall (A : Type) (l : list A) n x, length (set_nth n x l) = length l.
Proof.
  induction l as [| h t IH]; intros [| n] x; simpl; auto.
Qed.

Lemma nth_set_nth_same :
  forall (A : Type) (l : list A) n x dflt,
    (n < length l)%nat -> nth n (set_nth n x l) dflt = x.
Proof.
  induction l as [| h t IH]; intros [| n] x dflt Hn; simpl in *;
    try lia; auto.
  apply IH. lia.
Qed.

Lemma nth_set_nth_other :
  forall (A : Type) (l : list A) n k x dflt,
    n <> k -> nth k (set_nth n x l) dflt = nth k l dflt.
Proof.
  induction l as [| h t IH]; intros [| n] [| k] x dflt Hne; simpl;
    try reflexivity; try congruence.
  apply IH. congruence.
Qed.

Lemma ring_slice_length :
  forall d cap n s, length (ring_slice d cap s n) = n.
Proof.
  intros d cap n. induction n as [| n IH]; intros s; simpl; auto.
Qed.

Lemma ring_slice_set_nth :
  forall d cap x i n s,
    0 < cap -> 0 <= s < cap -> 0 <= i ->
    (forall j, 0 <= j < Z.of_nat n -> (s + j) mod cap <> i) ->
    ring_slice (set_nth (Z.to_nat i) x d) cap s n = ring_slice d cap s n.
Proof.
  intros d cap x i n. induction n as [| n IH]; intros s Hc Hs Hi Hfree.
  - reflexivity.
  - simpl. f_equal.
    + apply nth_set_nth_other.
      specialize (Hfree 0). rewrite Z.add_0_r, Z.mod_small in Hfree by lia.
      intro Heq. apply Hfree; [lia |]. lia.
    + apply IH; auto using cursor_next_range.
      intros j Hj. rewrite Zplus_mod_idemp_l.
      replace (s + 1 + j) with (s + (j + 1)) by ring.
      apply Hfree. lia.
Qed.

Lemma ring_slice_snoc :
  forall d cap n s,
    0 < cap -> 0 <= s < cap ->
    ring_slice d cap s (S n)
    = ring_slice d cap s n
      ++ [nth (Z.to_nat ((s + Z.of_nat n) mod cap)) d frame_defaults].
Proof.
  intros d cap n. induction n as [| n IH]; intros s Hc Hs.
  - simpl. rewrite Z.add_0_r, Z.mod_small by lia. reflexivity.
  - change (ring_slice d cap s (S (S n)))
      with (nth (Z.to_nat s) d frame_defaults
            :: ring_slice d cap ((s + 1) mod cap) (S n)).
    rewrite IH by auto using cursor_next_range.
    simpl. rewrite Zplus_mod_idemp_l.
    replace (s + 1 + Z.of_nat n) with (s + Z.of_nat (S n)) by lia.
    reflexivity.
Qed.

(** ** The video queue as a list of frames *)

(** Consistency of a queue that is given in full is settled by
    computation. *)
Ltac queue_wf_by_computation :=
  eexists; split;
  [vm_compute; reflexivity | vm_compute; intuition discriminate].

Lemma VideoQueue_contents_length :
  forall q, VideoQueue_wf q ->
    Z.of_nat (length (VideoQueue_contents q)) = VideoQueue_size q.
Proof.
  intros q (d & Hd & _ & _ & Hs & _).
  unfold VideoQueue_contents, VideoQueue_size. rewrite Hd.
  rewrite ring_slice_length. lia.
Qed.

Lemma VideoQueue_contents_empty :
  forall q, VideoQueue_size q = 0 -> VideoQueue_contents q = [].
Proof.
  intros q Hs. unfold VideoQueue_contents, VideoQueue_size in *.
  rewrite Hs. destruct (_data q); reflexivity.
Qed.

Lemma VideoQueue_pop_empty :
  forall q, VideoQueue_size q = 0 -> VideoQueue_pop q = q.
Proof.
  intros q Hs. unfold VideoQueue_pop, VideoQueue_size in *.
  rewrite Hs. reflexivity.
Qed.

Lemma VideoQueue_pop_wf :
  forall q, VideoQueue_wf q -> VideoQueue_wf (VideoQueue_pop q).
Proof.
  intros q Hwf. unfold VideoQueue_pop.
  destruct (0 <? _size q) eqn:Hpos; [| exact Hwf].
  apply Z.ltb_lt in Hpos.
  destruct Hwf as (d & Hd & Hlen & Hcap & Hs & Hdel & Hins).
  exists (set_nth (Z.to_nat (_delete_idx q))
                  (av_frame_unref (VideoQueue_front q)) d).
  simpl. rewrite Hd. simpl.
  assert (Hnext : 0 <= (_delete_idx q + 1) mod _capacity q < _capacity q)
    by (apply Z.mod_pos_bound; lia).
  rewrite set_nth_length, !u16_small by lia.
  repeat split; try lia.
  rewrite Hins, Zplus_mod_idemp_l. f_equal. ring.
Qed.

Lemma VideoQueue_front_pop :
  forall q, VideoQueue_wf q -> 0 < VideoQueue_size q ->
    VideoQueue_contents q
    = VideoQueue_front q :: VideoQueue_contents (VideoQueue_pop q).
Proof.
  intros q (d & Hd & Hlen & Hcap & Hs & Hdel & Hins) Hpos.
  unfold VideoQueue_size in Hpos.
  unfold VideoQueue_contents, VideoQueue_pop, VideoQueue_front,
    VideoQueue_slot.
  apply Z.ltb_lt in Hpos as Hb. rewrite Hb. simpl. rewrite Hd. simpl.
  assert (Hnext : 0 <= (_delete_idx q + 1) mod _capacity q < _capacity q)
    by (apply Z.mod_pos_bound; lia).
  rewrite !u16_small by lia.
  replace (Z.to_nat (_size q)) with (S (Z.to_nat (_size q - 1))) by lia.
  simpl. f_equal.
  symmetry. apply ring_slice_set_nth; try lia.
  intros j Hj. rewrite Zplus_mod_idemp_l.
  replace (_delete_idx q + 1 + j) with (_delete_idx q + (j + 1)) by ring.
  apply cursor_shift_ne; lia.
Qed.

Lemma VideoQueue_pop_size :
  forall q, VideoQueue_wf q -> 0 < VideoQueue_size q ->
    VideoQueue_size (VideoQueue_pop q) = VideoQueue_size q - 1.
Proof.
  intros q (d & Hd & Hlen & Hcap & Hs & Hdel & Hins) Hpos.
  unfold VideoQueue_size in *. unfold VideoQueue_pop.
  apply Z.ltb_lt in Hpos as Hb. rewrite Hb. simpl.
  apply u16_small. lia.
Qed.

Lemma VideoQueue_pop_capacity :
  forall q, VideoQueue_capacity (VideoQueue_pop q) = VideoQueue_capacity q.
Proof.
  intros q. unfold VideoQueue_pop, VideoQueue_capacity.
  destruct (0 <? _size q); reflexivity.
Qed.

Lemma VideoQueue_pop_contents :
  forall q, VideoQueue_wf q ->
    VideoQueue_contents (VideoQueue_pop q) = tl (VideoQueue_contents q).
Proof.
  intros q Hwf.
  destruct (Z_lt_ge_dec 0 (VideoQueue_size q)) as [Hpos | Hz].
  - rewrite (VideoQueue_front_pop Hwf Hpos). reflexivity.
  - assert (Hs : VideoQueue_size q = 0).
    { destruct Hwf as (d & _ & _ & _ & Hs & _).
      unfold VideoQueue_size in *. lia. }
    rewrite VideoQueue_pop_empty, VideoQueue_contents_empty by exact Hs.
    reflexivity.
Qed.

Lemma VideoQueue_store_back_wf :
  forall f q, VideoQueue_wf q -> VideoQueue_wf (VideoQueue_store_back f q).
Proof.
  intros f q (d & Hd & Hlen & Hcap & Hs & Hdel & Hins).
  exists (set_nth (Z.to_nat (_insert_idx q)) f d).
  simpl. rewrite Hd, set_nth_length. simpl. repeat split; try lia; auto.
Qed.

Lemma VideoQueue_store_back_back :
  forall f q, VideoQueue_wf q ->
    VideoQueue_back (VideoQueue_store_back f q) = f.
Proof.
  intros f q (d & Hd & Hlen & Hcap & Hs & Hdel & Hins).
  unfold VideoQueue_back, VideoQueue_slot, VideoQueue_store_back. simpl.
  rewrite Hd. simpl. apply nth_set_nth_same.
  assert (0 <= _insert_idx q < _capacity q)
    by (rewrite Hins; apply Z.mod_pos_bound; lia).
  lia.
Qed.

Lemma VideoQueue_store_back_contents :
  forall f q, VideoQueue_wf q -> VideoQueue_size q < VideoQueue_capacity q ->
    VideoQueue_contents (VideoQueue_store_back f q) = VideoQueue_contents q.
Proof.
  intros f q (d & Hd & Hlen & Hcap & Hs & Hdel & Hins) Hfree.
  unfold VideoQueue_size, VideoQueue_capacity in Hfree.
  unfold VideoQueue_contents, VideoQueue_store_back. simpl.
  rewrite Hd. simpl.
  apply ring_slice_set_nth; try lia.
  - rewrite Hins. apply Z.mod_pos_bound. lia.
  - intros j Hj. rewrite Hins. apply cursor_shift_inj; lia.
Qed.

Lemma VideoQueue_push_wf :
  forall q, VideoQueue_wf q -> VideoQueue_size q < VideoQueue_capacity q ->
    VideoQueue_wf (VideoQueue_push q).
Proof.
  intros q (d & Hd & Hlen & Hcap & Hs & Hdel & Hins) Hfree.
  unfold VideoQueue_size, VideoQueue_capacity in Hfree.
  exists d. simpl.
  assert (Hnext : 0 <= (_insert_idx q + 1) mod _capacity q < _capacity q)
    by (apply Z.mod_pos_bound; lia).
  rewrite !u16_small by lia.
  repeat split; try lia; auto.
  rewrite Hins, Zplus_mod_idemp_l. f_equal. ring.
Qed.

Lemma VideoQueue_push_contents :
  forall q, VideoQueue_wf q -> VideoQueue_size q < VideoQueue_capacity q ->
    VideoQueue_contents (VideoQueue_push q)
    = VideoQueue_contents q ++ [VideoQueue_back q].
Proof.
  intros q (d & Hd & Hlen & Hcap & Hs & Hdel & Hins) Hfree.
  unfold VideoQueue_size, VideoQueue_capacity in Hfree.
  unfold VideoQueue_contents, VideoQueue_push, VideoQueue_back,
    VideoQueue_slot. simpl. rewrite Hd.
  rewrite u16_small by lia.
  replace (Z.to_nat (_size q + 1)) with (S (Z.to_nat (_size q))) by lia.
  rewrite ring_slice_snoc by lia.
  rewrite Z2Nat.id by lia. rewrite Hins. reflexivity.
Qed.

Lemma VideoQueue_push_size :
  forall q, VideoQueue_wf q -> VideoQueue_size q < VideoQueue_capacity q ->
    VideoQueue_size (VideoQueue_push q) = VideoQueue_size q + 1.
Proof.
  intros q (d & Hd & Hlen & Hcap & Hs & Hdel & Hins) Hfree.
  unfold VideoQueue_size, VideoQueue_capacity in *. simpl.
  apply u16_small. lia.
Qed.

Lemma VideoQueue_init_wf :
  forall capacity alloc_fail q0 q,
    0 <= capacity < 65536 ->
    VideoQueue_init capacity alloc_fail q0 = (Success, q) ->
    VideoQueue_wf q /\ VideoQueue_size q = 0
    /\ VideoQueue_capacity q = capacity.
Proof.
  intros capacity alloc_fail q0 q Hrange Hinit.
  unfold VideoQueue_init in Hinit.
  destruct (capacity <=? 1) eqn:Hc; [discriminate |].
  apply Z.leb_gt in Hc.
  assert (Hq : q = {| _size := 0; _capacity := capacity; _insert_idx := 0;
                      _delete_idx := 0;
                      _data := Some (repeat frame_defaults
                                            (Z.to_nat capacity)) |}).
  { destruct alloc_fail as [i |].
    - destruct (i <? Z.to_nat capacity)%nat; congruence.
    - congruence. }
  subst q. repeat split.
  exists (repeat frame_defaults (Z.to_nat capacity)). simpl.
  rewrite repeat_length, Z.mod_small by lia.
  repeat split; lia.
Qed.

(* ================================================================= *)
(** ** Video queue: size against capacity *)

Lemma apply_ops_guarded_wf :
  forall ops q,
    VideoQueue_wf q -> pushes_guarded ops q = true ->
    VideoQueue_wf (apply_ops ops q).
Proof.
  induction ops as [| o rest IH]; intros q Hwf Hg; simpl in *.
  - exact Hwf.
  - apply andb_prop in Hg as [Ho Hrest].
    apply IH; [| exact Hrest].
    destruct o; simpl.
    + apply VideoQueue_push_wf; [exact Hwf |]. apply Z.ltb_lt. exact Ho.
    + apply VideoQueue_pop_wf. exact Hwf.
Qed.

Lemma VideoQueue_wf_size_le_capacity :
  forall q, VideoQueue_wf q -> VideoQueue_size q <= VideoQueue_capacity q.
Proof.
  intros q (d & _ & _ & _ & Hs & _).
  unfold VideoQueue_size, VideoQueue_capacity. lia.
Qed.

(** C2, counterexample.  [push()] itself has no guard: three pushes into a
    freshly initialised queue of capacity 2 leave [size() = 3]. *)
Lemma VideoQueue_unguarded_push_exceeds_capacity :
  exists q,
    VideoQueue_init 2 None VideoQueue_new = (Success, q)
    /\ VideoQueue_capacity (apply_ops [OpPush; OpPush; OpPush] q)
       < VideoQueue_size (apply_ops [OpPush; OpPush; OpPush] q).
Proof.
  eexists. split; [reflexivity |]. vm_compute. reflexivity.
Qed.

(** C2 (amended).  Starting from a successfully initialised queue, every
    sequence of [push()] and [pop()] in which [push()] is only called while
    [size() < capacity()] keeps [size() <= capacity()]; and [pop()] on an
    empty queue changes nothing (size and both cursors included). *)
Theorem VideoQueue_guarded_size_within_capacity :
  forall capacity alloc_fail q0 q ops,
    0 <= capacity < 65536 ->
    VideoQueue_init capacity alloc_fail q0 = (Success, q) ->
    pushes_guarded ops q = true ->
    VideoQueue_size (apply_ops ops q) <= VideoQueue_capacity (apply_ops ops q)
    /\ (VideoQueue_size (apply_ops ops q) = 0 ->
        VideoQueue_pop (apply_ops ops q) = apply_ops ops q).
Proof.
  intros capacity alloc_fail q0 q ops Hrange Hinit Hg.
  destruct (VideoQueue_init_wf _ _ Hrange Hinit) as (Hwf & _ & _).
  split.
  - apply VideoQueue_wf_size_le_capacity.
    apply apply_ops_guarded_wf; assumption.
  - apply VideoQueue_pop_empty.
Qed.

Lemma VideoQueue_guarded_size_within_capacity_witness :
  let q := snd (VideoQueue_init 2 None VideoQueue_new) in
  let ops := [OpPush; OpPop; OpPop; OpPush; OpPush; OpPop] in
  VideoQueue_size (apply_ops ops q) <= VideoQueue_capacity (apply_ops ops q)
  /\ (VideoQueue_size (apply_ops ops q) = 0 ->
      VideoQueue_pop (apply_ops ops q) = apply_ops ops q).
Proof.
  apply (@VideoQueue_guarded_size_within_capacity 2 None VideoQueue_new).
  - lia.
  - reflexivity.
  - reflexivity.
Defined.

(* ================================================================= *)
(** ** Audio queue: overflowing pushes *)

Lemma drain_for_push_samples :
  forall samples f,
    fifo_samples (drain_for_push samples f)
    = skipn (if (av_audio_fifo_space f <? samples)%nat
             then Nat.min (av_audio_fifo_size f)
                          (samples - av_audio_fifo_space f)
             else 0%nat)
            (fifo_samples f).
Proof.
  intros samples f. unfold drain_for_push.
  destruct (av_audio_fifo_space f <? samples)%nat; simpl.
  - rewrite Nat.min_l by apply Nat.le_min_l. reflexivity.
  - reflexivity.
Qed.

(** C4, counterexample.  1500 samples pushed into a FIFO allocated for 1000
    that holds 600: the drain removes the 600 stored samples, which leaves
    room for 1000 only; the room for the write comes from the FIFO being
    enlarged, not from the drain. *)
Lemma AudioQueue_push_drain_not_enough :
  let f := {| fifo_samples := repeat 7 600; allocated_samples := 1000 |} in
  let data := repeat 9 1500 in
  let q := {| _fifo := Some f |} in
  (av_audio_fifo_space f < length data)%nat
  /\ (av_audio_fifo_space (drain_for_push (length data) f) < length data)%nat
  /\ AudioQueue_samples (snd (AudioQueue_push data q)) = data
  /\ AudioQueue_capacity (snd (AudioQueue_push data q)) <> AudioQueue_capacity q.
Proof.
  intros f data q. split; [| split; [| split]].
  - apply Nat.ltb_lt. vm_compute. reflexivity.
  - apply Nat.ltb_lt. vm_compute. reflexivity.
  - vm_compute. reflexivity.
  - apply Nat.eqb_neq. vm_compute. reflexivity.
Qed.

Lemma AudioQueue_push_allocated :
  forall f data,
    AudioQueue_push data {| _fifo := Some f |}
    = (length data,
       {| _fifo :=
            Some {| fifo_samples :=
                      fifo_samples (drain_for_push (length data) f) ++ data;
                    allocated_samples :=
                      if (av_audio_fifo_space (drain_for_push (length data) f)
                            <? length data)%nat
                      then (2 * (av_audio_fifo_size
                                   (drain_for_push (length data) f)
                                 + length data))%nat
                      else allocated_samples
                             (drain_for_push (length data) f) |} |}).
Proof. reflexivity. Qed.

Lemma drain_for_push_allocated :
  forall samples f,
    allocated_samples (drain_for_push samples f) = allocated_samples f.
Proof.
  intros samples f. unfold drain_for_push.
  destruct (av_audio_fifo_space f <? samples)%nat; reflexivity.
Qed.

Lemma drain_for_push_size :
  forall samples f,
    av_audio_fifo_size (drain_for_push samples f)
    = (av_audio_fifo_size f
       - (if (av_audio_fifo_space f <? samples)%nat
          then Nat.min (av_audio_fifo_size f)
                       (samples - av_audio_fifo_space f)
          else 0))%nat.
Proof.
  intros samples f. unfold av_audio_fifo_size at 1.
  rewrite drain_for_push_samples, length_skipn. reflexivity.
Qed.

(** The general shape of an overflowing push. *)
Lemma AudioQueue_push_overflow_general :
  forall f data,
    fifo_ok f ->
    (av_audio_fifo_space f < length data)%nat ->
    let q := {| _fifo := Some f |} in
    let q' := snd (AudioQueue_push data q) in
    let drained := Nat.min (av_audio_fifo_size f)
                           (length data - av_audio_fifo_space f) in
    fst (AudioQueue_push data q) = length data
    /\ AudioQueue_samples q' = skipn drained (fifo_samples f) ++ data
    /\ (AudioQueue_size q' <= AudioQueue_capacity q')%nat
    /\ ((length data <= AudioQueue_capacity q)%nat ->
        drained = (length data - av_audio_fifo_space f)%nat
        /\ av_audio_fifo_space (drain_for_push (length data) f) = length data
        /\ AudioQueue_capacity q' = AudioQueue_capacity q
        /\ AudioQueue_size q' = AudioQueue_capacity q).
Proof.
  intros f data Hok Hover q q' drained. subst q q'.
  rewrite AudioQueue_push_allocated. cbn [fst snd].
  unfold AudioQueue_samples, AudioQueue_size, AudioQueue_capacity.
  cbn [_fifo].
  pose proof (drain_for_push_samples (length data) f) as Hs1.
  pose proof (drain_for_push_allocated (length data) f) as Ha1.
  apply Nat.ltb_lt in Hover as Hb. rewrite Hb in Hs1. fold drained in Hs1.
  set (f1 := drain_for_push (length data) f) in *.
  unfold fifo_ok, av_audio_fifo_space, av_audio_fifo_size in *.
  cbn [fifo_samples allocated_samples].
  rewrite Hs1, Ha1, !length_app, !length_skipn.
  split; [reflexivity |]. split; [reflexivity |]. split; [lia |].
  intros Hfit.
  assert (Hroom : (allocated_samples f
                   - (length (fifo_samples f) - drained))%nat = length data)
    by (subst drained; lia).
  rewrite Hroom, Nat.ltb_irrefl.
  subst drained. repeat split; lia.
Qed.

Lemma AudioQueue_push_fits :
  forall f data,
    (length data <= av_audio_fifo_space f)%nat ->
    snd (AudioQueue_push data {| _fifo := Some f |})
    = {| _fifo := Some {| fifo_samples := fifo_samples f ++ data;
                          allocated_samples := allocated_samples f |} |}.
Proof.
  intros f data Hfit. rewrite AudioQueue_push_allocated. cbn [snd].
  assert (Hd : drain_for_push (length data) f = f).
  { unfold drain_for_push.
    apply Nat.ltb_ge in Hfit. rewrite Hfit. reflexivity. }
  rewrite Hd. apply Nat.ltb_ge in Hfit. rewrite Hfit. reflexivity.
Qed.

(** C4 (amended).  A push of more samples than there is free space first
    drains [min(size, samples - space)] of the oldest stored samples and
    then appends all new ones, so that [size() <= capacity()] afterwards.
    Whenever the pushed samples fit the capacity, that drain is exactly what
    makes room for them and the queue ends up full with its capacity
    unchanged (otherwise everything stored is drained and the write enlarges
    the FIFO).  In particular, 600 and then 600 more samples pushed into a
    queue of capacity 1000 leave the last 400 samples of the first batch
    followed by the second batch. *)
Theorem AudioQueue_push_drops_oldest :
  forall f data channels batch1 batch2,
    fifo_ok f ->
    (av_audio_fifo_space f < length data)%nat ->
    channels <> 0 ->
    length batch1 = 600%nat ->
    length batch2 = 600%nat ->
    (let q := {| _fifo := Some f |} in
     let q' := snd (AudioQueue_push data q) in
     let drained := Nat.min (av_audio_fifo_size f)
                            (length data - av_audio_fifo_space f) in
     fst (AudioQueue_push data q) = length data
     /\ AudioQueue_samples q' = skipn drained (fifo_samples f) ++ data
     /\ (AudioQueue_size q' <= AudioQueue_capacity q')%nat
     /\ ((length data <= AudioQueue_capacity q)%nat ->
         drained = (length data - av_audio_fifo_space f)%nat
         /\ av_audio_fifo_space (drain_for_push (length data) f) = length data
         /\ AudioQueue_capacity q' = AudioQueue_capacity q
         /\ AudioQueue_size q' = AudioQueue_capacity q))
    /\ (let q0 := snd (AudioQueue_init channels 1000 true AudioQueue_new) in
        let q2 := snd (AudioQueue_push batch2
                         (snd (AudioQueue_push batch1 q0))) in
        AudioQueue_capacity q0 = 1000%nat
        /\ AudioQueue_samples q2 = skipn 200 batch1 ++ batch2
        /\ AudioQueue_size q2 = 1000%nat
        /\ AudioQueue_capacity q2 = 1000%nat).
Proof.
  intros f data channels batch1 batch2 Hok Hover Hch H1 H2.
  split; [exact (AudioQueue_push_overflow_general data Hok Hover) |].
  unfold AudioQueue_init.
  apply Z.eqb_neq in Hch. rewrite Hch.
  change ((1000 =? 0) || false) with false. cbn [snd AudioQueue_new _fifo].
  change (Z.to_nat 1000) with 1000%nat.
  split; [reflexivity |].
  rewrite AudioQueue_push_fits
    by (unfold av_audio_fifo_space, av_audio_fifo_size, av_audio_fifo_alloc;
        cbn [fifo_samples allocated_samples length]; lia).
  cbn [fifo_samples allocated_samples av_audio_fifo_alloc app].
  set (f1 := {| fifo_samples := batch1; allocated_samples := 1000 |}).
  assert (Hok1 : fifo_ok f1)
    by (unfold fifo_ok, av_audio_fifo_size, f1;
        cbn [fifo_samples allocated_samples]; lia).
  assert (Hover1 : (av_audio_fifo_space f1 < length batch2)%nat)
    by (unfold av_audio_fifo_space, av_audio_fifo_size, f1;
        cbn [fifo_samples allocated_samples]; lia).
  destruct (AudioQueue_push_overflow_general batch2 Hok1 Hover1)
    as (_ & Hsamples & _ & Hfull).
  assert (Hcap : AudioQueue_capacity {| _fifo := Some f1 |} = 1000%nat)
    by (unfold AudioQueue_capacity, av_audio_fifo_space, av_audio_fifo_size,
          f1; cbn [_fifo fifo_samples allocated_samples]; lia).
  destruct Hfull as (_ & _ & Hc & Hs); [rewrite Hcap; lia |].
  rewrite Hsamples, Hs, Hc, Hcap.
  replace (Nat.min (av_audio_fifo_size f1)
                   (length batch2 - av_audio_fifo_space f1)) with 200%nat
    by (unfold av_audio_fifo_space, av_audio_fifo_size, f1;
        cbn [fifo_samples allocated_samples]; lia).
  split; [reflexivity | split; reflexivity].
Qed.

Lemma AudioQueue_push_drops_oldest_witness :
  let f := {| fifo_samples := [1; 2; 3]; allocated_samples := 4 |} in
  let data := [4; 5; 6] in
  let batch1 := map Z.of_nat (seq 0 600) in
  let batch2 := map Z.of_nat (seq 600 600) in
  AudioQueue_samples (snd (AudioQueue_push data {| _fifo := Some f |}))
  = [3; 4; 5; 6]
  /\ AudioQueue_samples
       (snd (AudioQueue_push batch2
               (snd (AudioQueue_push batch1
                       (snd (AudioQueue_init 2 1000 true AudioQueue_new))))))
     = map Z.of_nat (seq 200 1000).
Proof.
  intros f data batch1 batch2.
  assert (Hok : fifo_ok f) by (vm_compute; lia).
  assert (Hover : (av_audio_fifo_space f < length data)%nat)
    by (vm_compute; lia).
  assert (Hch : 2 <> 0) by lia.
  assert (H1 : length batch1 = 600%nat) by (vm_compute; reflexivity).
  assert (H2 : length batch2 = 600%nat) by (vm_compute; reflexivity).
  destruct (@AudioQueue_push_drops_oldest f data 2 batch1 batch2
              Hok Hover Hch H1 H2)
    as ((_ & Hs & _) & (_ & Hb & _)).
  split.
  - rewrite Hs. reflexivity.
  - rewrite Hb. vm_compute. reflexivity.
Defined.

(* ================================================================= *)
(** ** Output sample format *)

(** C9.  With the [Default] setting the chosen output format is the
    interleaved format of the same sample type for U8/U8P, S16/S16P, S32/S32P
    and FLT/FLTP, and 32-bit float for every other source format; with the
    settings U8, S16, S32 and F32 it is exactly that format; and the chosen
    format is never planar. *)
Theorem ChooseAudioFormat_chooses_interleaved :
  forall (setting : AudioFormat) (original : AVSampleFormat),
    fst (fst (ChooseAudioFormat setting original)) = Success
    /\ chosen_format Default original
       = (if kept_by_default original
          then av_get_packed_sample_fmt original
          else AV_SAMPLE_FMT_FLT)
    /\ chosen_format U8 original = AV_SAMPLE_FMT_U8
    /\ chosen_format S16 original = AV_SAMPLE_FMT_S16
    /\ chosen_format S32 original = AV_SAMPLE_FMT_S32
    /\ chosen_format F32 original = AV_SAMPLE_FMT_FLT
    /\ av_sample_fmt_is_planar (chosen_format setting original) = false.
Proof.
  intros setting original.
  destruct setting; destruct original; repeat split; reflexivity.
Qed.

(* ================================================================= *)
(** ** [FinishedReading] *)

Lemma Close_not_opened :
  forall m, IsVideoOpened (Close m) = false /\ IsAudioOpened (Close m) = false.
Proof. intros m. split; reflexivity. Qed.

(** C10.  While neither a video nor an audio stream is open,
    [FinishedReading()] returns [false]; that is the case of an object no
    media was opened on yet, and of every object after [Close()].  (The
    comment on the declaration lists "media file wasn't opened" among the
    cases in which [true] is returned.) *)
Theorem FinishedReading_false_when_nothing_open :
  forall (m closed : Media) (paused : bool) (vtb atb : AVRational),
    IsVideoOpened m = false ->
    IsAudioOpened m = false ->
    FinishedReading m = false
    /\ FinishedReading (Media_new paused vtb atb) = false
    /\ FinishedReading (Close closed) = false.
Proof.
  intros m closed paused vtb atb Hv Ha.
  unfold FinishedReading. rewrite Hv, Ha.
  destruct (Close_not_opened closed) as [Hcv Hca]. rewrite Hcv, Hca.
  repeat split; reflexivity.
Qed.

Lemma FinishedReading_false_when_nothing_open_witness :
  let m := set_finished_reading true
             (Media_new false (mkRational 1 25) (mkRational 1 44100)) in
  FinishedReading m = false
  /\ FinishedReading
       (Media_new false (mkRational 1 25) (mkRational 1 44100)) = false
  /\ FinishedReading (Close m) = false.
Proof.
  intros m.
  apply (@FinishedReading_false_when_nothing_open m m false
           (mkRational 1 25) (mkRational 1 44100));
    reflexivity.
Defined.

(** C6.  With at least one stream open and the worker's end-of-stream flag
    set, [FinishedReading()] is [false] as long as the queue of an open
    stream holds something, and [true] exactly when the queue of every open
    stream is empty. *)
Theorem FinishedReading_after_end_of_stream :
  forall m,
    IsVideoOpened m = true \/ IsAudioOpened m = true ->
    finished_reading m = true ->
    0 <= VideoQueue_size (video_fifo m) ->
    (FinishedReading m = false
     <-> (IsVideoOpened m = true /\ VideoQueue_size (video_fifo m) <> 0)
         \/ (IsAudioOpened m = true /\ AudioQueue_size (audio_fifo m) <> 0%nat))
    /\ (FinishedReading m = true
        <-> (IsVideoOpened m = true -> VideoQueue_size (video_fifo m) = 0)
            /\ (IsAudioOpened m = true
                -> AudioQueue_size (audio_fifo m) = 0%nat)).
Proof.
  intros m Hopen Hfin Hsize.
  unfold FinishedReading. rewrite Hfin.
  assert (Hvs : (0 <? VideoQueue_size (video_fifo m)) = false
                <-> VideoQueue_size (video_fifo m) = 0)
    by (rewrite Z.ltb_ge; lia).
  assert (Has : (0 <? AudioQueue_size (audio_fifo m))%nat = false
                <-> AudioQueue_size (audio_fifo m) = 0%nat)
    by (rewrite Nat.ltb_ge; lia).
  destruct (IsVideoOpened m), (IsAudioOpened m),
    (0 <? VideoQueue_size (video_fifo m)),
    (0 <? AudioQueue_size (audio_fifo m))%nat;
    cbn [negb andb]; intuition (discriminate || congruence).
Qed.

Lemma FinishedReading_after_end_of_stream_witness :
  let q := VideoQueue_push
             (snd (VideoQueue_init 2 None VideoQueue_new)) in
  let m := set_video_fifo q
             (set_video_opened true
                (set_finished_reading true
                   (Media_new false (mkRational 1 25) (mkRational 1 44100)))) in
  FinishedReading m = false
  /\ FinishedReading
       (set_video_fifo (VideoQueue_pop (video_fifo m)) m) = true.
Proof.
  intros q m. split.
  - apply (@FinishedReading_after_end_of_stream m);
      [left; reflexivity | reflexivity | vm_compute; discriminate |].
    left. split; [reflexivity | vm_compute; discriminate].
  - apply (@FinishedReading_after_end_of_stream
             (set_video_fifo (VideoQueue_pop (video_fifo m)) m));
      [left; reflexivity | reflexivity | vm_compute; discriminate |].
    split; [intros _; reflexivity | intros H; discriminate H].
Defined.

(* ================================================================= *)
(** ** [Seek] when the coarse seek fails *)

(** A worker that has just been joined can be started again. *)
Lemma StartDecodingThread_after_stop :
  forall m,
    StartDecodingThread (StopDecodingThread m)
    = Some (call thread_start
              (set_frame_loader true
                 (set_finished_reading false
                    (set_keep_loading true (StopDecodingThread m))))).
Proof.
  intros m.
  destruct m as [dm paused fin keep loader vsi vtb vq vfr acc pts vo pic
                 asi atb aq consumed atime rate ao log].
  destruct loader; lazy; reflexivity.
Qed.

(** C8.  When [av_seek_frame] fails, [Seek] leaves both queues, the demuxer
    position and the clocks as they are and flushes no decoder; it stops and
    restarts the decode worker, resumes playback (the media is not paused
    afterwards, the audio device is started again) and returns [Error]. *)
Theorem Seek_failed_request_keeps_state :
  forall new_time response repositioned m,
    IsVideoOpened m = true \/ IsAudioOpened m = true ->
    response < 0 ->
    let new_calls :=
      (if IsAudioOpened m then [ma_device_start] else [])
      ++ [thread_start]
      ++ (if frame_loader m then [thread_join] else [])
      ++ (if IsAudioOpened m && negb (IsPaused m)
          then [ma_device_stop] else []) in
    exists m',
    Seek new_time response repositioned m = Some (Error, m')
    /\ video_fifo m' = video_fifo m
    /\ audio_fifo m' = audio_fifo m
    /\ demuxer m' = demuxer m
    /\ last_video_pts m' = last_video_pts m
    /\ delta_time_accumulator m' = delta_time_accumulator m
    /\ audio_time m' = audio_time m
    /\ calls m' = new_calls ++ calls m
    /\ ~ In avcodec_flush_buffers_video new_calls
    /\ ~ In avcodec_flush_buffers_audio new_calls
    /\ keep_loading m' = true
    /\ finished_reading m' = false
    /\ frame_loader m' = true
    /\ IsPaused m' = false.
Proof.
  intros new_time response repositioned m Hopen Hneg new_calls.
  subst new_calls.
  apply Z.leb_gt in Hneg.
  unfold Seek. rewrite Hneg.
  destruct m as [dm paused fin keep loader vsi vtb vq vfr acc pts vo pic
                 asi atb aq consumed atime rate ao log].
  unfold IsVideoOpened, IsAudioOpened, IsPaused in *. cbn in Hopen.
  destruct vo, ao;
    try (destruct Hopen; discriminate);
    destruct paused, loader; lazy;
    (eexists; split; [reflexivity |]);
    repeat split; auto;
    try (intros Hin; intuition discriminate).
Qed.

Lemma Seek_failed_request_keeps_state_witness :
  let q := VideoQueue_push (snd (VideoQueue_init 2 None VideoQueue_new)) in
  let m := set_frame_loader true
             (set_video_fifo q
                (set_video_opened true
                   (Media_new true (mkRational 1 25) (mkRational 1 44100)))) in
  exists m',
    Seek 3 (-1) [] m = Some (Error, m')
    /\ video_fifo m' = q
    /\ IsPaused m' = false.
Proof.
  intros q m.
  assert (Hopen : IsVideoOpened m = true \/ IsAudioOpened m = true)
    by (left; reflexivity).
  assert (Hneg : -1 < 0) by lia.
  destruct (@Seek_failed_request_keeps_state 3 (-1) [] m Hopen Hneg)
    as (m' & Hr & Hq & _ & _ & _ & _ & _ & _ & _ & _ & _ & _ & _ & Hp).
  exists m'. split; [exact Hr | split; [exact Hq | exact Hp]].
Defined.

(* ================================================================= *)
(** ** States with the video stream open *)

Lemma InitVideo_opens :
  forall best_stream codec_ok fps_capacity alloc_fail time_base pic m m',
    HasAlbumArt m = false ->
    0 <= fps_capacity < 65536 ->
    InitVideo best_stream codec_ok fps_capacity alloc_fail time_base pic m
    = (Success, m') ->
    0 <= best_stream ->
    IsVideoOpened m' = true
    /\ created (video_frame m') = true
    /\ VideoQueue_wf (video_fifo m')
    /\ VideoQueue_size (video_fifo m') = 0.
Proof.
  intros best_stream codec_ok fps_capacity alloc_fail time_base pic m m'
    Hpic Hfps Hinit Hfound.
  unfold InitVideo in Hinit.
  apply Z.ltb_ge in Hfound. rewrite Hfound, Hpic in Hinit.
  destruct codec_ok; cbn [negb] in Hinit; [| discriminate].
  destruct (VideoQueue_init (Z.max fps_capacity 2) alloc_fail (video_fifo m))
    as [result q] eqn:Hq.
  destruct result; [| discriminate].
  injection Hinit as <-. cbn.
  assert (Hrange : 0 <= Z.max fps_capacity 2 < 65536) by lia.
  destruct (VideoQueue_init_wf _ _ Hrange Hq) as (Hwf & Hs & _).
  repeat split; assumption.
Qed.

Lemma Media_eta :
  forall m,
    set_last_video_pts (last_video_pts m) (set_video_fifo (video_fifo m) m) = m.
Proof. intros m. destruct m. reflexivity. Qed.

Lemma FinishedReading_video_queued :
  forall m,
    IsVideoOpened m = true -> 0 < VideoQueue_size (video_fifo m) ->
    FinishedReading m = false.
Proof.
  intros m Hv Hs. unfold FinishedReading. rewrite Hv.
  apply Z.ltb_lt in Hs. rewrite Hs. cbn.
  destruct (finished_reading m); reflexivity.
Qed.

Lemma last_cons_default :
  forall (A : Type) (l : list A) (a d : A), last (a :: l) d = last l a.
Proof.
  intros A l. induction l as [| b l IH]; intros a d; [reflexivity |].
  change (last (a :: b :: l) d) with (last (b :: l) d).
  rewrite (IH b d), (IH b a). reflexivity.
Qed.

(** The loop of [GetVideoFrame(float)]: it drops the queued frames whose
    time stamp is below the reference time and stops in front of the first
    other one, whose time stamp it leaves in [last_video_pts]; when it drops
    them all, [last_video_pts] is the time stamp of the last one. *)
Lemma sync_loop_stops_at_reference :
  forall fuel ref m,
    IsVideoOpened m = true ->
    VideoQueue_wf (video_fifo m) ->
    (length (VideoQueue_contents (video_fifo m)) < fuel)%nat ->
    exists q pts r,
      sync_loop fuel ref m = Some (r, set_last_video_pts pts (set_video_fifo q m))
      /\ VideoQueue_wf q
      /\ VideoQueue_contents q
         = from_reference (video_time_base m) ref
             (VideoQueue_contents (video_fifo m))
      /\ match VideoQueue_contents q with
         | [] =>
             r = inl (Decal (video_frame m))
             /\ pts = last (map (CalculateVideoPts m)
                              (VideoQueue_contents (video_fifo m)))
                         (last_video_pts m)
         | f :: _ => r = inr tt /\ pts = CalculateVideoPts m f
         end.
Proof.
  induction fuel as [| fuel IH]; intros ref m Hv Hwf Hfuel; [lia |].
  cbn [sync_loop]. unfold PeekFrame.
  destruct (0 <? VideoQueue_size (video_fifo m)) eqn:Hpos.
  - apply Z.ltb_lt in Hpos.
    pose proof (VideoQueue_front_pop Hwf Hpos) as Hfront.
    set (next := VideoQueue_front (video_fifo m)) in *.
    cbn [last_video_pts set_last_video_pts].
    rewrite Hfront. cbn [from_reference].
    fold (CalculateVideoPts m next).
    destruct (Qle_bool ref (CalculateVideoPts m next)) eqn:Hle.
    + exists (video_fifo m), (CalculateVideoPts m next), (inr tt).
      split; [| split; [exact Hwf | split]].
      * destruct m; reflexivity.
      * exact Hfront.
      * rewrite Hfront. split; reflexivity.
    + set (m1 := set_last_video_pts (CalculateVideoPts m next) m).
      assert (Hskip : snd (SkipVideoFrame m1)
                      = set_video_fifo (VideoQueue_pop (video_fifo m)) m1).
      { unfold SkipVideoFrame.
        change (IsVideoOpened m1) with (IsVideoOpened m). rewrite Hv.
        rewrite FinishedReading_video_queued by assumption.
        change (video_fifo m1) with (video_fifo m).
        apply Z.ltb_lt in Hpos. rewrite Hpos. reflexivity. }
      rewrite Hskip.
      set (m2 := set_video_fifo (VideoQueue_pop (video_fifo m)) m1).
      destruct (IH ref m2) as (q & pts & r & Hrun & Hwfq & Hcont & Hres).
      * exact Hv.
      * apply VideoQueue_pop_wf. exact Hwf.
      * change (video_fifo m2) with (VideoQueue_pop (video_fifo m)).
        rewrite Hfront in Hfuel. cbn [length] in Hfuel. lia.
      * exists q, pts, r. split; [| split; [exact Hwfq | split]].
        -- rewrite Hrun. reflexivity.
        -- exact Hcont.
        -- destruct (VideoQueue_contents q); [| exact Hres].
           destruct Hres as (Hr & Hpts). split; [exact Hr |].
           cbn [map]. rewrite last_cons_default. exact Hpts.
  - apply Z.ltb_ge in Hpos.
    assert (Hs : VideoQueue_size (video_fifo m) = 0).
    { destruct Hwf as (d & _ & _ & _ & Hs & _).
      unfold VideoQueue_size in *. lia. }
    exists (video_fifo m), (last_video_pts m), (inl (Decal (video_frame m))).
    rewrite Media_eta, (VideoQueue_contents_empty _ Hs).
    repeat split. exact Hwf.
Qed.

Lemma from_reference_split :
  forall tb ref frames,
    exists skipped,
      frames = skipped ++ from_reference tb ref frames
      /\ Forall (fun f => (rescale (best_effort_timestamp f) tb < ref)%Q)
                skipped
      /\ match from_reference tb ref frames with
         | [] => True
         | f :: _ => (ref <= rescale (best_effort_timestamp f) tb)%Q
         end.
Proof.
  intros tb ref frames. induction frames as [| f rest IH].
  - exists []. repeat split. constructor.
  - cbn [from_reference].
    destruct (Qle_bool ref (rescale (best_effort_timestamp f) tb)) eqn:Hle.
    + exists []. repeat split; [constructor |].
      apply Qle_bool_iff. exact Hle.
    + destruct IH as (skipped & Hsplit & Hall & Hhead).
      exists (f :: skipped). split; [| split].
      * cbn. f_equal. exact Hsplit.
      * constructor; [| exact Hall].
        apply Qnot_le_lt. intro Hc. apply Qle_bool_iff in Hc. congruence.
      * exact Hhead.
Qed.

Lemma VideoQueue_contents_head :
  forall q f rest,
    VideoQueue_wf q -> VideoQueue_contents q = f :: rest ->
    0 < VideoQueue_size q
    /\ VideoQueue_front q = f
    /\ VideoQueue_contents (VideoQueue_pop q) = rest.
Proof.
  intros q f rest Hwf Hcont.
  assert (Hpos : 0 < VideoQueue_size q).
  { rewrite <- (VideoQueue_contents_length Hwf), Hcont. cbn [length]. lia. }
  split; [exact Hpos |].
  rewrite (VideoQueue_front_pop Hwf Hpos) in Hcont.
  injection Hcont as Hf Hr. split; assumption.
Qed.

(** What [GetVideoFrame(float)] does once it has passed its early returns:
    the loop followed by [GetVideoFrame()]. *)
Lemma synchronise_then_present :
  forall ref m,
    IsVideoOpened m = true ->
    VideoQueue_wf (video_fifo m) ->
    exists d m',
      match sync_loop (S (Z.to_nat (VideoQueue_size (video_fifo m)))) ref m with
      | None => None
      | Some (inl d, m2) => Some (d, m2)
      | Some (inr _, m2) => Some (GetVideoFrame_now m2)
      end = Some (d, m')
      /\ match from_reference (video_time_base m) ref
                 (VideoQueue_contents (video_fifo m)) with
         | [] =>
             d = Decal (video_frame m)
             /\ video_frame m' = video_frame m
             /\ VideoQueue_contents (video_fifo m') = []
             /\ last_video_pts m'
                = last (map (CalculateVideoPts m)
                          (VideoQueue_contents (video_fifo m)))
                       (last_video_pts m)
         | f :: rest =>
             d = Decal (video_frame m')
             /\ video_frame m'
                = {| created := created (video_frame m);
                     pixels := frame_data f |}
             /\ VideoQueue_contents (video_fifo m') = rest
             /\ last_video_pts m' = CalculateVideoPts m f
         end
      /\ VideoQueue_wf (video_fifo m')
      /\ delta_time_accumulator m' = delta_time_accumulator m.
Proof.
  intros ref m Hv Hwf.
  destruct (@sync_loop_stops_at_reference
              (S (Z.to_nat (VideoQueue_size (video_fifo m)))) ref m Hv Hwf)
    as (q & pts & r & Hrun & Hwfq & Hcont & Hres).
  { pose proof (VideoQueue_contents_length Hwf). lia. }
  rewrite Hrun. rewrite <- Hcont.
  destruct (VideoQueue_contents q) as [| f rest] eqn:Hq.
  - destruct Hres as [-> ->]. eexists _, _. split; [reflexivity |].
    cbn. rewrite Hq. repeat split. exact Hwfq.
  - destruct Hres as [-> ->].
    destruct (VideoQueue_contents_head Hwfq Hq) as (Hpos & Hfront & Hrest).
    set (m2 := set_last_video_pts (CalculateVideoPts m f) (set_video_fifo q m)).
    assert (Hnow : GetVideoFrame_now m2
                   = (Decal {| created := created (video_frame m);
                               pixels := frame_data f |},
                      set_video_fifo (VideoQueue_pop q)
                        (ConvertFrameToRGBASprite f m2))).
    { unfold GetVideoFrame_now.
      change (IsVideoOpened m2) with (IsVideoOpened m). rewrite Hv.
      rewrite FinishedReading_video_queued by assumption.
      change (video_fifo m2) with q.
      apply Z.ltb_lt in Hpos. rewrite Hpos, Hfront. reflexivity. }
    rewrite Hnow. eexists _, _. split; [reflexivity |].
    cbn. rewrite Hrest. repeat split.
    apply VideoQueue_pop_wf. exact Hwfq.
Qed.

Lemma Qlt_bool_iff : forall x y, Qlt_bool x y = true <-> (x < y)%Q.
Proof.
  intros x y. unfold Qlt_bool. rewrite negb_true_iff. split.
  - intros H. apply Qnot_le_lt. intro Hc. apply Qle_bool_iff in Hc.
    congruence.
  - intros H. destruct (Qle_bool y x) eqn:Hle; [| reflexivity].
    apply Qle_bool_iff in Hle. exfalso. exact (Qlt_not_le _ _ H Hle).
Qed.

(* ================================================================= *)
(** ** The frame [GetVideoFrame(delta_time)] presents *)

(** C1, counterexample.  Video only, one queued frame with time stamp 1.0,
    reference time 0.5: the frame is in front of the reference time, yet the
    call pops it and makes it the current frame. *)
Lemma GetVideoFrame_presents_frame_after_reference :
  let f := {| best_effort_timestamp := 25; pkt_size := 100;
              frame_data := [25] |} in
  let p := {| stream_index := 0; send_response := 0;
              received := [mkReceived f 0 [] []];
              receive_end := AVERROR_EAGAIN |} in
  let opened := snd (InitVideo 0 true 25 None (mkRational 1 25) false
                       (Media_new false (mkRational 0 1) (mkRational 0 1))) in
  let m := snd (decode_video_packet 24 p opened) in
  IsVideoOpened m = true /\ FinishedReading m = false
  /\ IsPaused m = false /\ HasAlbumArt m = false
  /\ VideoQueue_contents (video_fifo m) = [f]
  /\ (reference_time (1 # 2) m < CalculateVideoPts m f)%Q
  /\ exists m',
       GetVideoFrame (1 # 2) m = Some (Some (frame_data f), m')
       /\ pixels (video_frame m') = frame_data f
       /\ VideoQueue_contents (video_fifo m') = [].
Proof.
  intros f p opened m.
  repeat (split; [vm_compute; reflexivity |]).
  eexists. split; [vm_compute; reflexivity |].
  split; vm_compute; reflexivity.
Qed.

(** C1 (amended).  With video opened, playing, not finished and no attached
    picture, the reference time of [GetVideoFrame(delta_time)] is the audio
    time when audio is open, and else the [float] sum of the accumulated
    delta time and [delta_time], which is stored as the new accumulated
    delta time (the time base of the stream is taken to be well formed and
    that sum to be finite).  The call returns the current frame untouched
    while the reference time is below [last_video_pts].  Otherwise it drops
    queued frames exactly while the front frame's time stamp is below the
    reference time, and stops at the first frame whose time stamp is equal to
    or above the reference time, or when the queue is empty.  The frame it
    stops at is popped and made current, so the frame made current never has
    a time stamp below the reference time (an exactly equal one is
    presented) and [last_video_pts] is its time stamp; when the queue runs
    empty the current frame is kept and [last_video_pts] is the time stamp
    of the last frame dropped. *)
Theorem GetVideoFrame_presents_first_frame_from_reference :
  forall delta_time m,
    IsVideoOpened m = true ->
    FinishedReading m = false ->
    IsPaused m = false ->
    HasAlbumArt m = false ->
    VideoQueue_wf (video_fifo m) ->
    den (video_time_base m) <> 0 ->
    (IsAudioOpened m = false ->
     (Qabs (float_add (delta_time_accumulator m) delta_time)
      <= float_max)%Q) ->
    let ref := reference_time delta_time m in
    let queued := VideoQueue_contents (video_fifo m) in
    let kept := from_reference (video_time_base m) ref queued in
    exists d m',
      GetVideoFrame delta_time m = Some (d, m')
      /\ ref = (if IsAudioOpened m then audio_time m
                else to_float (delta_time_accumulator m + delta_time))
      /\ delta_time_accumulator m'
         = (if IsAudioOpened m then delta_time_accumulator m else ref)
      /\ ((ref < last_video_pts m)%Q ->
          d = Decal (video_frame m)
          /\ video_frame m' = video_frame m
          /\ video_fifo m' = video_fifo m
          /\ last_video_pts m' = last_video_pts m)
      /\ ((last_video_pts m <= ref)%Q ->
          (exists skipped,
              queued = skipped ++ kept
              /\ Forall (fun f => (CalculateVideoPts m f < ref)%Q) skipped)
          /\ match kept with
             | [] =>
                 d = Decal (video_frame m)
                 /\ video_frame m' = video_frame m
                 /\ VideoQueue_contents (video_fifo m') = []
                 /\ last_video_pts m'
                    = last (map (CalculateVideoPts m) queued)
                           (last_video_pts m)
             | f :: rest =>
                 (ref <= CalculateVideoPts m f)%Q
                 /\ d = Decal (video_frame m')
                 /\ video_frame m'
                    = {| created := created (video_frame m);
                         pixels := frame_data f |}
                 /\ VideoQueue_contents (video_fifo m') = rest
                 /\ last_video_pts m' = CalculateVideoPts m f
             end).
Proof.
  intros delta_time m Hv Hfin Hplay Hpic Hwf _ _ ref queued kept.
  unfold GetVideoFrame. rewrite Hv, Hfin, Hplay, Hpic. cbn [negb].
  set (m1 := if IsAudioOpened m then m
             else set_delta_time_accumulator
                    (float_add (delta_time_accumulator m) delta_time) m).
  assert (Hpair :
            (if IsAudioOpened m then (audio_time m, m)
             else ((float_add (delta_time_accumulator m) delta_time),
                   set_delta_time_accumulator
                     (float_add (delta_time_accumulator m) delta_time) m))
            = (ref, m1)).
  { subst ref m1. unfold reference_time.
    destruct (IsAudioOpened m); reflexivity. }
  rewrite Hpair.
  assert (Hsame : video_fifo m1 = video_fifo m
                  /\ video_frame m1 = video_frame m
                  /\ last_video_pts m1 = last_video_pts m
                  /\ video_time_base m1 = video_time_base m
                  /\ IsVideoOpened m1 = IsVideoOpened m
                  /\ delta_time_accumulator m1
                     = (if IsAudioOpened m then delta_time_accumulator m
                        else ref)).
  { subst m1 ref. unfold reference_time.
    destruct (IsAudioOpened m); repeat split. }
  destruct Hsame as (Hq1 & Hf1 & Hp1 & Htb1 & Hv1 & Hacc1).
  assert (Href : ref = (if IsAudioOpened m then audio_time m
                        else to_float (delta_time_accumulator m
                                       + delta_time))) by reflexivity.
  rewrite Hp1.
  destruct (Qlt_bool ref (last_video_pts m)) eqn:Hearly.
  - apply Qlt_bool_iff in Hearly.
    exists (Decal (video_frame m1)), m1. rewrite Hf1, Hq1, Hp1.
    split; [reflexivity |]. split; [exact Href |].
    split; [exact Hacc1 |]. split.
    + intros _. repeat split.
    + intros Hle. exfalso. exact (Qlt_not_le _ _ Hearly Hle).
  - assert (Hlate : ~ (ref < last_video_pts m)%Q).
    { intro Hc. apply Qlt_bool_iff in Hc. congruence. }
    assert (Hv1' : IsVideoOpened m1 = true) by congruence.
    assert (Hwf1 : VideoQueue_wf (video_fifo m1)) by (rewrite Hq1; exact Hwf).
    destruct (@synchronise_then_present ref m1 Hv1' Hwf1)
      as (d & m' & Hrun & Hshape & _ & Hacc').
    exists d, m'. split; [exact Hrun |]. split; [exact Href |].
    split; [rewrite Hacc'; exact Hacc1 |]. split.
    + intros Hc. contradiction.
    + intros _.
      assert (Hpts_fun : CalculateVideoPts m1 = CalculateVideoPts m)
        by (subst m1; destruct (IsAudioOpened m); reflexivity).
      rewrite Hpts_fun, Hp1, Htb1, Hq1, Hf1 in Hshape.
      destruct (from_reference_split (video_time_base m) ref queued)
        as (skipped & Hsplit & Hall & Hhead).
      subst kept queued.
      split; [exists skipped; split; assumption |].
      destruct (from_reference (video_time_base m) ref
                  (VideoQueue_contents (video_fifo m))) as [| f rest];
        [exact Hshape |].
      split; [exact Hhead | exact Hshape].
Qed.

Lemma GetVideoFrame_presents_first_frame_from_reference_witness :
  let f16 := {| best_effort_timestamp := 16; pkt_size := 100;
                frame_data := [16] |} in
  let f17 := {| best_effort_timestamp := 17; pkt_size := 100;
                frame_data := [17] |} in
  let f18 := {| best_effort_timestamp := 18; pkt_size := 100;
                frame_data := [18] |} in
  let packet f := {| stream_index := 0; send_response := 0;
                     received := [mkReceived f 0 [] []];
                     receive_end := AVERROR_EAGAIN |} in
  let opened := snd (InitVideo 0 true 25 None (mkRational 1 25) false
                       (Media_new false (mkRational 0 1) (mkRational 0 1))) in
  let queued := snd (decode_video_packet 24 (packet f18)
                  (snd (decode_video_packet 24 (packet f17) opened))) in
  let m := set_delta_time_accumulator (to_float (64 # 100))
             (set_last_video_pts (CalculateVideoPts opened f16) queued) in
  let delta_time := to_float (4 # 100) in
  exists d m',
    GetVideoFrame delta_time m = Some (d, m')
    /\ (delta_time_accumulator m + delta_time
        < CalculateVideoPts m f17)%Q
    /\ (CalculateVideoPts m f17 < delta_time_accumulator m')%Q
    /\ delta_time_accumulator m' == 11408507 # 16777216
    /\ d = Some [18]
    /\ VideoQueue_contents (video_fifo m') = [].
Proof.
  intros f16 f17 f18 packet opened queued m delta_time.
  assert (Hwf : VideoQueue_wf (video_fifo m)).
  { queue_wf_by_computation. }
  assert (Htb : den (video_time_base m) <> 0) by discriminate.
  assert (Hfinite : IsAudioOpened m = false ->
                    (Qabs (float_add (delta_time_accumulator m) delta_time)
                     <= float_max)%Q)
    by (intros _; vm_compute; discriminate).
  destruct (@GetVideoFrame_presents_first_frame_from_reference delta_time m
              eq_refl eq_refl eq_refl eq_refl Hwf Htb Hfinite)
    as (d & m' & Hrun & _ & Hacc & _ & Hlate).
  exists d, m'. split; [exact Hrun |].
  assert (Hle : (last_video_pts m <= reference_time delta_time m)%Q)
    by (vm_compute; discriminate).
  destruct (Hlate Hle) as (_ & Hkept).
  vm_compute in Hkept.
  destruct Hkept as (_ & Hd & Hframe & Hrest & _).
  split; [vm_compute; reflexivity |].
  split; [rewrite Hacc; vm_compute; reflexivity |].
  split; [rewrite Hacc; vm_compute; reflexivity |].
  split; [| exact Hrest].
  rewrite Hd, Hframe. reflexivity.
Defined.

Lemma GetVideoFrame_total :
  forall delta_time m,
    (IsVideoOpened m = true -> VideoQueue_wf (video_fifo m)) ->
    exists r, GetVideoFrame delta_time m = Some r.
Proof.
  intros delta_time m Hwf. unfold GetVideoFrame.
  destruct (IsVideoOpened m) eqn:Hv; cbn [negb]; [| eexists; reflexivity].
  specialize (Hwf eq_refl).
  destruct (FinishedReading m); [eexists; reflexivity |].
  destruct (IsPaused m); [eexists; reflexivity |].
  destruct (HasAlbumArt m); [eexists; reflexivity |].
  destruct (IsAudioOpened m).
  - destruct (Qlt_bool (audio_time m) (last_video_pts m));
      [eexists; reflexivity |].
    destruct (@synchronise_then_present (audio_time m) m Hv Hwf)
      as (d & m' & Hrun & _).
    rewrite Hrun. eexists; reflexivity.
  - set (acc := (float_add (delta_time_accumulator m) delta_time)).
    set (m1 := set_delta_time_accumulator acc m).
    destruct (Qlt_bool acc (last_video_pts m1)); [eexists; reflexivity |].
    destruct (@synchronise_then_present acc m1 Hv Hwf)
      as (d & m' & Hrun & _).
    rewrite Hrun. eexists; reflexivity.
Qed.

(* ================================================================= *)
(** ** A starved consumer *)

Lemma GetVideoFrame_empty_queue :
  forall delta_time m,
    IsVideoOpened m = true ->
    VideoQueue_size (video_fifo m) = 0 ->
    exists m',
      GetVideoFrame delta_time m = Some (Decal (video_frame m), m')
      /\ video_frame m' = video_frame m
      /\ video_fifo m' = video_fifo m
      /\ IsVideoOpened m' = true.
Proof.
  intros delta_time m Hv Hs.
  assert (Hnow : GetVideoFrame_now m = (Decal (video_frame m), m)).
  { unfold GetVideoFrame_now. rewrite Hv, Hs. cbn.
    destruct (FinishedReading m); reflexivity. }
  unfold GetVideoFrame. rewrite Hv, Hnow. cbn [negb].
  destruct (FinishedReading m); [exists m; repeat split; assumption |].
  destruct (IsPaused m); [exists m; repeat split; assumption |].
  destruct (HasAlbumArt m); [exists m; repeat split; assumption |].
  destruct (IsAudioOpened m).
  - destruct (Qlt_bool (audio_time m) (last_video_pts m));
      [exists m; repeat split; assumption |].
    rewrite Hs. cbn. unfold PeekFrame. rewrite Hs. cbn.
    exists m; repeat split; assumption.
  - set (m1 := set_delta_time_accumulator
                 (float_add (delta_time_accumulator m) delta_time) m).
    destruct (Qlt_bool (float_add (delta_time_accumulator m) delta_time)
                       (last_video_pts m1));
      [exists m1; repeat split; assumption |].
    change (video_fifo m1) with (video_fifo m).
    rewrite Hs. cbn. unfold PeekFrame.
    change (video_fifo m1) with (video_fifo m). rewrite Hs. cbn.
    exists m1; repeat split; assumption.
Qed.

(** C5.  While video is opened and the video queue stays empty (the decode
    worker is stalled), every call of [GetVideoFrame(delta_time)] in a row
    returns: it returns the same frame, the last one produced, and never a
    null pointer. *)
Theorem GetVideoFrame_starved_keeps_last_frame :
  forall dts m,
    IsVideoOpened m = true ->
    created (video_frame m) = true ->
    VideoQueue_size (video_fifo m) = 0 ->
    exists m',
      GetVideoFrame_each dts m
      = Some (map (fun _ => Some (pixels (video_frame m))) dts, m')
      /\ video_frame m' = video_frame m
      /\ video_fifo m' = video_fifo m.
Proof.
  induction dts as [| dt rest IH]; intros m Hv Hc Hs.
  - exists m. repeat split.
  - cbn [GetVideoFrame_each map].
    destruct (GetVideoFrame_empty_queue dt m Hv Hs)
      as (m1 & Hcall & Hframe & Hqueue & Hv1).
    rewrite Hcall.
    destruct (IH m1) as (m' & Hrest & Hframe' & Hqueue').
    + exact Hv1.
    + rewrite Hframe. exact Hc.
    + rewrite Hqueue. exact Hs.
    + rewrite Hrest, Hframe. unfold Decal. rewrite Hc.
      exists m'. repeat split; congruence.
Qed.

Lemma GetVideoFrame_starved_keeps_last_frame_witness :
  let f := {| best_effort_timestamp := 0; pkt_size := 100;
              frame_data := [10] |} in
  let p := {| stream_index := 0; send_response := 0;
              received := [mkReceived f 0 [] []];
              receive_end := AVERROR_EAGAIN |} in
  let opened := snd (InitVideo 0 true 25 None (mkRational 1 25) false
                       (Media_new false (mkRational 0 1) (mkRational 0 1))) in
  let m := snd (GetVideoFrame_now (snd (decode_video_packet 24 p opened))) in
  exists m',
    GetVideoFrame_each [1 # 64; 1 # 64; 1 # 64] m
    = Some ([Some [10]; Some [10]; Some [10]], m').
Proof.
  intros f p opened m.
  destruct (@GetVideoFrame_starved_keeps_last_frame
              [1 # 64; 1 # 64; 1 # 64] m eq_refl eq_refl eq_refl)
    as (m' & Hrun & _).
  exists m'. exact Hrun.
Defined.

(* ================================================================= *)
(** ** The worker on a queue of capacity 2 *)

Lemma decode_video_packet_capacity_two :
  forall m f p,
    VideoQueue_wf (video_fifo m) ->
    VideoQueue_capacity (video_fifo m) = 2 ->
    VideoQueue_size (video_fifo m) <= 1 ->
    decodes_to_video_frame m f p ->
    exists q,
      decode_video_packet 1 p m = (Success, set_video_fifo q m)
      /\ VideoQueue_wf q
      /\ VideoQueue_capacity q = 2
      /\ VideoQueue_size q = 1
      /\ VideoQueue_contents q = [f].
Proof.
  intros m f p Hwf Hcap Hsize (Hidx & Hsend & (r & rest & Hrecv & Hf) & Hpkt).
  unfold decode_video_packet. rewrite Hsend, Hrecv, Hf.
  change (0 =? 0) with true. change (0 <? 0) with false. cbn [negb andb].
  set (q1 := if 1 =? VideoQueue_size (video_fifo m)
             then VideoQueue_pop (video_fifo m) else video_fifo m).
  assert (Hq1 : VideoQueue_wf q1 /\ VideoQueue_size q1 = 0
                /\ VideoQueue_capacity q1 = 2).
  { subst q1. destruct (1 =? VideoQueue_size (video_fifo m)) eqn:Hfull.
    - apply Z.eqb_eq in Hfull.
      split; [apply VideoQueue_pop_wf; exact Hwf |].
      rewrite VideoQueue_pop_size, VideoQueue_pop_capacity by (auto; lia).
      lia.
    - apply Z.eqb_neq in Hfull.
      pose proof (VideoQueue_contents_length Hwf). repeat split; auto; lia. }
  destruct Hq1 as (Hwf1 & Hs1 & Hc1).
  set (q2 := VideoQueue_store_back f q1).
  assert (Hwf2 : VideoQueue_wf q2)
    by (apply VideoQueue_store_back_wf; exact Hwf1).
  assert (Hback : VideoQueue_back q2 = f)
    by (apply VideoQueue_store_back_back; exact Hwf1).
  assert (Hs2 : VideoQueue_size q2 = 0) by exact Hs1.
  assert (Hc2 : VideoQueue_capacity q2 = 2) by exact Hc1.
  assert (Hcont2 : VideoQueue_contents q2 = [])
    by (apply VideoQueue_contents_empty; exact Hs2).
  fold q2. rewrite Hback.
  apply Z.eqb_neq in Hpkt. rewrite Hpkt. cbn [negb].
  exists (VideoQueue_push q2).
  split; [reflexivity |].
  split; [apply VideoQueue_push_wf; [exact Hwf2 | lia] |].
  split; [exact Hc2 |].
  split; [rewrite VideoQueue_push_size by (auto; lia); lia |].
  rewrite VideoQueue_push_contents by (auto; lia).
  rewrite Hcont2, Hback. reflexivity.
Qed.

Lemma DecodingThread_loop_capacity_two :
  forall frames pkts min_a m,
    IsVideoOpened m = true ->
    HasAlbumArt m = false ->
    keep_loading m = true ->
    VideoQueue_wf (video_fifo m) ->
    VideoQueue_capacity (video_fifo m) = 2 ->
    VideoQueue_size (video_fifo m) <= 1 ->
    Forall2 (decodes_to_video_frame m) frames pkts ->
    fst (DecodingThread_loop pkts 1 1 min_a m) = Returned Success
    /\ VideoQueue_contents
         (video_fifo (snd (DecodingThread_loop pkts 1 1 min_a m)))
       = match rev frames with
         | [] => VideoQueue_contents (video_fifo m)
         | newest :: _ => [newest]
         end.
Proof.
  intros frames pkts min_a. revert frames.
  induction pkts as [| p pkts IH];
    intros frames m Hv Hpic Hkeep Hwf Hcap Hsize Hall;
    inversion Hall as [| f p' frames' pkts' Hp Hrest]; subst.
  - cbn [DecodingThread_loop]. rewrite Hv, Hpic, Hkeep.
    apply Z.leb_le in Hsize. rewrite Hsize. cbn. split; reflexivity.
  - destruct (decode_video_packet_capacity_two Hwf Hcap Hsize Hp)
      as (q & Hdec & Hwfq & Hcq & Hsq & Hcontq).
    cbn [DecodingThread_loop]. rewrite Hv, Hpic, Hkeep.
    apply Z.leb_le in Hsize as Hb. rewrite Hb. cbn [negb andb orb].
    destruct Hp as (Hidx & Hp').
    rewrite Hidx, Z.eqb_refl, Hdec.
    set (m1 := set_video_fifo q m).
    assert (Hsq1 : VideoQueue_size (video_fifo m1) <= 1)
      by (change (video_fifo m1) with q; lia).
    destruct (IH frames' m1 Hv Hpic Hkeep Hwfq Hcq Hsq1 Hrest)
      as [Hres Hcont].
    split; [exact Hres |].
    rewrite Hcont. cbn [rev].
    change (video_fifo m1) with q. rewrite Hcontq.
    destruct (rev frames') as [| newest older]; reflexivity.
Qed.

(** C3, counterexample.  A video queue of capacity 2, three video packets
    decoding to frames with the time stamps 0.0, 0.04 and 0.08, no consumer:
    after the worker has processed them the queue holds the single frame
    0.08, not the two frames 0.04 and 0.08. *)
Lemma DecodingThread_capacity_two_holds_one_frame :
  let frame ts := {| best_effort_timestamp := ts; pkt_size := 100;
                     frame_data := [ts] |} in
  let packet ts := {| stream_index := 0; send_response := 0;
                      received := [mkReceived (frame ts) 0 [] []];
                      receive_end := AVERROR_EAGAIN |} in
  let opened := snd (InitVideo 0 true 2 None (mkRational 1 25) false
                       (Media_new false (mkRational 0 1) (mkRational 0 1))) in
  let m := set_demuxer [packet 0; packet 1; packet 2] opened in
  VideoQueue_capacity (video_fifo m) = 2
  /\ (CalculateVideoPts m (frame 0%Z) == 0)%Q
  /\ (CalculateVideoPts m (frame 1%Z) == to_double (4 # 100))%Q
  /\ (CalculateVideoPts m (frame 2%Z) == to_double (8 # 100))%Q
  /\ fst (DecodingThread m) = Returned Success
  /\ VideoQueue_contents (video_fifo (snd (DecodingThread m))) = [frame 2]
  /\ VideoQueue_contents (video_fifo (snd (DecodingThread m)))
     <> [frame 1; frame 2].
Proof.
  intros frame packet opened m.
  repeat (split; [vm_compute; reflexivity |]).
  vm_compute. discriminate.
Qed.

(** C3 (amended).  With a video queue of capacity 2, after the decode worker
    has processed three video packets that decode to (non-empty) frames, with
    no pop by the consumer in between, the queue holds exactly one frame, the
    newest: the worker keeps at most [capacity - 1] frames queued and evicts
    the oldest one before it decodes the next.  For the time stamps 0.0, 0.04
    and 0.08 the queue holds the frame 0.08. *)
Theorem DecodingThread_capacity_two_keeps_newest_frame :
  forall m p0 p1 p2 f0 f1 f2,
    IsVideoOpened m = true ->
    HasAlbumArt m = false ->
    keep_loading m = true ->
    VideoQueue_wf (video_fifo m) ->
    VideoQueue_capacity (video_fifo m) = 2 ->
    VideoQueue_size (video_fifo m) = 0 ->
    demuxer m = [p0; p1; p2] ->
    decodes_to_video_frame m f0 p0 ->
    decodes_to_video_frame m f1 p1 ->
    decodes_to_video_frame m f2 p2 ->
    fst (DecodingThread m) = Returned Success
    /\ VideoQueue_contents (video_fifo (snd (DecodingThread m))) = [f2].
Proof.
  intros m p0 p1 p2 f0 f1 f2 Hv Hpic Hkeep Hwf Hcap Hsize Hdemux H0 H1 H2.
  unfold DecodingThread.
  set (m0 := set_finished_reading false m).
  change (IsVideoOpened m0) with (IsVideoOpened m).
  change (HasAlbumArt m0) with (HasAlbumArt m).
  change (video_fifo m0) with (video_fifo m).
  change (demuxer m0) with (demuxer m).
  rewrite Hv, Hpic, Hcap, Hdemux.
  change (usize (2 - 1)) with 1. change (Z.max (1 / 2) 1) with 1.
  assert (Hs0 : VideoQueue_size (video_fifo m0) <= 1)
    by (change (video_fifo m0) with (video_fifo m); lia).
  assert (Hall : Forall2 (decodes_to_video_frame m0) [f0; f1; f2] [p0; p1; p2]).
  { constructor; [exact H0 |]. constructor; [exact H1 |].
    constructor; [exact H2 |]. constructor. }
  exact (@DecodingThread_loop_capacity_two [f0; f1; f2] [p0; p1; p2] _ m0
           Hv Hpic Hkeep Hwf Hcap Hs0 Hall).
Qed.

Lemma DecodingThread_capacity_two_keeps_newest_frame_witness :
  let frame ts := {| best_effort_timestamp := ts; pkt_size := 100;
                     frame_data := [ts] |} in
  let packet ts := {| stream_index := 0; send_response := 0;
                      received := [mkReceived (frame ts) 0 [] []];
                      receive_end := AVERROR_EAGAIN |} in
  let opened := snd (InitVideo 0 true 2 None (mkRational 1 25) false
                       (Media_new false (mkRational 0 1) (mkRational 0 1))) in
  let m := set_demuxer [packet 0; packet 1; packet 2] opened in
  fst (DecodingThread m) = Returned Success
  /\ VideoQueue_contents (video_fifo (snd (DecodingThread m))) = [frame 2].
Proof.
  intros frame packet opened m.
  assert (Hwf : VideoQueue_wf (video_fifo m)).
  { queue_wf_by_computation. }
  assert (Hdec : forall ts, ts <> -1 ->
                   decodes_to_video_frame m (frame ts) (packet ts)).
  { intros ts Hts. repeat split; try reflexivity.
    - eexists _, _. split; reflexivity.
    - discriminate. }
  apply (@DecodingThread_capacity_two_keeps_newest_frame m
           (packet 0) (packet 1) (packet 2) (frame 0) (frame 1) (frame 2));
    try reflexivity; try exact Hwf; apply Hdec; discriminate.
Defined.

(* ================================================================= *)
(** ** Re-synchronisation after a seek *)

Lemma settled_members :
  forall a b,
    settled a = settled b ->
    video_opened a = video_opened b
    /\ audio_opened a = audio_opened b
    /\ video_stream_index a = video_stream_index b
    /\ audio_stream_index a = audio_stream_index b
    /\ video_time_base a = video_time_base b
    /\ audio_time_base a = audio_time_base b.
Proof.
  intros a b H.
  pose proof (f_equal video_opened H) as H1.
  pose proof (f_equal audio_opened H) as H2.
  pose proof (f_equal video_stream_index H) as H3.
  pose proof (f_equal audio_stream_index H) as H4.
  pose proof (f_equal video_time_base H) as H5.
  pose proof (f_equal audio_time_base H) as H6.
  cbn in *. repeat split; assumption.
Qed.

Lemma resync_audio_frames_settled :
  forall t rs e seeked m r seeked' m',
    resync_audio_frames t rs e seeked m = (r, seeked', m') ->
    settled m' = settled m
    /\ video_fifo m' = video_fifo m
    /\ (seeked = true -> seeked' = true)
    /\ (seeked' = true ->
        seeked = true
        \/ exists x, In x rs /\ pkt_size (r_frame x) <> -1
                     /\ (t <= CalculateAudioPts m (r_frame x))%Q).
Proof.
  intros t rs e. induction rs as [| x rest IH];
    intros seeked m r seeked' m' Hrun; cbn [resync_audio_frames] in Hrun.
  - destruct ((e <? 0) && negb ((e =? AVERROR_EOF) || (e =? AVERROR_EAGAIN)));
      injection Hrun as <- <- <-; repeat split; auto.
  - destruct (negb (pkt_size (r_frame x) =? -1)) eqn:Hsize.
    + destruct (Qle_bool t (CalculateAudioPts m (r_frame x))) eqn:Hlate.
      * assert (Hacc : exists y, In y (x :: rest)
                         /\ pkt_size (r_frame y) <> -1
                         /\ (t <= CalculateAudioPts m (r_frame y))%Q).
        { exists x. split; [left; reflexivity |]. split.
          - apply negb_true_iff, Z.eqb_neq in Hsize. exact Hsize.
          - apply Qle_bool_iff. exact Hlate. }
        set (m1 := if negb seeked
                   then set_audio_clock
                          (size_t_of_double
                             (to_double
                                (CalculateAudioPts m (r_frame x)
                                 * double_of_Z (audio_sample_rate m))))
                          (CalculateAudioPts m (r_frame x)) m
                   else m) in *.
        assert (Hm1 : settled m1 = settled m /\ video_fifo m1 = video_fifo m
                      /\ audio_time_base m1 = audio_time_base m).
        { subst m1. destruct (negb seeked); repeat split. }
        destruct Hm1 as (Hs1 & Hv1 & Htb1).
        destruct (r_convert_response x =? 0).
        -- destruct (push_flushed (r_flush x)
                       (snd (AudioQueue_push (r_resampled x) (audio_fifo m1))))
             as [[|] q2] eqn:Hflush.
           ++ apply IH in Hrun. destruct Hrun as (Hs & Hv & Hmono & _).
              change (settled (set_audio_fifo q2 m1)) with (settled m1) in Hs.
              change (video_fifo (set_audio_fifo q2 m1))
                with (video_fifo m1) in Hv.
              split; [congruence |]. split; [congruence |].
              split; [intros _; apply Hmono; reflexivity |].
              intros _. right. exact Hacc.
           ++ injection Hrun as <- <- <-.
              change (settled (set_audio_fifo q2 m1)) with (settled m1).
              change (video_fifo (set_audio_fifo q2 m1)) with (video_fifo m1).
              split; [exact Hs1 |]. split; [exact Hv1 |].
              split; [reflexivity |]. intros _. right. exact Hacc.
        -- injection Hrun as <- <- <-.
           split; [exact Hs1 |]. split; [exact Hv1 |].
           split; [reflexivity |]. intros _. right. exact Hacc.
      * apply IH in Hrun. destruct Hrun as (Hs & Hv & Hmono & Hwhy).
        repeat split; auto.
        intros Hs'. destruct (Hwhy Hs') as [Hold | (y & Hin & Hy)];
          [left; exact Hold | right].
        exists y. split; [right; exact Hin | exact Hy].
    + apply IH in Hrun. destruct Hrun as (Hs & Hv & Hmono & Hwhy).
      repeat split; auto.
      intros Hs'. destruct (Hwhy Hs') as [Hold | (y & Hin & Hy)];
        [left; exact Hold | right].
      exists y. split; [right; exact Hin | exact Hy].
Qed.

Lemma resync_make_room :
  forall t tb cap q,
    resync_queue_ok t tb cap q ->
    let q1 := if cap - 1 =? VideoQueue_size q then VideoQueue_pop q else q in
    resync_queue_ok t tb cap q1
    /\ VideoQueue_size q1 < cap - 1
    /\ (VideoQueue_size q = 0 -> q1 = q).
Proof.
  intros t tb cap q (Hwf & Hcap & Hsize & Hlate) q1. subst q1.
  assert (Hcap2 : 2 <= cap).
  { destruct Hwf as (d & _ & _ & Hc & _).
    unfold VideoQueue_capacity in Hcap. lia. }
  destruct (cap - 1 =? VideoQueue_size q) eqn:Hfull.
  - apply Z.eqb_eq in Hfull.
    assert (Hpos : 0 < VideoQueue_size q) by lia.
    repeat split.
    + apply VideoQueue_pop_wf. exact Hwf.
    + rewrite VideoQueue_pop_capacity. exact Hcap.
    + rewrite VideoQueue_pop_size by assumption. lia.
    + rewrite VideoQueue_pop_contents by exact Hwf.
      destruct (VideoQueue_contents q) as [| f rest]; [constructor |].
      inversion Hlate; assumption.
    + rewrite VideoQueue_pop_size by assumption. lia.
    + intros Hz. lia.
  - apply Z.eqb_neq in Hfull. repeat split; auto; lia.
Qed.

Lemma resync_video_packet_keeps_late :
  forall t cap p seeked m r seeked' m',
    resync_queue_ok t (video_time_base m) cap (video_fifo m) ->
    resync_video_packet t (cap - 1) p seeked m = (r, seeked', m') ->
    (exists q, m' = set_video_fifo q m)
    /\ resync_queue_ok t (video_time_base m) cap (video_fifo m')
    /\ (seeked = true -> seeked' = true)
    /\ (seeked' = true ->
        seeked = true
        \/ exists x rest,
             received p = x :: rest
             /\ pkt_size (r_frame x) <> -1
             /\ (t <= CalculateVideoPts m (r_frame x))%Q)
    /\ (VideoQueue_size (video_fifo m) = 0 ->
        r = Success ->
        if seeked' then
          seeked = true \/
          exists f, VideoQueue_contents (video_fifo m') = [f]
        else VideoQueue_size (video_fifo m') = 0).
Proof.
  intros t cap p seeked m r seeked' m' Hok Hrun.
  unfold resync_video_packet in Hrun.
  destruct (resync_make_room Hok) as (Hok1 & Hroom & Hsame).
  set (q1 := if cap - 1 =? VideoQueue_size (video_fifo m)
             then VideoQueue_pop (video_fifo m) else video_fifo m) in *.
  destruct (negb (send_response p =? 0)).
  { injection Hrun as <- <- <-.
    split; [eexists; reflexivity |]. split; [exact Hok1 |].
    split; [auto |]. split; [auto |]. intros _ Hr. discriminate Hr. }
  set (answer := match received p with
                 | x :: _ => (0, r_frame x)
                 | [] => (receive_end p, frame_defaults)
                 end) in *.
  destruct answer as [response decoded] eqn:Hanswer.
  destruct Hok1 as (Hwf1 & Hcap1 & Hsize1 & Hlate1).
  set (q2 := VideoQueue_store_back decoded q1) in *.
  assert (Hwf2 : VideoQueue_wf q2)
    by (apply VideoQueue_store_back_wf; exact Hwf1).
  assert (Hback : VideoQueue_back q2 = decoded)
    by (apply VideoQueue_store_back_back; exact Hwf1).
  assert (Hcont2 : VideoQueue_contents q2 = VideoQueue_contents q1)
    by (apply VideoQueue_store_back_contents; [exact Hwf1 | lia]).
  assert (Hok2 : resync_queue_ok t (video_time_base m) cap q2).
  { split; [exact Hwf2 |]. split; [exact Hcap1 |]. split; [exact Hsize1 |].
    rewrite Hcont2. exact Hlate1. }
  assert (Hempty2 : VideoQueue_size (video_fifo m) = 0 ->
                    VideoQueue_size q2 = 0).
  { intros Hz. change (VideoQueue_size q2) with (VideoQueue_size q1).
    rewrite (Hsame Hz). exact Hz. }
  destruct ((response <? 0)
            && negb ((response =? AVERROR_EOF) || (response =? AVERROR_EAGAIN))).
  { injection Hrun as <- <- <-.
    split; [eexists; reflexivity |]. split; [exact Hok2 |].
    split; [auto |]. split; [auto |]. intros _ Hr. discriminate Hr. }
  rewrite Hback in Hrun.
  destruct (negb (pkt_size decoded =? -1)) eqn:Hsize.
  - destruct (Qle_bool t (CalculateVideoPts m decoded)) eqn:Hle.
    + injection Hrun as <- <- <-.
      apply negb_true_iff, Z.eqb_neq in Hsize.
      apply Qle_bool_iff in Hle.
      assert (Hfree : VideoQueue_size q2 < VideoQueue_capacity q2)
        by (change (VideoQueue_size q2) with (VideoQueue_size q1);
            change (VideoQueue_capacity q2) with (VideoQueue_capacity q1);
            lia).
      split; [eexists; reflexivity |]. split; [| split; [auto | split]].
      * change (video_fifo (set_video_fifo (VideoQueue_push q2) m))
          with (VideoQueue_push q2).
        split; [apply VideoQueue_push_wf; assumption |].
        split; [exact Hcap1 |].
        split.
        { rewrite VideoQueue_push_size by assumption.
          change (VideoQueue_size q2) with (VideoQueue_size q1). lia. }
        rewrite VideoQueue_push_contents, Hback, Hcont2 by assumption.
        apply Forall_app. split; [exact Hlate1 |].
        constructor; [exact Hle | constructor].
      * intros _. right.
        destruct (received p) as [| x rest] eqn:Hrecv.
        -- injection Hanswer as _ <-. exfalso. apply Hsize. reflexivity.
        -- injection Hanswer as _ <-. exists x, rest. repeat split; auto.
      * intros Hz _. right. exists decoded.
        change (video_fifo (set_video_fifo (VideoQueue_push q2) m))
          with (VideoQueue_push q2).
        rewrite VideoQueue_push_contents, Hback by assumption.
        rewrite (VideoQueue_contents_empty _ (Hempty2 Hz)). reflexivity.
    + injection Hrun as <- <- <-.
      split; [eexists; reflexivity |]. split; [exact Hok2 |].
      split; [auto |]. split; [auto |]. intros Hz _.
      destruct seeked; [left; reflexivity | exact (Hempty2 Hz)].
  - injection Hrun as <- <- <-.
    split; [eexists; reflexivity |]. split; [exact Hok2 |].
    split; [auto |]. split; [auto |]. intros Hz _.
    destruct seeked; [left; reflexivity | exact (Hempty2 Hz)].
Qed.

Lemma video_unit_from_settled :
  forall t a b p,
    settled a = settled b -> video_unit_from t a p -> video_unit_from t b p.
Proof.
  intros t a b p Hs (Hidx & x & rest & Hrecv & Hsize & Hle).
  destruct (settled_members Hs) as (_ & _ & Hi & _ & Htb & _).
  unfold video_unit_from, CalculateVideoPts in *.
  rewrite <- Hi, <- Htb. eauto 6.
Qed.

Lemma audio_unit_from_settled :
  forall t a b p,
    settled a = settled b -> audio_unit_from t a p -> audio_unit_from t b p.
Proof.
  intros t a b p Hs (Hidx & x & Hin & Hsize & Hle).
  destruct (settled_members Hs) as (_ & _ & _ & Hi & _ & Htb).
  unfold audio_unit_from, CalculateAudioPts in *.
  rewrite <- Hi, <- Htb. eauto 6.
Qed.

Lemma resync_audio_packet_settled :
  forall t p seeked m r seeked' m',
    resync_audio_packet t p seeked m = (r, seeked', m') ->
    settled m' = settled m
    /\ video_fifo m' = video_fifo m
    /\ (seeked = true -> seeked' = true)
    /\ (seeked' = true ->
        seeked = true
        \/ exists x, In x (received p) /\ pkt_size (r_frame x) <> -1
                     /\ (t <= CalculateAudioPts m (r_frame x))%Q).
Proof.
  intros t p seeked m r seeked' m' Hrun. unfold resync_audio_packet in Hrun.
  destruct ((send_response p <? 0) && negb (send_response p =? AVERROR_EAGAIN)).
  - injection Hrun as <- <- <-. repeat split; auto.
  - exact (resync_audio_frames_settled _ _ _ _ _ Hrun).
Qed.

(** The loop of [AdjustSeekedPosition]: what it keeps true of the video
    queue, what it has read when it is left, and why it is left. *)
Lemma AdjustSeekedPosition_loop_sound :
  forall t cap pkts video_seeked audio_seeked m r video_seeked' audio_seeked' m',
    (IsVideoOpened m = true ->
     resync_queue_ok t (video_time_base m) cap (video_fifo m)) ->
    AdjustSeekedPosition_loop pkts t (cap - 1) video_seeked audio_seeked m
    = (r, (video_seeked', audio_seeked'), m') ->
    settled m' = settled m
    /\ (IsVideoOpened m = true ->
        resync_queue_ok t (video_time_base m) cap (video_fifo m'))
    /\ (exists consumed,
          pkts = consumed ++ demuxer m'
          /\ (video_seeked' = true ->
              video_seeked = true
              \/ Exists (video_unit_from t m) consumed)
          /\ (audio_seeked' = true ->
              audio_seeked = true
              \/ Exists (audio_unit_from t m) consumed))
    /\ (r = Success ->
        (video_seeked' = true /\ audio_seeked' = true) \/ demuxer m' = []).
Proof.
  intros t cap pkts. induction pkts as [| p rest IH];
    intros vs aus m r vs' aus' m' Hok Hrun;
    cbn [AdjustSeekedPosition_loop] in Hrun;
    destruct (vs && aus) eqn:Hboth.
  - injection Hrun as <- <- <- <-.
    apply andb_prop in Hboth as [-> ->].
    split; [destruct (IsVideoOpened m); reflexivity |].
    split; [destruct (IsVideoOpened m); exact Hok |].
    split; [exists []; repeat split; auto |].
    intros _. left. split; reflexivity.
  - injection Hrun as <- <- <- <-.
    split; [reflexivity |]. split; [exact Hok |].
    split; [exists []; repeat split; auto |].
    intros _. right. reflexivity.
  - injection Hrun as <- <- <- <-.
    apply andb_prop in Hboth as [-> ->].
    split; [destruct (IsVideoOpened m); reflexivity |].
    split; [destruct (IsVideoOpened m); exact Hok |].
    split; [exists []; repeat split; auto |].
    intros _. left. split; reflexivity.
  - destruct (IsVideoOpened m && (stream_index p =? video_stream_index m))
      eqn:Hvideo.
    + apply andb_prop in Hvideo as [Hv Hidx]. apply Z.eqb_eq in Hidx.
      destruct (resync_video_packet t (cap - 1) p vs m)
        as [[r1 vs1] m1] eqn:Hstep.
      destruct (resync_video_packet_keeps_late _ _ _ (Hok Hv) Hstep)
        as ((q & Hm1) & Hok1 & Hmono & Hwhy & _).
      assert (Hs1 : settled m1 = settled m) by (subst m1; reflexivity).
      assert (Hhead : vs1 = true ->
                      vs = true \/ Exists (video_unit_from t m) [p]).
      { intros H1. destruct (Hwhy H1) as [Hold | (x & tl & Hx)];
          [left; exact Hold | right].
        constructor. split; [exact Hidx | eauto]. }
      destruct r1.
      * assert (Hok1' : IsVideoOpened m1 = true ->
                        resync_queue_ok t (video_time_base m1) cap
                          (video_fifo m1))
          by (intros _; subst m1; exact Hok1).
        destruct (IH _ _ _ _ _ _ _ Hok1' Hrun)
          as (Hs & Hokf & (consumed & Hsplit & Hvs & Has) & Hexit).
        split; [congruence |].
        split; [intros _; subst m1; apply Hokf; exact Hv |].
        split; [| exact Hexit].
        exists (p :: consumed). split; [cbn; f_equal; exact Hsplit |].
        split.
        -- intros H1. destruct (Hvs H1) as [Hold | Hex].
           ++ destruct (Hhead Hold) as [Hvs0 | Hp]; [left; exact Hvs0 |].
              right. inversion Hp as [? ? Hhd | ? ? Htl]; subst;
                [constructor; exact Hhd | inversion Htl].
           ++ right. apply Exists_cons_tl.
              eapply Exists_impl; [| exact Hex].
              intros a. apply video_unit_from_settled. exact Hs1.
        -- intros H1. destruct (Has H1) as [Hold | Hex];
             [left; exact Hold | right].
           apply Exists_cons_tl. eapply Exists_impl; [| exact Hex].
           intros a. apply audio_unit_from_settled. exact Hs1.
      * injection Hrun as <- <- <- <-.
        split; [subst m1; reflexivity |].
        split; [intros _; subst m1; exact Hok1 |].
        split; [| intros Hr; discriminate Hr].
        exists [p]. split; [reflexivity |]. split; [exact Hhead |].
        intros H1. left. exact H1.
    + destruct (IsAudioOpened m && (stream_index p =? audio_stream_index m))
        eqn:Haudio.
      * apply andb_prop in Haudio as [Ha Hidx]. apply Z.eqb_eq in Hidx.
        destruct (resync_audio_packet t p aus m) as [[r1 aus1] m1] eqn:Hstep.
        destruct (resync_audio_packet_settled _ _ _ _ Hstep)
          as (Hs1 & Hq1 & Hmono & Hwhy).
        destruct (settled_members Hs1) as (Hv1 & _ & _ & _ & Htb1 & _).
        assert (Hhead : aus1 = true ->
                        aus = true \/ Exists (audio_unit_from t m) [p]).
        { intros H1. destruct (Hwhy H1) as [Hold | (x & Hx)];
            [left; exact Hold | right].
          constructor. split; [exact Hidx | eauto]. }
        assert (Hok1 : IsVideoOpened m1 = true ->
                       resync_queue_ok t (video_time_base m1) cap
                         (video_fifo m1)).
        { unfold IsVideoOpened. rewrite Hv1, Htb1, Hq1. exact Hok. }
        destruct r1.
        -- destruct (IH _ _ _ _ _ _ _ Hok1 Hrun)
             as (Hs & Hokf & (consumed & Hsplit & Hvs & Has) & Hexit).
           split; [congruence |].
           split.
           { intros Hv. rewrite <- Htb1. apply Hokf.
             unfold IsVideoOpened in *. congruence. }
           split; [| exact Hexit].
           exists (p :: consumed). split; [cbn; f_equal; exact Hsplit |].
           split.
           ++ intros H1. destruct (Hvs H1) as [Hold | Hex];
                [left; exact Hold | right].
              apply Exists_cons_tl. eapply Exists_impl; [| exact Hex].
              intros a. apply video_unit_from_settled. exact Hs1.
           ++ intros H1. destruct (Has H1) as [Hold | Hex].
              ** destruct (Hhead Hold) as [Has0 | Hp]; [left; exact Has0 |].
                 right. inversion Hp as [? ? Hhd | ? ? Htl]; subst;
                [constructor; exact Hhd | inversion Htl].
              ** right. apply Exists_cons_tl.
                 eapply Exists_impl; [| exact Hex].
                 intros a. apply audio_unit_from_settled. exact Hs1.
        -- injection Hrun as <- <- <- <-.
           split; [exact Hs1 |].
           split.
           { intros Hv. change (video_fifo (set_demuxer rest m1))
                          with (video_fifo m1).
             rewrite Hq1. exact (Hok Hv). }
           split; [| intros Hr; discriminate Hr].
           exists [p]. split; [reflexivity |].
           split; [intros H1; left; exact H1 | exact Hhead].
      * destruct (IH _ _ _ _ _ _ _ Hok Hrun)
          as (Hs & Hokf & (consumed & Hsplit & Hvs & Has) & Hexit).
        split; [exact Hs |]. split; [exact Hokf |]. split; [| exact Hexit].
        exists (p :: consumed). split; [cbn; f_equal; exact Hsplit |].
        split.
        -- intros H1. destruct (Hvs H1) as [Hold | Hex];
             [left; exact Hold | right; apply Exists_cons_tl; exact Hex].
        -- intros H1. destruct (Has H1) as [Hold | Hex];
             [left; exact Hold | right; apply Exists_cons_tl; exact Hex].
Qed.

Lemma resync_video_packet_settled :
  forall t max p seeked m,
    settled (snd (resync_video_packet t max p seeked m)) = settled m.
Proof.
  intros t max p seeked m. unfold resync_video_packet.
  repeat match goal with
         | |- context [if ?c then _ else _] => destruct c
         | |- context [match ?l with [] => _ | _ :: _ => _ end] => destruct l
         end; reflexivity.
Qed.

(** Audio frames before the wanted time point are without any effect: the
    receive loop does the same with and without them. *)
Lemma resync_audio_frames_without_early :
  forall t tb rs e seeked m,
    audio_time_base m = tb ->
    resync_audio_frames t
      (filter (fun r => Qle_bool t (rescale (best_effort_timestamp (r_frame r))
                                            tb)) rs)
      e seeked m
    = resync_audio_frames t rs e seeked m.
Proof.
  intros t tb rs e. induction rs as [| x rest IH]; intros seeked m Htb.
  - reflexivity.
  - cbn [filter resync_audio_frames].
    unfold CalculateAudioPts. rewrite Htb.
    destruct (Qle_bool t (rescale (best_effort_timestamp (r_frame x)) tb))
      eqn:Hlate.
    + cbn [resync_audio_frames]. unfold CalculateAudioPts.
      rewrite Htb, Hlate.
      destruct (negb (pkt_size (r_frame x) =? -1)); [| apply IH; exact Htb].
      destruct (r_convert_response x =? 0); [| reflexivity].
      match goal with
      | |- context [push_flushed ?fl ?q] =>
          destruct (push_flushed fl q) as [[|] q2]
      end; [| reflexivity].
      apply IH. destruct (negb seeked); exact Htb.
    + destruct (negb (pkt_size (r_frame x) =? -1)); apply IH; exact Htb.
Qed.

Lemma AdjustSeekedPosition_loop_without_early_audio :
  forall t max m0 pkts video_seeked audio_seeked m,
    settled m = settled m0 ->
    fst (AdjustSeekedPosition_loop (map (without_early_audio t m0) pkts)
           t max video_seeked audio_seeked m)
    = fst (AdjustSeekedPosition_loop pkts t max video_seeked audio_seeked m)
    /\ set_demuxer []
         (snd (AdjustSeekedPosition_loop (map (without_early_audio t m0) pkts)
                 t max video_seeked audio_seeked m))
       = set_demuxer []
           (snd (AdjustSeekedPosition_loop pkts t max video_seeked
                   audio_seeked m)).
Proof.
  intros t max m0 pkts. induction pkts as [| p rest IH];
    intros vs aus m Hs; cbn [map AdjustSeekedPosition_loop];
    destruct (vs && aus); try (split; reflexivity).
  destruct (settled_members Hs) as (Hvo & Hao & Hvi & Hai & _ & Hatb).
  assert (Hidx : stream_index (without_early_audio t m0 p) = stream_index p)
    by (unfold without_early_audio; destruct (audio_routed m0 p); reflexivity).
  rewrite Hidx.
  destruct (IsVideoOpened m && (stream_index p =? video_stream_index m))
    eqn:Hvideo.
  - assert (Hp : without_early_audio t m0 p = p).
    { unfold without_early_audio, audio_routed, IsVideoOpened in *.
      rewrite <- Hvo, <- Hvi, Hvideo. reflexivity. }
    rewrite Hp.
    destruct (resync_video_packet t max p vs m) as [[r1 vs1] m1] eqn:Hstep.
    pose proof (resync_video_packet_settled t max p vs m) as Hs1.
    rewrite Hstep in Hs1. cbn [snd] in Hs1.
    destruct r1; [| split; reflexivity].
    apply IH. congruence.
  - destruct (IsAudioOpened m && (stream_index p =? audio_stream_index m))
      eqn:Haudio.
    + assert (Hstep : resync_audio_packet t (without_early_audio t m0 p) aus m
                      = resync_audio_packet t p aus m).
      { unfold without_early_audio, audio_routed, IsVideoOpened,
          IsAudioOpened in *.
        rewrite <- Hvo, <- Hvi, <- Hao, <- Hai, Hvideo, Haudio.
        cbn [negb andb]. unfold resync_audio_packet.
        cbn [send_response received receive_end].
        destruct ((send_response p <? 0)
                  && negb (send_response p =? AVERROR_EAGAIN));
          [reflexivity |].
        unfold CalculateAudioPts.
        apply resync_audio_frames_without_early. exact Hatb. }
      rewrite Hstep.
      destruct (resync_audio_packet t p aus m) as [[r1 aus1] m1] eqn:Hrun.
      destruct (resync_audio_packet_settled _ _ _ _ Hrun) as (Hs1 & _).
      destruct r1; [| split; reflexivity].
      apply IH. congruence.
    + apply IH. exact Hs.
Qed.

Lemma VideoQueue_clear_wf :
  forall q, VideoQueue_wf q ->
    VideoQueue_wf (VideoQueue_clear q)
    /\ VideoQueue_size (VideoQueue_clear q) = 0
    /\ VideoQueue_capacity (VideoQueue_clear q) = VideoQueue_capacity q.
Proof.
  intros q (d & Hd & Hlen & Hcap & Hs & Hdel & Hins).
  unfold VideoQueue_clear. rewrite Hd.
  split; [| split; reflexivity].
  exists (map av_frame_unref d).
  cbn [_data _capacity _size _delete_idx _insert_idx].
  rewrite length_map, Z.mod_small by lia. repeat split; lia.
Qed.

(** With only the video stream open the loop is left, when it is left
    through its regular exit, with exactly one queued frame: the first one
    accepted, whose time stamp becomes the new clock baseline. *)
Lemma AdjustSeekedPosition_loop_video_only :
  forall t cap pkts m r video_seeked' audio_seeked' m',
    IsVideoOpened m = true ->
    IsAudioOpened m = false ->
    resync_queue_ok t (video_time_base m) cap (video_fifo m) ->
    VideoQueue_size (video_fifo m) = 0 ->
    AdjustSeekedPosition_loop pkts t (cap - 1) false true m
    = (r, (video_seeked', audio_seeked'), m') ->
    r = Success ->
    video_seeked' = true ->
    exists f,
      VideoQueue_contents (video_fifo m') = [f]
      /\ (t <= CalculateVideoPts m f)%Q
      /\ last_video_pts m' = CalculateVideoPts m f
      /\ delta_time_accumulator m' = to_float (CalculateVideoPts m f).
Proof.
  intros t cap pkts. induction pkts as [| p rest IH];
    intros m r vs' aus' m' Hv Ha Hok Hempty Hrun Hr Hvs';
    cbn [AdjustSeekedPosition_loop andb] in Hrun.
  - injection Hrun as _ <- _ _. discriminate Hvs'.
  - rewrite Hv, Ha in Hrun. cbn [andb] in Hrun.
    destruct (stream_index p =? video_stream_index m).
    + destruct (resync_video_packet t (cap - 1) p false m)
        as [[r1 vs1] m1] eqn:Hstep.
      destruct (resync_video_packet_keeps_late _ _ _ Hok Hstep)
        as ((q & Hm1) & Hok1 & _ & _ & Hkept).
      destruct r1; [| injection Hrun as <- _ _ _; discriminate Hr].
      specialize (Hkept Hempty eq_refl).
      destruct vs1.
      * destruct Hkept as [Hc | (f & Hf)]; [discriminate Hc |].
        assert (Hexit : m' = set_demuxer rest
                              (set_delta_time_accumulator
                                 (to_float
                                    (CalculateVideoPts m1
                                       (VideoQueue_front (video_fifo m1))))
                                 (set_last_video_pts
                                    (CalculateVideoPts m1
                                       (VideoQueue_front (video_fifo m1)))
                                    m1))).
        { assert (Hv1 : IsVideoOpened m1 = true) by (subst m1; exact Hv).
          destruct rest; cbn [AdjustSeekedPosition_loop andb] in Hrun;
            rewrite Hv1 in Hrun; injection Hrun as _ _ _ <-; reflexivity. }
        destruct Hok1 as (Hwf1 & _ & _ & Hlate1).
        destruct (VideoQueue_contents_head Hwf1 Hf) as (_ & Hfront & _).
        rewrite Hf in Hlate1. apply Forall_inv in Hlate1.
        exists f. subst m' m1. cbn. repeat split; try assumption;
          cbn in Hfront; rewrite Hfront; reflexivity.
      * assert (Hok1' : resync_queue_ok t (video_time_base m1) cap
                          (video_fifo m1)) by (subst m1; exact Hok1).
        assert (Hv1 : IsVideoOpened m1 = true) by (subst m1; exact Hv).
        assert (Ha1 : IsAudioOpened m1 = false) by (subst m1; exact Ha).
        destruct (IH _ _ _ _ _ Hv1 Ha1 Hok1' Hkept Hrun Hr Hvs')
          as (f & Hf & Hle & Hpts & Hacc).
        exists f. subst m1. repeat split; assumption.
    + exact (IH _ _ _ _ _ Hv Ha Hok Hempty Hrun Hr Hvs').
Qed.

Lemma resync_start_members :
  forall repositioned m,
    let start := resync_start repositioned m in
    IsVideoOpened start = IsVideoOpened m
    /\ IsAudioOpened start = IsAudioOpened m
    /\ video_stream_index start = video_stream_index m
    /\ audio_stream_index start = audio_stream_index m
    /\ video_time_base start = video_time_base m
    /\ audio_time_base start = audio_time_base m
    /\ demuxer start = repositioned
    /\ video_fifo start
       = (if IsVideoOpened m then VideoQueue_clear (video_fifo m)
          else video_fifo m).
Proof.
  intros repositioned m.
  destruct m as [dm paused fin keep loader vsi vtb vq vfr acc pts vo pic
                 asi atb aq consumed atime rate ao log].
  unfold resync_start, Seek_flush, Pause, StopDecodingThread,
    IsVideoOpened, IsAudioOpened, IsPaused.
  destruct vo, ao, paused, loader; cbn; repeat split.
Qed.

Lemma usize_small : forall z, 0 <= z < 65536 -> usize z = z.
Proof. intros z H. unfold usize. apply Z.mod_small. lia. Qed.

(** *** What the loop does, exactly *)

(** Objects that differ only in what the re-synchronisation writes route
    and accept the same packets. *)
Lemma resync_vocabulary_settled :
  forall t a b,
    settled a = settled b ->
    (forall p, video_routed a p = video_routed b p)
    /\ (forall p, audio_routed a p = audio_routed b p)
    /\ (forall p, accepted_video_frame t a p = accepted_video_frame t b p)
    /\ (forall p, accepted_audio_blocks t a p = accepted_audio_blocks t b p)
    /\ (forall p, video_accepts t a p = video_accepts t b p)
    /\ (forall p, audio_accepts t a p = audio_accepts t b p)
    /\ audio_sample_rate a = audio_sample_rate b.
Proof.
  intros t a b Hs.
  destruct (settled_members Hs) as (Hvo & Hao & Hvi & Hai & Hvtb & Hatb).
  pose proof (f_equal audio_sample_rate Hs) as Hrate. cbn in Hrate.
  assert (Hvr : forall p, video_routed a p = video_routed b p).
  { intros p. unfold video_routed, IsVideoOpened. rewrite Hvo, Hvi.
    reflexivity. }
  assert (Har : forall p, audio_routed a p = audio_routed b p).
  { intros p. unfold audio_routed, IsVideoOpened, IsAudioOpened.
    rewrite Hvo, Hvi, Hao, Hai. reflexivity. }
  assert (Hvf : forall p, accepted_video_frame t a p
                          = accepted_video_frame t b p).
  { intros p. unfold accepted_video_frame, CalculateVideoPts.
    rewrite Hvr, Hvtb. reflexivity. }
  assert (Hab : forall p, accepted_audio_blocks t a p
                          = accepted_audio_blocks t b p).
  { intros p. unfold accepted_audio_blocks, CalculateAudioPts.
    rewrite Har, Hatb. reflexivity. }
  repeat split; try assumption.
  - intros p. unfold video_accepts. rewrite Hvf. reflexivity.
  - intros p. unfold audio_accepts. rewrite Hab. reflexivity.
Qed.

(** One video packet of the re-synchronisation, on the queue as a list. *)
Lemma resync_video_packet_exact :
  forall t cap p seeked m r seeked' m',
    IsVideoOpened m = true ->
    stream_index p = video_stream_index m ->
    resync_queue_ok t (video_time_base m) cap (video_fifo m) ->
    resync_video_packet t (cap - 1) p seeked m = (r, seeked', m') ->
    seeked' = seeked || video_accepts t m p
    /\ VideoQueue_contents (video_fifo m')
       = requeue t m cap (VideoQueue_contents (video_fifo m)) p.
Proof.
  intros t cap p seeked m r seeked' m' Hv Hidx Hok Hrun.
  unfold resync_video_packet in Hrun.
  destruct (resync_make_room Hok) as (Hok1 & Hroom & Hsame).
  assert (Hrouted : video_routed m p = true).
  { unfold video_routed. rewrite Hv, Hidx, Z.eqb_refl. reflexivity. }
  assert (Hkept : VideoQueue_contents
                    (if cap - 1 =? VideoQueue_size (video_fifo m)
                     then VideoQueue_pop (video_fifo m) else video_fifo m)
                  = (if cap - 1 =? Z.of_nat (length (VideoQueue_contents
                                                        (video_fifo m)))
                     then tl (VideoQueue_contents (video_fifo m))
                     else VideoQueue_contents (video_fifo m))).
  { destruct Hok as (Hwf & _).
    rewrite (VideoQueue_contents_length Hwf).
    destruct (cap - 1 =? VideoQueue_size (video_fifo m)); [| reflexivity].
    apply VideoQueue_pop_contents. exact Hwf. }
  set (q1 := if cap - 1 =? VideoQueue_size (video_fifo m)
             then VideoQueue_pop (video_fifo m) else video_fifo m) in *.
  unfold requeue, video_accepts, accepted_video_frame.
  rewrite Hrouted. cbn [andb]. cbv zeta. rewrite <- Hkept.
  destruct (send_response p =? 0) eqn:Hsend; cbn [negb] in Hrun.
  2:{ injection Hrun as <- <- <-. rewrite orb_false_r.
      split; reflexivity. }
  destruct Hok1 as (Hwf1 & Hcap1 & Hsize1 & Hlate1).
  destruct (received p) as [| x rest] eqn:Hrecv.
  - set (q2 := VideoQueue_store_back frame_defaults q1) in *.
    assert (Hback : VideoQueue_back q2 = frame_defaults)
      by (apply VideoQueue_store_back_back; exact Hwf1).
    assert (Hcont2 : VideoQueue_contents q2 = VideoQueue_contents q1)
      by (apply VideoQueue_store_back_contents; [exact Hwf1 | lia]).
    rewrite Hback in Hrun. cbn [pkt_size frame_defaults] in Hrun.
    rewrite Z.eqb_refl in Hrun. cbn [negb] in Hrun.
    rewrite orb_false_r.
    destruct ((receive_end p <? 0)
              && negb ((receive_end p =? AVERROR_EOF)
                       || (receive_end p =? AVERROR_EAGAIN)));
      injection Hrun as <- <- <-; split; try reflexivity; exact Hcont2.
  - set (q2 := VideoQueue_store_back (r_frame x) q1) in *.
    assert (Hwf2 : VideoQueue_wf q2)
      by (apply VideoQueue_store_back_wf; exact Hwf1).
    assert (Hback : VideoQueue_back q2 = r_frame x)
      by (apply VideoQueue_store_back_back; exact Hwf1).
    assert (Hcont2 : VideoQueue_contents q2 = VideoQueue_contents q1)
      by (apply VideoQueue_store_back_contents; [exact Hwf1 | lia]).
    cbn [Z.ltb Z.compare andb] in Hrun.
    rewrite Hback in Hrun.
    destruct (negb (pkt_size (r_frame x) =? -1)); cbn [andb].
    + destruct (Qle_bool t (CalculateVideoPts m (r_frame x))).
      * injection Hrun as <- <- <-. rewrite orb_true_r.
        split; [reflexivity |].
        change (video_fifo (set_video_fifo (VideoQueue_push q2) m))
          with (VideoQueue_push q2).
        rewrite VideoQueue_push_contents, Hback, Hcont2; [reflexivity | exact Hwf2 |].
        change (VideoQueue_size q2) with (VideoQueue_size q1).
        change (VideoQueue_capacity q2) with (VideoQueue_capacity q1). lia.
      * injection Hrun as <- <- <-. rewrite orb_false_r.
        split; [reflexivity | exact Hcont2].
    + injection Hrun as <- <- <-. rewrite orb_false_r.
      split; [reflexivity | exact Hcont2].
Qed.

(** The receive loop of the audio branch, on the accepted blocks. *)
Lemma resync_audio_frames_exact :
  forall t rs e seeked m r seeked' m',
    resync_audio_frames t rs e seeked m = (r, seeked', m') ->
    let blocks :=
      filter (fun x => negb (pkt_size (r_frame x) =? -1)
                       && Qle_bool t (CalculateAudioPts m (r_frame x))) rs in
    seeked' = seeked || (match blocks with [] => false | _ :: _ => true end)
    /\ (r = Success ->
        audio_fifo m' = fold_left push_block blocks (audio_fifo m))
    /\ (audio_frames_consumed m', audio_time m')
       = resync_audio_clock m (if seeked then [] else blocks).
Proof.
  intros t rs e. induction rs as [| x rest IH];
    intros seeked m r seeked' m' Hrun; cbn [resync_audio_frames] in Hrun.
  - cbn. destruct ((e <? 0) && negb ((e =? AVERROR_EOF) || (e =? AVERROR_EAGAIN)));
      injection Hrun as <- <- <-; rewrite orb_false_r;
      (split; [reflexivity |]); (split; [reflexivity |]);
      destruct seeked; reflexivity.
  - cbn zeta. cbn [filter].
    destruct (negb (pkt_size (r_frame x) =? -1)) eqn:Hsize; cbn [andb].
    + destruct (Qle_bool t (CalculateAudioPts m (r_frame x))) eqn:Hlate.
      * set (m1 := if negb seeked
                   then set_audio_clock
                          (size_t_of_double
                             (to_double
                                (CalculateAudioPts m (r_frame x)
                                 * double_of_Z (audio_sample_rate m))))
                          (CalculateAudioPts m (r_frame x)) m
                   else m) in *.
        assert (Hm1 : audio_fifo m1 = audio_fifo m
                      /\ audio_time_base m1 = audio_time_base m
                      /\ audio_sample_rate m1 = audio_sample_rate m
                      /\ (audio_frames_consumed m1, audio_time m1)
                         = resync_audio_clock m
                             (if seeked then [] else x :: rest)).
        { subst m1. destruct seeked; repeat split. }
        destruct Hm1 as (Hq1 & Htb1 & Hrate1 & Hclock1).
        rewrite orb_true_r.
        destruct (r_convert_response x =? 0).
        -- destruct (push_flushed (r_flush x)
                       (snd (AudioQueue_push (r_resampled x) (audio_fifo m1))))
             as [[|] q2] eqn:Hflush.
           ++ apply IH in Hrun. cbv zeta in Hrun.
              destruct Hrun as (Hs & Hq & Hc).
              change (audio_fifo (set_audio_fifo q2 m1)) with q2 in Hq.
              change (CalculateAudioPts (set_audio_fifo q2 m1))
                with (CalculateAudioPts m1) in Hq.
              cbn [orb] in Hs, Hc.
              change (resync_audio_clock (set_audio_fifo q2 m1) [])
                with (audio_frames_consumed m1, audio_time m1) in Hc.
              split; [exact Hs |]. split.
              ** intros Hr. rewrite (Hq Hr). cbn [fold_left].
                 assert (Hblock : push_block (audio_fifo m) x = q2).
                 { unfold push_block. rewrite <- Hq1, Hflush. reflexivity. }
                 rewrite Hblock.
                 unfold CalculateAudioPts. rewrite Htb1. reflexivity.
              ** rewrite Hc, Hclock1. destruct seeked; reflexivity.
           ++ injection Hrun as <- <- <-.
              split; [reflexivity |].
              split; [intros Hr; discriminate Hr |].
              change (audio_frames_consumed (set_audio_fifo q2 m1))
                with (audio_frames_consumed m1).
              change (audio_time (set_audio_fifo q2 m1)) with (audio_time m1).
              rewrite Hclock1. destruct seeked; reflexivity.
        -- injection Hrun as <- <- <-.
           split; [reflexivity |].
           split; [intros Hr; discriminate Hr |].
           rewrite Hclock1. destruct seeked; reflexivity.
      * apply IH in Hrun. exact Hrun.
    + apply IH in Hrun. exact Hrun.
Qed.

Lemma resync_audio_packet_exact :
  forall t p seeked m r seeked' m',
    audio_routed m p = true ->
    resync_audio_packet t p seeked m = (r, seeked', m') ->
    seeked' = seeked || audio_accepts t m p
    /\ (r = Success ->
        audio_fifo m'
        = fold_left push_block (accepted_audio_blocks t m p) (audio_fifo m))
    /\ (audio_frames_consumed m', audio_time m')
       = resync_audio_clock m
           (if seeked then [] else accepted_audio_blocks t m p).
Proof.
  intros t p seeked m r seeked' m' Hrouted Hrun.
  unfold resync_audio_packet in Hrun.
  unfold audio_accepts, accepted_audio_blocks, audio_packet_refused.
  rewrite Hrouted. cbn [andb].
  destruct ((send_response p <? 0) && negb (send_response p =? AVERROR_EAGAIN)).
  - injection Hrun as <- <- <-. cbn [negb]. rewrite orb_false_r.
    split; [reflexivity |]. split; [intros Hr; discriminate Hr |].
    destruct seeked; reflexivity.
  - cbn [negb]. exact (@resync_audio_frames_exact _ _ _ _ _ _ _ _ Hrun).
Qed.

(** The audio branch leaves the baseline of the video clock alone. *)
Lemma resync_audio_frames_baseline :
  forall t rs e seeked m,
    let m' := snd (resync_audio_frames t rs e seeked m) in
    last_video_pts m' = last_video_pts m
    /\ delta_time_accumulator m' = delta_time_accumulator m.
Proof.
  intros t rs e. induction rs as [| x rest IH]; intros seeked m;
    cbn [resync_audio_frames].
  - destruct ((e <? 0) && negb ((e =? AVERROR_EOF) || (e =? AVERROR_EAGAIN)));
      split; reflexivity.
  - destruct (negb (pkt_size (r_frame x) =? -1)); [| apply IH].
    destruct (Qle_bool t (CalculateAudioPts m (r_frame x))); [| apply IH].
    match goal with
    | |- context [AudioQueue_push _ (audio_fifo ?x)] => set (m1 := x)
    end.
    assert (Hm1 : last_video_pts m1 = last_video_pts m
                  /\ delta_time_accumulator m1 = delta_time_accumulator m)
      by (subst m1; destruct (negb seeked); split; reflexivity).
    destruct (r_convert_response x =? 0); [| exact Hm1].
    match goal with
    | |- context [push_flushed ?fl ?q] =>
        destruct (push_flushed fl q) as [[|] q2]
    end; [| exact Hm1].
    cbv zeta.
    destruct (IH true (set_audio_fifo q2 m1)) as (H1 & H2).
    cbv zeta in H1, H2. rewrite H1, H2. exact Hm1.
Qed.

Lemma resync_audio_packet_baseline :
  forall t p seeked m,
    let m' := snd (resync_audio_packet t p seeked m) in
    last_video_pts m' = last_video_pts m
    /\ delta_time_accumulator m' = delta_time_accumulator m.
Proof.
  intros t p seeked m. unfold resync_audio_packet.
  destruct ((send_response p <? 0) && negb (send_response p =? AVERROR_EAGAIN));
    [split; reflexivity | apply resync_audio_frames_baseline].
Qed.

Lemma resync_audio_clock_chain :
  forall m m1 (aus : bool) B1 B2 c,
    audio_time_base m1 = audio_time_base m ->
    audio_sample_rate m1 = audio_sample_rate m ->
    (audio_frames_consumed m1, audio_time m1)
    = resync_audio_clock m (if aus then [] else B1) ->
    c = resync_audio_clock m1
          (if aus || (match B1 with [] => false | _ :: _ => true end)
           then [] else B2) ->
    c = resync_audio_clock m (if aus then [] else B1 ++ B2).
Proof.
  intros m m1 aus B1 B2 c Htb Hrate Hstep Hc.
  destruct aus; cbn [orb] in Hc.
  - rewrite Hc. exact Hstep.
  - destruct B1 as [| b rest]; cbn [app].
    + rewrite Hc. destruct B2 as [| b2 rest2]; [exact Hstep |].
      unfold resync_audio_clock, CalculateAudioPts.
      rewrite Htb, Hrate. reflexivity.
    + rewrite Hc. exact Hstep.
Qed.

(** The loop of [AdjustSeekedPosition], exactly: which packets it reads,
    what it makes of the two flags, and what the queues and the clocks are
    when it is left. *)
Lemma AdjustSeekedPosition_loop_exact :
  forall t cap m0 pkts vs aus m r vs' aus' m',
    settled m = settled m0 ->
    (IsVideoOpened m = true ->
     resync_queue_ok t (video_time_base m) cap (video_fifo m)) ->
    AdjustSeekedPosition_loop pkts t (cap - 1) vs aus m
    = (r, (vs', aus'), m') ->
    exists consumed,
      pkts = consumed ++ demuxer m'
      /\ vs' = vs || existsb (video_accepts t m0) consumed
      /\ aus' = aus || existsb (audio_accepts t m0) consumed
      /\ (forall front back,
            consumed = front ++ back -> back <> [] ->
            (vs || existsb (video_accepts t m0) front)
            && (aus || existsb (audio_accepts t m0) front) = false)
      /\ (IsVideoOpened m = true ->
          VideoQueue_contents (video_fifo m')
          = fold_left (requeue t m0 cap) consumed
              (VideoQueue_contents (video_fifo m)))
      /\ (r = Success ->
          audio_fifo m'
          = fold_left push_block
              (flat_map (accepted_audio_blocks t m0) consumed)
              (audio_fifo m))
      /\ (audio_frames_consumed m', audio_time m')
         = resync_audio_clock m
             (if aus then []
              else flat_map (accepted_audio_blocks t m0) consumed)
      /\ (if regular_exit r vs' aus' && IsVideoOpened m
          then last_video_pts m'
               = CalculateVideoPts m0 (VideoQueue_front (video_fifo m'))
               /\ delta_time_accumulator m' = to_float (last_video_pts m')
          else last_video_pts m' = last_video_pts m
               /\ delta_time_accumulator m' = delta_time_accumulator m).
Proof.
  intros t cap m0 pkts. induction pkts as [| p rest IH];
    intros vs aus m r vs' aus' m' Hs Hok Hrun;
    cbn [AdjustSeekedPosition_loop] in Hrun;
    destruct (vs && aus) eqn:Hboth.
  1, 3:
    injection Hrun as <- <- <- <-;
    apply andb_prop in Hboth as [-> ->];
    exists []; cbn [app existsb flat_map fold_left orb andb regular_exit];
    (split; [reflexivity |]); (split; [reflexivity |]);
    (split; [reflexivity |]);
    (split; [intros front back Hsplit Hback;
             destruct front; [destruct back; [contradiction | discriminate]
                             | discriminate] |]);
    (split; [intros Hv; rewrite Hv; reflexivity |]);
    (split; [intros _; destruct (IsVideoOpened m); reflexivity |]);
    (split; [destruct (IsVideoOpened m); reflexivity |]);
    destruct (settled_members Hs) as (_ & _ & _ & _ & Hvtb & _);
    destruct (IsVideoOpened m); [| split; reflexivity];
    split; [unfold CalculateVideoPts; rewrite Hvtb; reflexivity | reflexivity].
  - injection Hrun as <- <- <- <-.
    exists []. cbn [app existsb flat_map fold_left].
    rewrite !orb_false_r. unfold regular_exit. rewrite Hboth. cbn [andb].
    split; [reflexivity |]. split; [reflexivity |]. split; [reflexivity |].
    split.
    { intros front back Hsplit Hback.
      destruct front; [destruct back; [contradiction | discriminate]
                      | discriminate]. }
    split; [intros _; reflexivity |].
    split; [intros _; reflexivity |].
    split; [destruct aus; reflexivity |].
    split; reflexivity.
  - destruct (@resync_vocabulary_settled t _ _ Hs)
      as (Hvr & Har & Hvf & Hab & Hva & Haa & Hrate).
    destruct (settled_members Hs) as (Hvo & Hao & Hvi & Hai & Hvtb & Hatb).
    assert (Hfront0 : forall front back,
               p :: [] = front ++ back -> back <> [] -> front = []).
    { intros front back Hsplit Hback. destruct front as [| a front];
        [reflexivity |].
      injection Hsplit as _ Hsplit. destruct front; [| discriminate].
      destruct back; [contradiction | discriminate]. }
    destruct (IsVideoOpened m && (stream_index p =? video_stream_index m))
      eqn:Hvideo.
    + (* a packet of the video stream *)
      pose proof Hvideo as Hrouted.
      apply andb_prop in Hvideo as [Hv Hidx]. apply Z.eqb_eq in Hidx.
      destruct (resync_video_packet t (cap - 1) p vs m)
        as [[r1 vs1] m1] eqn:Hstep.
      destruct (resync_video_packet_keeps_late _ _ _ (Hok Hv) Hstep)
        as ((q & Hm1) & Hok1 & _).
      destruct (@resync_video_packet_exact _ _ _ _ _ _ _ _ Hv Hidx (Hok Hv) Hstep)
        as (Hvs1 & Hcont1).
      rewrite (Hva p) in Hvs1.
      assert (Hrq : requeue t m cap (VideoQueue_contents (video_fifo m)) p
                    = requeue t m0 cap (VideoQueue_contents (video_fifo m)) p).
      { unfold requeue. rewrite Hvr, Hvf. reflexivity. }
      rewrite Hrq in Hcont1.
      assert (Hnoaudio : accepted_audio_blocks t m0 p = []
                         /\ audio_accepts t m0 p = false).
      { assert (Hnot : audio_routed m p = false)
          by (unfold audio_routed; rewrite Hrouted; reflexivity).
        unfold audio_accepts, accepted_audio_blocks.
        rewrite <- (Har p), Hnot. split; reflexivity. }
      destruct Hnoaudio as (Hblocks & Hacc).
      assert (Hs1 : settled m1 = settled m0) by (subst m1; exact Hs).
      destruct r1.
      * assert (Hok1' : IsVideoOpened m1 = true ->
                        resync_queue_ok t (video_time_base m1) cap
                          (video_fifo m1))
          by (intros _; subst m1; exact Hok1).
        destruct (IH _ _ _ _ _ _ _ Hs1 Hok1' Hrun)
          as (consumed & Hsplit & Hvs & Has & Hmin & Hq & Haq & Hclock
              & Hbase).
        exists (p :: consumed).
        cbn [app existsb flat_map fold_left]. rewrite Hblocks, Hacc.
        cbn [app orb].
        split; [f_equal; exact Hsplit |].
        split; [rewrite Hvs, Hvs1, orb_assoc; reflexivity |].
        split; [exact Has |].
        split.
        { intros front back Hcut Hback.
          destruct front as [| a front];
            [cbn [existsb]; rewrite !orb_false_r; exact Hboth |].
          injection Hcut as <- Hcut.
          cbn [existsb]. rewrite Hacc. cbn [orb].
          rewrite orb_assoc, <- Hvs1. exact (Hmin _ _ Hcut Hback). }
        split.
        { intros _. rewrite <- Hcont1. apply Hq. subst m1. exact Hv. }
        split; [intros Hr; rewrite (Haq Hr); subst m1; reflexivity |].
        split; [rewrite Hclock; subst m1; reflexivity |].
        replace (IsVideoOpened m) with (IsVideoOpened m1)
          by (subst m1; reflexivity).
        destruct (regular_exit r vs' aus' && IsVideoOpened m1);
          [exact Hbase | subst m1; exact Hbase].
      * injection Hrun as <- <- <- <-.
        exists [p]. cbn [app existsb flat_map fold_left regular_exit andb].
        rewrite Hblocks, Hacc, !orb_false_r.
        split; [reflexivity |].
        split; [exact Hvs1 |].
        split; [reflexivity |].
        split.
        { intros front back Hcut Hback.
          rewrite (Hfront0 _ _ Hcut Hback). cbn [existsb].
          rewrite !orb_false_r. exact Hboth. }
        split; [intros _; exact Hcont1 |].
        split; [intros Hr; discriminate Hr |].
        split; [subst m1; destruct aus; reflexivity |].
        subst m1; split; reflexivity.
    + assert (Hnovideo : video_accepts t m0 p = false
                         /\ forall frames, requeue t m0 cap frames p = frames).
      { unfold video_accepts, accepted_video_frame, requeue.
        rewrite <- (Hvr p). unfold video_routed. rewrite Hvideo.
        split; reflexivity. }
      destruct Hnovideo as (Hacc & Hrq).
      destruct (IsAudioOpened m && (stream_index p =? audio_stream_index m))
        eqn:Haudio.
      * (* a packet of the audio stream *)
        assert (Hrouted : audio_routed m p = true).
        { unfold audio_routed. rewrite Hvideo, Haudio. reflexivity. }
        destruct (resync_audio_packet t p aus m) as [[r1 aus1] m1] eqn:Hstep.
        destruct (resync_audio_packet_settled _ _ _ _ Hstep)
          as (Hs1 & Hq1 & _).
        destruct (@resync_audio_packet_exact _ _ _ _ _ _ _ Hrouted Hstep)
          as (Haus1 & Haq1 & Hclock1).
        pose proof (resync_audio_packet_baseline t p aus m) as Hbase1.
        rewrite Hstep in Hbase1. cbn [snd] in Hbase1.
        destruct Hbase1 as (Hpts1 & Hacc1).
        rewrite (Haa p) in Haus1. rewrite (Hab p) in Haq1, Hclock1.
        destruct (settled_members Hs1)
          as (Hvo1 & _ & _ & _ & Hvtb1 & Hatb1).
        pose proof (f_equal audio_sample_rate Hs1) as Hrate1. cbn in Hrate1.
        assert (Hopen1 : IsVideoOpened m1 = IsVideoOpened m)
          by (unfold IsVideoOpened; exact Hvo1).
        destruct r1.
        -- assert (Hok1 : IsVideoOpened m1 = true ->
                          resync_queue_ok t (video_time_base m1) cap
                            (video_fifo m1)).
           { rewrite Hopen1, Hvtb1, Hq1. exact Hok. }
           assert (Hs1' : settled m1 = settled m0) by congruence.
           destruct (IH _ _ _ _ _ _ _ Hs1' Hok1 Hrun)
             as (consumed & Hsplit & Hvs & Has & Hmin & Hq & Haq & Hclock
                 & Hbase).
           exists (p :: consumed).
           cbn [app existsb flat_map fold_left]. rewrite Hacc, Hrq.
           cbn [orb].
           split; [f_equal; exact Hsplit |].
           split; [exact Hvs |].
           split; [rewrite Has, Haus1, orb_assoc; reflexivity |].
           split.
           { intros front back Hcut Hback.
             destruct front as [| a front];
            [cbn [existsb]; rewrite !orb_false_r; exact Hboth |].
             injection Hcut as <- Hcut.
             cbn [existsb]. rewrite Hacc. cbn [orb].
             rewrite orb_assoc, <- Haus1. exact (Hmin _ _ Hcut Hback). }
           split.
           { intros Hv. rewrite <- Hq1. apply Hq. rewrite Hopen1. exact Hv. }
           split.
           { intros Hr. rewrite (Haq Hr), fold_left_app, (Haq1 eq_refl).
             reflexivity. }
           split.
           { apply (@resync_audio_clock_chain m m1 aus
                      (accepted_audio_blocks t m0 p)
                      (flat_map (accepted_audio_blocks t m0) consumed));
               [exact Hatb1 | exact Hrate1 | exact Hclock1 |].
             rewrite Hclock. f_equal. rewrite Haus1.
             unfold audio_accepts. reflexivity. }
           rewrite <- Hopen1.
           destruct (regular_exit r vs' aus' && IsVideoOpened m1);
             [exact Hbase | rewrite <- Hpts1, <- Hacc1; exact Hbase].
        -- injection Hrun as <- <- <- <-.
           exists [p]. cbn [app existsb flat_map fold_left regular_exit andb].
           rewrite Hacc, Hrq, app_nil_r, !orb_false_r.
           split; [reflexivity |].
           split; [reflexivity |].
           split; [exact Haus1 |].
           split.
           { intros front back Hcut Hback.
             rewrite (Hfront0 _ _ Hcut Hback). cbn [existsb].
             rewrite !orb_false_r. exact Hboth. }
           split.
           { intros _. change (video_fifo (set_demuxer rest m1))
                         with (video_fifo m1).
             rewrite Hq1. reflexivity. }
           split; [intros Hr; discriminate Hr |].
           split; [exact Hclock1 |].
           split; [exact Hpts1 | exact Hacc1].
      * (* a packet of another stream *)
        assert (Hnoaudio : accepted_audio_blocks t m0 p = []
                           /\ audio_accepts t m0 p = false).
        { assert (Hnot : audio_routed m p = false)
            by (unfold audio_routed; rewrite Haudio; apply andb_false_r).
          unfold audio_accepts, accepted_audio_blocks.
          rewrite <- (Har p), Hnot. split; reflexivity. }
        destruct Hnoaudio as (Hblocks & Hacca).
        destruct (IH _ _ _ _ _ _ _ Hs Hok Hrun)
          as (consumed & Hsplit & Hvs & Has & Hmin & Hq & Haq & Hclock
              & Hbase).
        exists (p :: consumed).
        cbn [app existsb flat_map fold_left].
        rewrite Hacc, Hacca, Hblocks, Hrq. cbn [app orb].
        split; [f_equal; exact Hsplit |].
        split; [exact Hvs |]. split; [exact Has |].
        split.
        { intros front back Hcut Hback.
          destruct front as [| a front];
            [cbn [existsb]; rewrite !orb_false_r; exact Hboth |].
          injection Hcut as <- Hcut.
          cbn [existsb]. rewrite Hacc, Hacca. cbn [orb].
          exact (Hmin _ _ Hcut Hback). }
        split; [exact Hq |]. split; [exact Haq |].
        split; [exact Hclock | exact Hbase].
Qed.

(** [Seek] hands the clocks over as they are, and the worker joined. *)
Lemma resync_start_clocks :
  forall repositioned m,
    let start := resync_start repositioned m in
    frame_loader start = false
    /\ audio_fifo start
       = (if IsAudioOpened m then AudioQueue_clear (audio_fifo m)
          else audio_fifo m)
    /\ audio_frames_consumed start = audio_frames_consumed m
    /\ audio_time start = audio_time m
    /\ audio_sample_rate start = audio_sample_rate m
    /\ last_video_pts start = last_video_pts m
    /\ delta_time_accumulator start = delta_time_accumulator m.
Proof.
  intros repositioned m.
  destruct m as [dm paused fin keep loader vsi vtb vq vfr acc pts vo pic
                 asi atb aq consumed atime rate ao log].
  unfold resync_start, Seek_flush, Pause, StopDecodingThread,
    IsVideoOpened, IsAudioOpened, IsPaused.
  destruct vo, ao, paused, loader; cbn; repeat split.
Qed.

Lemma existsb_ext_eq :
  forall (A : Type) (f g : A -> bool),
    (forall a, f a = g a) -> forall l, existsb f l = existsb g l.
Proof.
  intros A f g Hfg l. induction l as [| a l IH];
    [reflexivity | cbn; rewrite Hfg, IH; reflexivity].
Qed.

(** The vocabulary of the re-synchronisation reads the routing members, the
    time bases and the sample rate only. *)
Lemma resync_vocabulary_members :
  forall t a b,
    IsVideoOpened a = IsVideoOpened b ->
    IsAudioOpened a = IsAudioOpened b ->
    video_stream_index a = video_stream_index b ->
    audio_stream_index a = audio_stream_index b ->
    video_time_base a = video_time_base b ->
    audio_time_base a = audio_time_base b ->
    (forall frames cap p, requeue t a cap frames p = requeue t b cap frames p)
    /\ (forall p, accepted_audio_blocks t a p = accepted_audio_blocks t b p)
    /\ (forall pkts, video_reached t a pkts = video_reached t b pkts)
    /\ (forall pkts, audio_reached t a pkts = audio_reached t b pkts)
    /\ (forall f, CalculateVideoPts a f = CalculateVideoPts b f)
    /\ (forall f, CalculateAudioPts a f = CalculateAudioPts b f).
Proof.
  intros t a b Hvo Hao Hvi Hai Hvtb Hatb.
  assert (Hvr : forall p, video_routed a p = video_routed b p).
  { intros p. unfold video_routed. rewrite Hvo, Hvi. reflexivity. }
  assert (Har : forall p, audio_routed a p = audio_routed b p).
  { intros p. unfold audio_routed. rewrite Hvo, Hvi, Hao, Hai. reflexivity. }
  assert (Hvf : forall p, accepted_video_frame t a p
                          = accepted_video_frame t b p).
  { intros p. unfold accepted_video_frame, CalculateVideoPts.
    rewrite Hvr, Hvtb. reflexivity. }
  assert (Hab : forall p, accepted_audio_blocks t a p
                          = accepted_audio_blocks t b p).
  { intros p. unfold accepted_audio_blocks, CalculateAudioPts.
    rewrite Har, Hatb. reflexivity. }
  split; [intros frames cap p; unfold requeue; rewrite Hvr, Hvf; reflexivity |].
  split; [exact Hab |].
  split.
  { intros pkts. unfold video_reached. rewrite Hvo. f_equal.
    apply existsb_ext_eq. intros p. unfold video_accepts. rewrite Hvf.
    reflexivity. }
  split.
  { intros pkts. unfold audio_reached. rewrite Hao. f_equal.
    apply existsb_ext_eq. intros p. unfold audio_accepts. rewrite Hab.
    reflexivity. }
  split; intros f; [unfold CalculateVideoPts; rewrite Hvtb
                   | unfold CalculateAudioPts; rewrite Hatb]; reflexivity.
Qed.

Lemma fold_left_ext_eq :
  forall (A B : Type) (f g : A -> B -> A),
    (forall a b, f a b = g a b) ->
    forall l a, fold_left f l a = fold_left g l a.
Proof.
  intros A B f g Hfg l. induction l as [| b l IH]; intros a;
    [reflexivity | cbn; rewrite Hfg; apply IH].
Qed.

Lemma flat_map_ext_eq :
  forall (A B : Type) (f g : A -> list B),
    (forall a, f a = g a) -> forall l, flat_map f l = flat_map g l.
Proof.
  intros A B f g Hfg l. induction l as [| a l IH];
    [reflexivity | cbn; rewrite Hfg, IH; reflexivity].
Qed.

Lemma accepted_audio_blocks_closed :
  forall t m pkts,
    IsAudioOpened m = false ->
    flat_map (accepted_audio_blocks t m) pkts = [].
Proof.
  intros t m pkts Ha. induction pkts as [| p rest IH]; [reflexivity |].
  cbn [flat_map]. rewrite IH.
  unfold accepted_audio_blocks, audio_routed. rewrite Ha, andb_false_r.
  reflexivity.
Qed.

(** C7, counterexample.  Video and audio open, video queue of capacity 2,
    seek to 1.0; after the coarse seek the demuxer delivers two video packets
    (frames at 1.0 and 1.04) and then ends.  The loop is left at the end of
    the stream although the audio stream has produced nothing at or after
    1.0, and the first accepted video frame (1.0) has been evicted for the
    second one. *)
Lemma AdjustSeekedPosition_left_at_end_of_stream :
  let frame ts := {| best_effort_timestamp := ts; pkt_size := 100;
                     frame_data := [ts] |} in
  let packet ts := {| stream_index := 0; send_response := 0;
                      received := [mkReceived (frame ts) 0 [] []];
                      receive_end := AVERROR_EAGAIN |} in
  let m := {| demuxer := []; is_paused := false; finished_reading := false;
              keep_loading := true; frame_loader := true;
              video_stream_index := 0;
              video_time_base := mkRational 1 25;
              video_fifo := snd (VideoQueue_init 2 None VideoQueue_new);
              video_frame := {| created := true; pixels := [] |};
              delta_time_accumulator := 0; last_video_pts := 0;
              video_opened := true; attached_pic := false;
              audio_stream_index := 1;
              audio_time_base := mkRational 1 44100;
              audio_fifo := snd (AudioQueue_init 2 1000 true AudioQueue_new);
              audio_frames_consumed := 0; audio_time := 0;
              audio_sample_rate := 44100; audio_opened := true;
              calls := [] |} in
  let repositioned := [packet 25; packet 26] in
  let run := AdjustSeekedPosition_run 1 (resync_start repositioned m) in
  option_map fst (Seek 1 0 repositioned m) = Some Success
  /\ fst run = (Success, (true, false))
  /\ IsAudioOpened m = true
  /\ ~ Exists (audio_unit_from 1 m) repositioned
  /\ video_unit_from 1 m (packet 25)
  /\ VideoQueue_contents (video_fifo (snd run)) = [frame 26].
Proof.
  intros frame packet m repositioned run.
  split; [vm_compute; reflexivity |].
  split; [vm_compute; reflexivity |].
  split; [reflexivity |].
  split.
  { intros Hex. apply Exists_exists in Hex.
    destruct Hex as (p & Hin & Hidx & _).
    destruct Hin as [<- | [<- | []]]; discriminate Hidx. }
  split.
  { split; [reflexivity |]. eexists _, _.
    split; [reflexivity |]. split; [discriminate |].
    vm_compute. discriminate. }
  vm_compute. reflexivity.
Qed.

(** C7 (amended).  After a successful coarse seek to [t], with the time
    bases of the open streams well formed, [Seek] returns what the
    re-synchronisation loop returns, and the loop touches nothing but the
    demuxer position, the two queues and the clocks.  It reads the packets
    [consumed] and stops at the first packet after which every open stream
    has produced a decoded unit at or after [t] (no shorter prefix does), or
    when no further packet can be read, or with [Error] when a decode call
    fails; the flag of a stream is set exactly when the stream is not open
    or one of the packets read holds such a unit.  The video queue holds
    exactly the accepted frames, in order: each packet of the video stream
    first takes out the oldest frame when [capacity - 1] frames are queued,
    then its frame is appended when it is non-empty and at or after [t]; so
    no queued frame is before [t], and the first accepted frame may have
    left the queue again.  The audio queue has been given exactly the
    accepted blocks, in order, and the audio clock is that of the first
    accepted block; the audio frames below [t] are without any effect.
    After the regular exit [last_video_pts] is the time stamp of the frame
    at the front of the video queue and [delta_time_accumulator] that value
    narrowed to [float]; otherwise both are unchanged.  When only the video
    stream is open and the loop is left through its regular exit, the first
    accepted frame is the one queued frame. *)
Theorem AdjustSeekedPosition_discards_units_before_target :
  forall t response repositioned m r video_seeked audio_seeked m',
    IsVideoOpened m = true \/ IsAudioOpened m = true ->
    (IsVideoOpened m = true -> VideoQueue_wf (video_fifo m)) ->
    (IsVideoOpened m = true -> den (video_time_base m) <> 0) ->
    (IsAudioOpened m = true -> den (audio_time_base m) <> 0) ->
    0 <= response ->
    AdjustSeekedPosition_run t (resync_start repositioned m)
    = (r, (video_seeked, audio_seeked), m') ->
    (exists started,
        StartDecodingThread m' = Some started
        /\ Seek t response repositioned m = Some (r, Play started))
    /\ settled m' = settled (resync_start repositioned m)
    /\ (exists consumed,
          repositioned = consumed ++ demuxer m'
          /\ video_seeked = video_reached t m consumed
          /\ audio_seeked = audio_reached t m consumed
          /\ (forall front back,
                consumed = front ++ back -> back <> [] ->
                video_reached t m front && audio_reached t m front = false)
          /\ (IsVideoOpened m = true ->
              VideoQueue_contents (video_fifo m')
              = fold_left (requeue t m (VideoQueue_capacity (video_fifo m)))
                  consumed [])
          /\ (IsAudioOpened m = true -> r = Success ->
              audio_fifo m'
              = fold_left push_block
                  (flat_map (accepted_audio_blocks t m) consumed)
                  (AudioQueue_clear (audio_fifo m)))
          /\ (audio_frames_consumed m', audio_time m')
             = resync_audio_clock m
                 (flat_map (accepted_audio_blocks t m) consumed)
          /\ (video_seeked = true ->
              IsVideoOpened m = false
              \/ Exists (video_unit_from t m) consumed)
          /\ (audio_seeked = true ->
              IsAudioOpened m = false
              \/ Exists (audio_unit_from t m) consumed))
    /\ (r = Success ->
        (video_seeked = true /\ audio_seeked = true) \/ demuxer m' = [])
    /\ (IsVideoOpened m = true ->
        Forall (fun f => (t <= CalculateVideoPts m f)%Q)
               (VideoQueue_contents (video_fifo m')))
    /\ (let start := resync_start repositioned m in
        let without := map (without_early_audio t start) repositioned in
        fst (AdjustSeekedPosition_from without t start)
        = (r, (video_seeked, audio_seeked))
        /\ set_demuxer [] (snd (AdjustSeekedPosition_from without t start))
           = set_demuxer [] m')
    /\ (if regular_exit r video_seeked audio_seeked && IsVideoOpened m
        then last_video_pts m'
             = CalculateVideoPts m (VideoQueue_front (video_fifo m'))
             /\ delta_time_accumulator m' = to_float (last_video_pts m')
             /\ (forall f rest,
                   VideoQueue_contents (video_fifo m') = f :: rest ->
                   VideoQueue_front (video_fifo m') = f)
        else last_video_pts m' = last_video_pts m
             /\ delta_time_accumulator m' = delta_time_accumulator m)
    /\ (IsVideoOpened m = true -> IsAudioOpened m = false ->
        r = Success -> video_seeked = true ->
        exists f,
          VideoQueue_contents (video_fifo m') = [f]
          /\ (t <= CalculateVideoPts m f)%Q
          /\ last_video_pts m' = CalculateVideoPts m f
          /\ delta_time_accumulator m' = to_float (CalculateVideoPts m f)).
Proof.
  intros t response repositioned m r vs aus m' Hopen Hwf _ _ Hresp Hrun.
  destruct (resync_start_members repositioned m)
    as (Hvo & Hao & Hvi & Hai & Hvtb & Hatb & Hdem & Hq).
  destruct (resync_start_clocks repositioned m)
    as (Hloader & Haq0 & Hcons0 & Htime0 & Hrate0 & Hpts0 & Hacc0).
  set (start := resync_start repositioned m) in *.
  destruct (@resync_vocabulary_members t start m Hvo Hao Hvi Hai Hvtb Hatb)
    as (Hrq & Hab & Hvreach & Hareach & Hvpts & Hapts).
  (* the capacity the loop works with *)
  set (cap := if IsVideoOpened m
              then VideoQueue_capacity (video_fifo start) else 1).
  assert (Hok : IsVideoOpened start = true ->
                resync_queue_ok t (video_time_base start) cap
                  (video_fifo start)
                /\ VideoQueue_size (video_fifo start) = 0
                /\ 2 <= cap < 65536
                /\ cap = VideoQueue_capacity (video_fifo m)).
  { rewrite Hvo. intros Hv. subst cap. rewrite Hv in *.
    destruct (VideoQueue_clear_wf (Hwf eq_refl)) as (Hwfc & Hsc & Hcc).
    rewrite Hq.
    assert (Hrange : 2 <= VideoQueue_capacity
                            (VideoQueue_clear (video_fifo m)) < 65536).
    { destruct Hwfc as (d & _ & _ & Hc & _).
      unfold VideoQueue_capacity. exact Hc. }
    split; [| split; [exact Hsc | split; [exact Hrange | exact Hcc]]].
    split; [exact Hwfc |]. split; [reflexivity |]. split; [lia |].
    rewrite (VideoQueue_contents_empty _ Hsc). constructor. }
  assert (Hmax : (if IsVideoOpened start
                  then usize (VideoQueue_capacity (video_fifo start) - 1)
                  else 0) = cap - 1).
  { subst cap. rewrite Hvo. destruct (IsVideoOpened m) eqn:Hv;
      [| reflexivity].
    rewrite Hvo in Hok. destruct (Hok eq_refl) as (_ & _ & Hrange & _).
    apply usize_small. lia. }
  unfold AdjustSeekedPosition_run, AdjustSeekedPosition_from in Hrun.
  rewrite Hmax, Hdem in Hrun.
  assert (Hok' : IsVideoOpened start = true ->
                 resync_queue_ok t (video_time_base start) cap
                   (video_fifo start))
    by (intros Hv; apply Hok; exact Hv).
  destruct (@AdjustSeekedPosition_loop_sound t cap repositioned _ _ start
              r vs aus m' Hok' Hrun)
    as (Hs & Hokf & (consumed0 & Hsplit0 & Hvs0 & Has0) & Hexit).
  destruct (@AdjustSeekedPosition_loop_exact t cap start repositioned _ _
              start r vs aus m' eq_refl Hok' Hrun)
    as (consumed & Hsplit & Hvs & Has & Hmin & Hcont & Haq & Hclock & Hbase).
  assert (Hsame : consumed0 = consumed).
  { apply (app_inv_tail (demuxer m')). congruence. }
  subst consumed0.
  assert (Hstart_m : forall p,
             (video_unit_from t start p -> video_unit_from t m p)
             /\ (audio_unit_from t start p -> audio_unit_from t m p)).
  { intros p. unfold video_unit_from, audio_unit_from, CalculateVideoPts,
      CalculateAudioPts. rewrite Hvi, Hai, Hvtb, Hatb. split; auto. }
  assert (Hflag_v : (if IsVideoOpened start then false else true)
                    = negb (IsVideoOpened m))
    by (rewrite Hvo; destruct (IsVideoOpened m); reflexivity).
  assert (Hflag_a : (if IsAudioOpened start then false else true)
                    = negb (IsAudioOpened m))
    by (rewrite Hao; destruct (IsAudioOpened m); reflexivity).
  assert (Hblocks : flat_map (accepted_audio_blocks t start) consumed
                    = flat_map (accepted_audio_blocks t m) consumed)
    by (apply flat_map_ext_eq; exact Hab).
  assert (Hloader' : frame_loader m' = false).
  { pose proof (f_equal frame_loader Hs) as Hl. cbn in Hl. congruence. }
  split; [| split; [exact Hs
          | split; [| split; [exact Hexit | split; [| split; [| split]]]]]].
  - exists (call thread_start
              (set_frame_loader true
                 (set_finished_reading false (set_keep_loading true m')))).
    assert (Hstarted : StartDecodingThread m'
                       = Some (call thread_start
                                 (set_frame_loader true
                                    (set_finished_reading false
                                       (set_keep_loading true m'))))).
    { unfold StartDecodingThread. cbv zeta.
      change (frame_loader (set_finished_reading false
                              (set_keep_loading true m')))
        with (frame_loader m').
      rewrite Hloader'. reflexivity. }
    split; [exact Hstarted |].
    unfold Seek. destruct Hopen as [Hv | Ha];
      [rewrite Hv | rewrite Ha, orb_true_r]; cbn [orb negb];
      apply Z.leb_le in Hresp; rewrite Hresp;
      fold (resync_start repositioned m); fold start;
      unfold AdjustSeekedPosition, AdjustSeekedPosition_run,
        AdjustSeekedPosition_from;
      rewrite Hmax, Hdem, Hrun, Hstarted; reflexivity.
  - exists consumed. split; [exact Hsplit |].
    split.
    { rewrite Hvs, Hflag_v, <- Hvreach. unfold video_reached.
      rewrite Hvo. reflexivity. }
    split.
    { rewrite Has, Hflag_a, <- Hareach. unfold audio_reached.
      rewrite Hao. reflexivity. }
    split.
    { intros front back Hcut Hback.
      rewrite <- Hvreach, <- Hareach. unfold video_reached, audio_reached.
      rewrite Hvo, Hao, <- Hflag_v, <- Hflag_a.
      exact (Hmin _ _ Hcut Hback). }
    split.
    { intros Hv. rewrite <- Hvo in Hv.
      destruct (Hok Hv) as (_ & Hempty & _ & Hcap).
      rewrite (Hcont Hv), (VideoQueue_contents_empty _ Hempty), <- Hcap.
      apply fold_left_ext_eq. intros frames p. apply Hrq. }
    split.
    { intros Ha Hr. rewrite (Haq Hr), Hblocks, Haq0, Ha. reflexivity. }
    split.
    { rewrite Hclock, Hflag_a.
      destruct (IsAudioOpened m) eqn:Ha; cbn [negb].
      - rewrite Hblocks.
        destruct (flat_map (accepted_audio_blocks t m) consumed);
          unfold resync_audio_clock; [rewrite Hcons0, Htime0; reflexivity |].
        rewrite Hapts, Hrate0. reflexivity.
      - rewrite (accepted_audio_blocks_closed t m consumed Ha).
        unfold resync_audio_clock. rewrite Hcons0, Htime0. reflexivity. }
    split.
    + intros H1. destruct (Hvs0 H1) as [Hinit | Hex].
      * left. rewrite Hvo in Hinit. destruct (IsVideoOpened m);
          [discriminate | reflexivity].
      * right. eapply Exists_impl; [| exact Hex]. intros p. apply Hstart_m.
    + intros H1. destruct (Has0 H1) as [Hinit | Hex].
      * left. rewrite Hao in Hinit. destruct (IsAudioOpened m);
          [discriminate | reflexivity].
      * right. eapply Exists_impl; [| exact Hex]. intros p. apply Hstart_m.
  - intros Hv. rewrite <- Hvo in Hv. destruct (Hokf Hv) as (_ & _ & _ & Hlate).
    unfold CalculateVideoPts. rewrite <- Hvtb. exact Hlate.
  - cbn zeta. unfold AdjustSeekedPosition_from. rewrite Hmax.
    destruct (@AdjustSeekedPosition_loop_without_early_audio t (cap - 1) start
                repositioned
                (if IsVideoOpened start then false else true)
                (if IsAudioOpened start then false else true)
                start eq_refl) as (Hfst & Hsnd).
    rewrite Hfst, Hsnd, Hrun. split; reflexivity.
  - rewrite <- Hvo.
    destruct (regular_exit r vs aus && IsVideoOpened start) eqn:Hregular.
    + destruct Hbase as (Hpts & Hacc).
      apply andb_prop in Hregular as [_ Hv].
      split; [rewrite Hpts; apply Hvpts |]. split; [exact Hacc |].
      intros f rest Hf.
      destruct (Hokf Hv) as (Hwf' & _).
      destruct (VideoQueue_contents_head Hwf' Hf) as (_ & Hfront & _).
      exact Hfront.
    + rewrite <- Hpts0, <- Hacc0. exact Hbase.
  - intros Hv Ha Hr Hseeked.
    rewrite <- Hvo in Hv. rewrite <- Hao in Ha.
    destruct (Hok Hv) as (Hok0 & Hempty & _).
    rewrite Hv, Ha in Hrun.
    destruct (@AdjustSeekedPosition_loop_video_only t cap repositioned start
                r vs aus m' Hv Ha Hok0 Hempty Hrun Hr Hseeked)
      as (f & Hf & Hle & Hpts & Hacc).
    exists f. unfold CalculateVideoPts in *. rewrite <- Hvtb.
    repeat split; assumption.
Qed.

Lemma AdjustSeekedPosition_discards_units_before_target_witness :
  let frame ts := {| best_effort_timestamp := ts; pkt_size := 100;
                     frame_data := [ts] |} in
  let video ts := {| stream_index := 0; send_response := 0;
                     received := [mkReceived (frame ts) 0 [] []];
                     receive_end := AVERROR_EAGAIN |} in
  let audio := {| stream_index := 1; send_response := 0;
                  received := [mkReceived (frame 0) 0 [1; 2; 3] [];
                               mkReceived (frame 27648) 0 [4; 5; 6] []];
                  receive_end := AVERROR_EAGAIN |} in
  let m := {| demuxer := []; is_paused := false; finished_reading := false;
              keep_loading := true; frame_loader := true;
              video_stream_index := 0;
              video_time_base := mkRational 1 25;
              video_fifo := snd (VideoQueue_init 2 None VideoQueue_new);
              video_frame := {| created := true; pixels := [] |};
              delta_time_accumulator := 0; last_video_pts := 0;
              video_opened := true; attached_pic := false;
              audio_stream_index := 1;
              audio_time_base := mkRational 1 48000;
              audio_fifo := snd (AudioQueue_init 2 1000 true AudioQueue_new);
              audio_frames_consumed := 0; audio_time := 0;
              audio_sample_rate := 48000; audio_opened := true;
              calls := [] |} in
  let repositioned := [video 0; audio; video 1; video 2] in
  let t := to_double (4 # 100) in
  exists m' started,
    StartDecodingThread m' = Some started
    /\ Seek t 0 repositioned m = Some (Success, Play started)
    /\ VideoQueue_contents (video_fifo m') = [frame 1]
    /\ AudioQueue_samples (audio_fifo m') = [4; 5; 6]
    /\ audio_time m' = to_double (576 # 1000)
    /\ audio_frames_consumed m' = 27647
    /\ last_video_pts m' = t
    /\ demuxer m' = [video 2].
Proof.
  intros frame video audio m repositioned t.
  set (X := AdjustSeekedPosition_run t (resync_start repositioned m)).
  assert (Hrun : X = (Success, (true, true), snd X))
    by (vm_compute; reflexivity).
  assert (Hopen : IsVideoOpened m = true \/ IsAudioOpened m = true)
    by (left; reflexivity).
  assert (Hwf : IsVideoOpened m = true -> VideoQueue_wf (video_fifo m)).
  { intros _. queue_wf_by_computation. }
  assert (Hvtb : IsVideoOpened m = true -> den (video_time_base m) <> 0)
    by (intros _; discriminate).
  assert (Hatb : IsAudioOpened m = true -> den (audio_time_base m) <> 0)
    by (intros _; discriminate).
  assert (Hresp : 0 <= 0) by lia.
  destruct (@AdjustSeekedPosition_discards_units_before_target
              t 0 repositioned m Success true true (snd X)
              Hopen Hwf Hvtb Hatb Hresp Hrun)
    as ((started & Hstarted & Hseek) & _).
  exists (snd X), started.
  split; [exact Hstarted |]. split; [exact Hseek |].
  vm_compute. repeat split.
Defined.

(* ================================================================= *)
(** * Further properties *)

(** ** The video queue on its own *)

(** X1.  [init(capacity)] succeeds exactly when [capacity >= 2] and every
    frame can be allocated; the queue is then consistent and empty with that
    capacity, whatever it held before.  With [capacity <= 1] it fails and
    leaves the queue without storage, also a queue that was in use. *)
Theorem VideoQueue_init_outcome :
  forall capacity alloc_fail q0,
    0 <= capacity < 65536 ->
    let r := fst (VideoQueue_init capacity alloc_fail q0) in
    let q := snd (VideoQueue_init capacity alloc_fail q0) in
    (r = Success <->
     2 <= capacity
     /\ forall i, alloc_fail = Some i -> (Z.to_nat capacity <= i)%nat)
    /\ (r = Success ->
        VideoQueue_wf q /\ VideoQueue_capacity q = capacity
        /\ VideoQueue_contents q = []
        /\ forall i, VideoQueue_slot q i = frame_defaults)
    /\ (capacity <= 1 -> _data q = None /\ VideoQueue_size q = 0).
Proof.
  intros capacity alloc_fail q0 Hrange r q.
  assert (Hslots : forall n i,
             nth i (repeat frame_defaults n) frame_defaults = frame_defaults).
  { intros n i. destruct (Nat.lt_ge_cases i n) as [Hlt | Hge].
    - apply nth_repeat_lt. exact Hlt.
    - apply nth_overflow. rewrite repeat_length. exact Hge. }
  split; [| split].
  - subst r. unfold VideoQueue_init.
    destruct (capacity <=? 1) eqn:Hc.
    + apply Z.leb_le in Hc. cbn [fst]. split; [discriminate | lia].
    + apply Z.leb_gt in Hc. destruct alloc_fail as [i |].
      * destruct (i <? Z.to_nat capacity)%nat eqn:Hi; cbn [fst].
        -- apply Nat.ltb_lt in Hi. split; [discriminate |].
           intros [_ Hall]. specialize (Hall i eq_refl). lia.
        -- apply Nat.ltb_ge in Hi. split; [| reflexivity].
           intros _. split; [lia |]. intros j Hj. injection Hj as <-. exact Hi.
      * cbn [fst]. split; [| reflexivity].
        intros _. split; [lia |]. intros j Hj. discriminate Hj.
  - intros Hr.
    destruct (VideoQueue_init capacity alloc_fail q0) as [r0 q1] eqn:Hinit.
    subst r q. cbn [fst snd] in *. subst r0.
    destruct (VideoQueue_init_wf _ _ Hrange Hinit) as (Hwf & Hs & Hc).
    split; [exact Hwf |]. split; [exact Hc |].
    split; [apply VideoQueue_contents_empty; exact Hs |].
    intros i. unfold VideoQueue_init in Hinit.
    destruct (capacity <=? 1); [discriminate |].
    unfold VideoQueue_slot.
    destruct alloc_fail as [j |];
      [destruct (j <? Z.to_nat capacity)%nat; [discriminate |] |];
      injection Hinit as <-; cbn [_data]; apply Hslots.
  - intros Hc. subst q. unfold VideoQueue_init.
    apply Z.leb_le in Hc. rewrite Hc. cbn [snd _data].
    unfold VideoQueue_free, VideoQueue_clear, VideoQueue_size.
    destruct (_data q0); split; reflexivity.
Qed.

Lemma VideoQueue_init_outcome_witness :
  fst (VideoQueue_init 25 (Some 30%nat) VideoQueue_new) = Success
  /\ fst (VideoQueue_init 25 (Some 3%nat) VideoQueue_new) = Error
  /\ _data (snd (VideoQueue_init 1 None
                   (snd (VideoQueue_init 25 None VideoQueue_new)))) = None.
Proof.
  assert (Hrange : 0 <= 25 < 65536) by lia.
  assert (Hsmall : 0 <= 1 < 65536) by lia.
  destruct (@VideoQueue_init_outcome 25 (Some 30%nat) VideoQueue_new Hrange)
    as (Hiff & _).
  destruct (@VideoQueue_init_outcome 1 None
              (snd (VideoQueue_init 25 None VideoQueue_new)) Hsmall)
    as (_ & _ & Hlost).
  split; [| split].
  - apply Hiff. split; [lia |]. intros i Hi. injection Hi as <-.
    vm_compute. repeat constructor.
  - reflexivity.
  - apply Hlost. lia.
Defined.

Lemma VideoQueue_commit_appends :
  forall f q,
    VideoQueue_wf q -> VideoQueue_size q < VideoQueue_capacity q ->
    VideoQueue_wf (VideoQueue_commit f q)
    /\ VideoQueue_contents (VideoQueue_commit f q)
       = VideoQueue_contents q ++ [f]
    /\ VideoQueue_size (VideoQueue_commit f q) = VideoQueue_size q + 1
    /\ VideoQueue_capacity (VideoQueue_commit f q) = VideoQueue_capacity q.
Proof.
  intros f q Hwf Hfree. unfold VideoQueue_commit.
  pose proof (VideoQueue_store_back_wf f Hwf) as Hwf1.
  assert (Hfree1 : VideoQueue_size (VideoQueue_store_back f q)
                   < VideoQueue_capacity (VideoQueue_store_back f q))
    by exact Hfree.
  split; [apply VideoQueue_push_wf; assumption |].
  split; [| split; [| reflexivity]].
  - rewrite VideoQueue_push_contents by assumption.
    rewrite VideoQueue_store_back_back, VideoQueue_store_back_contents
      by assumption.
    reflexivity.
  - rewrite VideoQueue_push_size by assumption. reflexivity.
Qed.

Lemma VideoQueue_take_all :
  forall n q,
    VideoQueue_wf q -> n = length (VideoQueue_contents q) ->
    fst (VideoQueue_take n q) = VideoQueue_contents q
    /\ VideoQueue_wf (snd (VideoQueue_take n q))
    /\ VideoQueue_size (snd (VideoQueue_take n q)) = 0.
Proof.
  induction n as [| n IH]; intros q Hwf Hn.
  - pose proof (VideoQueue_contents_length Hwf) as Hlen.
    destruct (VideoQueue_contents q); [| discriminate Hn].
    cbn in *. repeat split; auto.
  - assert (Hpos : 0 < VideoQueue_size q).
    { rewrite <- (VideoQueue_contents_length Hwf), <- Hn. lia. }
    pose proof (VideoQueue_front_pop Hwf Hpos) as Hfront.
    cbn [VideoQueue_take].
    destruct (VideoQueue_take n (VideoQueue_pop q)) as [rest q'] eqn:Htake.
    destruct (IH (VideoQueue_pop q)) as (Hfst & Hwf' & Hsize').
    + apply VideoQueue_pop_wf. exact Hwf.
    + rewrite Hfront in Hn. cbn [length] in Hn. lia.
    + rewrite Htake in *. cbn [fst snd] in *.
      rewrite Hfront, Hfst. repeat split; assumption.
Qed.

(** X2.  First in, first out: frames committed by the producer (slot filled
    through [back()], then [push()]) while there is room are appended behind
    the queued ones, and the consumer's [front()] / [pop()] hands all of them
    out oldest first and leaves the queue empty. *)
Theorem VideoQueue_first_in_first_out :
  forall fs q,
    VideoQueue_wf q ->
    VideoQueue_size q + Z.of_nat (length fs) <= VideoQueue_capacity q ->
    let q1 := VideoQueue_commit_all fs q in
    let queued := VideoQueue_contents q ++ fs in
    VideoQueue_contents q1 = queued
    /\ VideoQueue_size q1 = Z.of_nat (length queued)
    /\ fst (VideoQueue_take (length queued) q1) = queued
    /\ VideoQueue_size (snd (VideoQueue_take (length queued) q1)) = 0.
Proof.
  intros fs q Hwf Hroom q1 queued. subst q1 queued.
  assert (Hfill : VideoQueue_wf (VideoQueue_commit_all fs q)
                  /\ VideoQueue_contents (VideoQueue_commit_all fs q)
                     = VideoQueue_contents q ++ fs).
  { revert q Hwf Hroom. induction fs as [| f rest IH]; intros q Hwf Hroom.
    - cbn. rewrite app_nil_r. split; [exact Hwf | reflexivity].
    - cbn [VideoQueue_commit_all length] in *.
      destruct (@VideoQueue_commit_appends f q Hwf) as (Hwf1 & Hc1 & Hs1 & Hcap1);
        [lia |].
      destruct (IH (VideoQueue_commit f q) Hwf1) as (Hwf2 & Hc2);
        [rewrite Hs1, Hcap1; lia |].
      split; [exact Hwf2 |].
      rewrite Hc2, Hc1, <- app_assoc. reflexivity. }
  destruct Hfill as (Hwf1 & Hcont).
  split; [exact Hcont |].
  split; [rewrite <- Hcont; symmetry; apply VideoQueue_contents_length;
          exact Hwf1 |].
  rewrite <- Hcont.
  destruct (@VideoQueue_take_all (length (VideoQueue_contents
                                            (VideoQueue_commit_all fs q)))
              (VideoQueue_commit_all fs q) Hwf1 eq_refl)
    as (Hfst & _ & Hsize).
  split; assumption.
Qed.

Lemma VideoQueue_first_in_first_out_witness :
  let f ts := {| best_effort_timestamp := ts; pkt_size := 100;
                 frame_data := [ts] |} in
  let q := snd (VideoQueue_init 3 None VideoQueue_new) in
  fst (VideoQueue_take 3 (VideoQueue_commit_all [f 1; f 2; f 3] q))
  = [f 1; f 2; f 3].
Proof.
  intros f q.
  assert (Hwf : VideoQueue_wf q) by queue_wf_by_computation.
  assert (Hroom : VideoQueue_size q + Z.of_nat (length [f 1; f 2; f 3])
                  <= VideoQueue_capacity q) by (vm_compute; discriminate).
  destruct (@VideoQueue_first_in_first_out [f 1; f 2; f 3] q Hwf Hroom)
    as (_ & _ & Htake & _).
  exact Htake.
Defined.

(** X3.  On a full queue ([size() = capacity()]) the slot [back()] points to
    is the slot [front()] points to: what the producer writes there replaces
    the oldest committed frame. *)
Theorem VideoQueue_back_is_front_when_full :
  forall f q,
    VideoQueue_wf q ->
    VideoQueue_size q = VideoQueue_capacity q ->
    _insert_idx q = _delete_idx q
    /\ VideoQueue_front (VideoQueue_store_back f q) = f.
Proof.
  intros f q Hwf Hfull.
  pose proof (VideoQueue_store_back_back f Hwf) as Hback.
  destruct Hwf as (d & Hd & Hlen & Hcap & Hs & Hdel & Hins).
  unfold VideoQueue_size, VideoQueue_capacity in Hfull.
  assert (Hsame : _insert_idx q = _delete_idx q).
  { rewrite Hins, Hfull.
    replace (_delete_idx q + _capacity q)
      with (_delete_idx q + 1 * _capacity q) by ring.
    rewrite Z_mod_plus_full. apply Z.mod_small. exact Hdel. }
  split; [exact Hsame |].
  unfold VideoQueue_front. unfold VideoQueue_back in Hback.
  cbn [_delete_idx _insert_idx VideoQueue_store_back] in *.
  rewrite <- Hsame. exact Hback.
Qed.

Lemma VideoQueue_back_is_front_when_full_witness :
  let f ts := {| best_effort_timestamp := ts; pkt_size := 100;
                 frame_data := [ts] |} in
  let q := VideoQueue_commit_all [f 1; f 2]
             (snd (VideoQueue_init 2 None VideoQueue_new)) in
  VideoQueue_front q = f 1
  /\ VideoQueue_front (VideoQueue_store_back (f 3) q) = f 3.
Proof.
  intros f q. split; [reflexivity |].
  assert (Hwf : VideoQueue_wf q) by queue_wf_by_computation.
  apply (@VideoQueue_back_is_front_when_full (f 3) q Hwf). reflexivity.
Defined.

(** X4.  [clear()] leaves a consistent, empty queue of the same capacity
    in which every slot is unreferenced; on a queue without storage it does
    nothing. *)
Theorem VideoQueue_clear_empties :
  forall q,
    (VideoQueue_wf q ->
     VideoQueue_wf (VideoQueue_clear q)
     /\ VideoQueue_contents (VideoQueue_clear q) = []
     /\ VideoQueue_capacity (VideoQueue_clear q) = VideoQueue_capacity q
     /\ forall i, VideoQueue_slot (VideoQueue_clear q) i = frame_defaults)
    /\ (_data q = None -> VideoQueue_clear q = q).
Proof.
  intros q. split.
  - intros Hwf.
    destruct (VideoQueue_clear_wf Hwf) as (Hwfc & Hsize & Hcap).
    split; [exact Hwfc |].
    split; [apply VideoQueue_contents_empty; exact Hsize |].
    split; [exact Hcap |].
    intros i. destruct Hwf as (d & Hd & _).
    unfold VideoQueue_slot, VideoQueue_clear. rewrite Hd. cbn [_data].
    destruct (Nat.lt_ge_cases (Z.to_nat i) (length d)) as [Hlt | Hge].
    + rewrite (nth_indep _ frame_defaults (av_frame_unref frame_defaults))
        by (rewrite length_map; exact Hlt).
      rewrite map_nth. reflexivity.
    + apply nth_overflow. rewrite length_map. exact Hge.
  - intros Hnone. unfold VideoQueue_clear. rewrite Hnone. reflexivity.
Qed.

(** ** The audio queue on its own *)

(** X5.  [init(format, channels, capacity)] succeeds exactly when neither
    [capacity] nor [channels] is zero and the FIFO can be allocated; the queue
    is then empty with that capacity.  With a zero parameter the queue is
    left as it was; when the allocation fails the queue has no FIFO. *)
Theorem AudioQueue_init_outcome :
  forall channels capacity alloc_ok q,
    let r := fst (AudioQueue_init channels capacity alloc_ok q) in
    let q' := snd (AudioQueue_init channels capacity alloc_ok q) in
    (r = Success <-> capacity <> 0 /\ channels <> 0 /\ alloc_ok = true)
    /\ (r = Success ->
        AudioQueue_samples q' = []
        /\ AudioQueue_capacity q' = Z.to_nat capacity
        /\ AudioQueue_ok q')
    /\ (capacity = 0 \/ channels = 0 -> q' = q)
    /\ (capacity <> 0 -> channels <> 0 -> alloc_ok = false -> _fifo q' = None).
Proof.
  intros channels capacity alloc_ok q r q'. subst r q'.
  unfold AudioQueue_init.
  destruct (capacity =? 0) eqn:Hc; [apply Z.eqb_eq in Hc | apply Z.eqb_neq in Hc];
    (destruct (channels =? 0) eqn:Hch;
     [apply Z.eqb_eq in Hch | apply Z.eqb_neq in Hch]);
    cbn [orb fst snd];
    try (repeat split; try discriminate; try tauto;
         intros; tauto || congruence).
  destruct alloc_ok; cbn [fst snd].
  - split; [split; [intros _; repeat split; assumption | reflexivity] |].
    split.
    + intros _. unfold AudioQueue_samples, AudioQueue_capacity, AudioQueue_ok,
        fifo_ok, av_audio_fifo_space, av_audio_fifo_size, av_audio_fifo_alloc.
      cbn [_fifo fifo_samples allocated_samples length].
      repeat split; lia.
    + split; [intros [H | H]; contradiction | intros _ _ H; discriminate H].
  - split; [split; [discriminate | intros (_ & _ & H); discriminate H] |].
    split; [discriminate |].
    split; [intros [H | H]; contradiction | reflexivity].
Qed.

Lemma firstn_min_length :
  forall (A : Type) n (l : list A), firstn (Nat.min n (length l)) l = firstn n l.
Proof.
  intros A n l. destruct (Nat.le_ge_cases n (length l)) as [Hle | Hge].
  - rewrite Nat.min_l by exact Hle. reflexivity.
  - rewrite Nat.min_r by exact Hge.
    rewrite firstn_all, firstn_all2 by exact Hge. reflexivity.
Qed.

Lemma skipn_min_length :
  forall (A : Type) n (l : list A), skipn (Nat.min n (length l)) l = skipn n l.
Proof.
  intros A n l. destruct (Nat.le_ge_cases n (length l)) as [Hle | Hge].
  - rewrite Nat.min_l by exact Hle. reflexivity.
  - rewrite Nat.min_r by exact Hge.
    rewrite skipn_all, skipn_all2 by exact Hge. reflexivity.
Qed.

Lemma AudioQueue_pop_allocated :
  forall f n,
    AudioQueue_pop n {| _fifo := Some f |}
    = (firstn n (fifo_samples f),
       {| _fifo := Some {| fifo_samples := skipn n (fifo_samples f);
                           allocated_samples := allocated_samples f |} |}).
Proof.
  intros f n. unfold AudioQueue_pop, av_audio_fifo_read, av_audio_fifo_size.
  cbn [_fifo]. rewrite firstn_min_length, skipn_min_length. reflexivity.
Qed.

(** X6.  Samples leave the audio queue in the order they were pushed: after
    a push that fits the free space, [pop(n)] returns the first [n] of the
    stored samples followed by the pushed ones (all of them when fewer are
    stored) and keeps the rest. *)
Theorem AudioQueue_push_then_pop :
  forall f data n,
    (length data <= av_audio_fifo_space f)%nat ->
    let q1 := snd (AudioQueue_push data {| _fifo := Some f |}) in
    fst (AudioQueue_pop n q1) = firstn n (fifo_samples f ++ data)
    /\ AudioQueue_samples (snd (AudioQueue_pop n q1))
       = skipn n (fifo_samples f ++ data)
    /\ (fifo_samples f = [] ->
        fst (AudioQueue_pop (length data) q1) = data
        /\ AudioQueue_samples (snd (AudioQueue_pop (length data) q1)) = []).
Proof.
  intros f data n Hfit q1. subst q1.
  rewrite AudioQueue_push_fits by exact Hfit.
  rewrite !AudioQueue_pop_allocated. cbn [fst snd fifo_samples].
  unfold AudioQueue_samples. cbn [_fifo fifo_samples].
  split; [reflexivity |]. split; [reflexivity |].
  intros Hempty. rewrite Hempty. cbn [app].
  rewrite firstn_all, skipn_all. split; reflexivity.
Qed.

Lemma AudioQueue_push_then_pop_witness :
  let q := snd (AudioQueue_init 2 8 true AudioQueue_new) in
  let q1 := snd (AudioQueue_push [1; 2; 3] q) in
  fst (AudioQueue_pop 2 (snd (AudioQueue_push [4; 5] q1))) = [1; 2]
  /\ fst (AudioQueue_pop 3 q1) = [1; 2; 3].
Proof.
  intros q q1.
  set (f1 := {| fifo_samples := [1; 2; 3]; allocated_samples := 8 |}).
  set (first := [1; 2; 3]). set (second := [4; 5]).
  split.
  - assert (Hfit : (length second <= av_audio_fifo_space f1)%nat)
      by (vm_compute; repeat constructor).
    destruct (@AudioQueue_push_then_pop f1 second 2%nat Hfit) as (Hpop & _).
    exact Hpop.
  - assert (Hfit : (length first
                    <= av_audio_fifo_space (av_audio_fifo_alloc 8))%nat)
      by (vm_compute; repeat constructor).
    destruct (@AudioQueue_push_then_pop (av_audio_fifo_alloc 8)
                first 3%nat Hfit) as (_ & _ & Hall).
    destruct (Hall eq_refl) as [Hdata _]. exact Hdata.
Defined.

(** X7.  [pop], [drain] and [clear] never change [capacity()]: [pop(n)] and
    [drain(n)] remove [min(n, size())] samples, [clear] removes all.  A
    [push] keeps the capacity whenever the pushed samples fit it, and after
    every one of the four the FIFO still holds no more than it is allocated
    for. *)
Theorem AudioQueue_capacity_kept :
  forall f n data,
    fifo_ok f ->
    let q := {| _fifo := Some f |} in
    (length (fst (AudioQueue_pop n q)) = Nat.min n (AudioQueue_size q)
     /\ AudioQueue_size (snd (AudioQueue_pop n q))
        = (AudioQueue_size q - n)%nat
     /\ AudioQueue_capacity (snd (AudioQueue_pop n q)) = AudioQueue_capacity q
     /\ AudioQueue_ok (snd (AudioQueue_pop n q)))
    /\ (AudioQueue_size (AudioQueue_drain n q) = (AudioQueue_size q - n)%nat
        /\ AudioQueue_capacity (AudioQueue_drain n q) = AudioQueue_capacity q
        /\ AudioQueue_ok (AudioQueue_drain n q))
    /\ (AudioQueue_size (AudioQueue_clear q) = 0%nat
        /\ AudioQueue_capacity (AudioQueue_clear q) = AudioQueue_capacity q
        /\ AudioQueue_ok (AudioQueue_clear q))
    /\ (AudioQueue_ok (snd (AudioQueue_push data q))
        /\ ((length data <= AudioQueue_capacity q)%nat ->
            AudioQueue_capacity (snd (AudioQueue_push data q))
            = AudioQueue_capacity q)).
Proof.
  intros f n data Hok q. subst q. unfold fifo_ok in Hok.
  rewrite AudioQueue_pop_allocated, AudioQueue_push_allocated.
  pose proof (drain_for_push_size (length data) f) as Hdsize.
  pose proof (drain_for_push_allocated (length data) f) as Hdalloc.
  unfold AudioQueue_size, AudioQueue_capacity, AudioQueue_ok, AudioQueue_drain,
    AudioQueue_clear, fifo_ok, av_audio_fifo_drain, av_audio_fifo_space,
    av_audio_fifo_size in *.
  cbn [fst snd _fifo fifo_samples allocated_samples].
  rewrite Hdalloc, !length_app, Hdsize, !length_skipn, length_firstn.
  clear Hdsize Hdalloc.
  repeat split; try lia; try intros Hfit;
    repeat match goal with
           | |- context [(?a <? ?b)%nat] => destruct (Nat.ltb_spec a b)
           end; lia.
Qed.

Lemma AudioQueue_capacity_kept_witness :
  let f := {| fifo_samples := [1; 2; 3]; allocated_samples := 4 |} in
  let q := {| _fifo := Some f |} in
  fst (AudioQueue_pop 5 q) = [1; 2; 3]
  /\ AudioQueue_capacity (snd (AudioQueue_pop 5 q)) = 4%nat
  /\ AudioQueue_capacity (snd (AudioQueue_push [7; 8; 9] q)) = 4%nat.
Proof.
  intros f q.
  assert (Hok : fifo_ok f) by (vm_compute; repeat constructor).
  destruct (@AudioQueue_capacity_kept f 5%nat [7; 8; 9] Hok)
    as ((_ & _ & Hcap & _) & _ & _ & (_ & Hpush)).
  split; [reflexivity |]. split; [exact Hcap |].
  apply Hpush. vm_compute. repeat constructor.
Defined.

(** ** Audio consumption and the audio clock *)

Lemma skipn_repeat_rest :
  forall (A : Type) (x : A) k n, skipn k (repeat x n) = repeat x (n - k).
Proof.
  intros A x k. induction k as [| k IH]; intros n.
  - rewrite Nat.sub_0_r. reflexivity.
  - destruct n as [| n]; [reflexivity |]. cbn. apply IH.
Qed.

Lemma GetAudioFrame_valid_call :
  forall f sample_count m,
    audio_fifo m = {| _fifo := Some f |} ->
    0 <= sample_count ->
    let n := Nat.min (Z.to_nat sample_count) (av_audio_fifo_size f) in
    let consumed := usize (audio_frames_consumed m + Z.of_nat n) in
    GetAudioFrame true sample_count m
    = (Z.of_nat n,
       Some (firstn n (fifo_samples f)
             ++ repeat 0 (Z.to_nat sample_count - n)),
       set_audio_clock consumed
         (audio_clock consumed (audio_sample_rate m))
         (set_audio_fifo
            {| _fifo := Some {| fifo_samples := skipn n (fifo_samples f);
                                allocated_samples := allocated_samples f |} |}
            m)).
Proof.
  intros f sample_count m Hfifo Hcount n consumed.
  unfold GetAudioFrame.
  apply Z.ltb_ge in Hcount as Hb. rewrite Hb. cbn [negb orb].
  rewrite Hfifo, AudioQueue_pop_allocated.
  assert (Hlen : length (firstn (Z.to_nat sample_count) (fifo_samples f)) = n)
    by (rewrite length_firstn; reflexivity).
  assert (Hfirst : firstn (Z.to_nat sample_count) (fifo_samples f)
                   = firstn n (fifo_samples f))
    by (subst n; unfold av_audio_fifo_size; symmetry;
        apply firstn_min_length).
  assert (Hskip : skipn (Z.to_nat sample_count) (fifo_samples f)
                  = skipn n (fifo_samples f))
    by (subst n; unfold av_audio_fifo_size; symmetry;
        apply skipn_min_length).
  rewrite Hlen, skipn_repeat_rest, Hfirst, Hskip.
  assert (Hpos : (Z.of_nat n <? 0) = false) by (apply Z.ltb_ge; lia).
  rewrite Hpos. reflexivity.
Qed.

(** X8.  [GetAudioFrame(output, sample_count)] with a null buffer or a
    negative count returns -1 and touches nothing.  Otherwise, the sample
    rate not being 0, it returns the number of samples read,
    [min(sample_count, size())]: the buffer holds the oldest queued samples
    followed by silence up to [sample_count], the queue loses exactly the
    samples read, [audio_frames_consumed] grows by that number and
    [audio_time] is the quotient, rounded to a [double], of the new count and
    the sample rate; no other member changes. *)
Theorem GetAudioFrame_reads_oldest_samples :
  forall f sample_count m,
    audio_fifo m = {| _fifo := Some f |} ->
    audio_sample_rate m <> 0 ->
    0 <= sample_count ->
    let n := Nat.min (Z.to_nat sample_count) (av_audio_fifo_size f) in
    let r := GetAudioFrame true sample_count m in
    let consumed := usize (audio_frames_consumed m + Z.of_nat n) in
    fst (fst r) = Z.of_nat n
    /\ snd (fst r)
       = Some (firstn n (fifo_samples f)
               ++ repeat 0 (Z.to_nat sample_count - n))
    /\ (forall buffer, snd (fst r) = Some buffer ->
        length buffer = Z.to_nat sample_count)
    /\ AudioQueue_samples (audio_fifo (snd r)) = skipn n (fifo_samples f)
    /\ audio_frames_consumed (snd r) = consumed
    /\ audio_time (snd r)
       = to_double (double_of_Z consumed
                    / double_of_Z (audio_sample_rate m))%Q
    /\ set_audio_clock 0 0 (set_audio_fifo AudioQueue_new (snd r))
       = set_audio_clock 0 0 (set_audio_fifo AudioQueue_new m)
    /\ (forall valid count,
          valid = false \/ count < 0 ->
          GetAudioFrame valid count m = (-1, None, m)).
Proof.
  intros f sample_count m Hfifo _ Hcount n r consumed.
  subst r. rewrite (GetAudioFrame_valid_call _ Hfifo Hcount).
  fold n. fold consumed. cbn [fst snd].
  split; [reflexivity |]. split; [reflexivity |].
  split.
  { intros buffer Hbuf. injection Hbuf as <-.
    rewrite length_app, length_firstn, repeat_length.
    unfold n, av_audio_fifo_size. lia. }
  split; [reflexivity |]. split; [reflexivity |]. split; [reflexivity |].
  split; [reflexivity |].
  intros valid count [-> | Hneg]; unfold GetAudioFrame; [reflexivity |].
  apply Z.ltb_lt in Hneg. rewrite Hneg, orb_true_r. reflexivity.
Qed.

Lemma GetAudioFrame_reads_oldest_samples_witness :
  let m := mkMedia [] false false true false (-1) (mkRational 1 25)
             VideoQueue_new {| created := false; pixels := [] |} 0 0
             false false 1 (mkRational 1 48000)
             (snd (AudioQueue_push [5; 6; 7]
                     (snd (AudioQueue_init 2 8 true AudioQueue_new))))
             27645 (audio_clock 27645 48000) 48000 true [] in
  fst (GetAudioFrame true 5 m) = (3, Some [5; 6; 7; 0; 0])
  /\ audio_frames_consumed (snd (GetAudioFrame true 5 m)) = 27648
  /\ audio_time (snd (GetAudioFrame true 5 m)) = to_double (576 # 1000)
  /\ (audio_time m < audio_time (snd (GetAudioFrame true 5 m)))%Q
  /\ GetAudioFrame true (-1) m = (-1, None, m).
Proof.
  intros m.
  set (f := {| fifo_samples := [5; 6; 7]; allocated_samples := 8 |}).
  assert (Hfifo : audio_fifo m = {| _fifo := Some f |}) by reflexivity.
  assert (Hrate : audio_sample_rate m <> 0) by discriminate.
  assert (Hcount : 0 <= 5) by lia.
  destruct (@GetAudioFrame_reads_oldest_samples f 5 m Hfifo Hrate Hcount)
    as (Hn & Hbuf & _ & _ & Hconsumed & Htime & _ & Hbad).
  split.
  { rewrite (surjective_pairing (fst (GetAudioFrame true 5 m))), Hn, Hbuf.
    reflexivity. }
  split; [rewrite Hconsumed; reflexivity |].
  split; [rewrite Htime; vm_compute; reflexivity |].
  split; [rewrite Htime; vm_compute; reflexivity |].
  apply Hbad. right. lia.
Defined.

(** *** Rounding keeps the order *)

Lemma Qpow2_pos : forall e : Z, (0 < 2 ^ e)%Q.
Proof. intros e. apply Qpower_0_lt. reflexivity. Qed.

Lemma Qpow2_inject : forall e : Z, 0 <= e -> (2 ^ e == inject_Z (2 ^ e))%Q.
Proof. intros e He. rewrite (Zpower_Qpower 2 e He). reflexivity. Qed.

Lemma Qpow2_plus : forall a b : Z, (2 ^ (a + b) == 2 ^ a * 2 ^ b)%Q.
Proof. intros a b. apply Qpower_plus. discriminate. Qed.

Lemma Qpow2_le : forall a b : Z, a <= b -> (2 ^ a <= 2 ^ b)%Q.
Proof. intros a b H. apply Qpower_le_compat_l; [exact H | discriminate]. Qed.

Lemma Qpow2_div : forall a b : Z, (2 ^ a / 2 ^ b == 2 ^ (a - b))%Q.
Proof. intros a b. rewrite Qpower_minus by discriminate. reflexivity. Qed.

Lemma Qdiv_pow2_le :
  forall x y e, (x <= y)%Q -> (x / 2 ^ e <= y / 2 ^ e)%Q.
Proof.
  intros x y e H. unfold Qdiv. apply Qmult_le_compat_r; [exact H |].
  apply Qinv_le_0_compat. apply Qlt_le_weak. apply Qpow2_pos.
Qed.

Lemma Qlog2_bounds :
  forall n d ln ld,
    0 <= ln -> 0 <= ld ->
    2 ^ ln <= n < 2 ^ (ln + 1) ->
    2 ^ ld <= Z.pos d < 2 ^ (ld + 1) ->
    (2 ^ (ln - ld - 1) <= n # d)%Q /\ (n # d < 2 ^ (ln - ld + 1))%Q.
Proof.
  intros n d ln ld Hln Hld [Hn1 Hn2] [Hd1 Hd2].
  assert (Hp1 : 0 < 2 ^ ln) by (apply Z.pow_pos_nonneg; lia).
  assert (Hp2 : 0 < 2 ^ ld) by (apply Z.pow_pos_nonneg; lia).
  split.
  - replace (ln - ld - 1) with (ln - (ld + 1)) by lia.
    rewrite Qpower_minus by discriminate.
    rewrite (Qpow2_inject Hln), (@Qpow2_inject (ld + 1)) by lia.
    apply Qle_shift_div_r.
    + change 0%Q with (inject_Z 0). rewrite <- Zlt_Qlt. lia.
    + unfold Qle, Qmult, inject_Z. cbn [Qnum Qden].
      rewrite Pos.mul_1_r, Z.mul_1_r. nia.
  - replace (ln - ld + 1) with (ln + 1 - ld) by lia.
    rewrite Qpower_minus by discriminate.
    rewrite (@Qpow2_inject (ln + 1)), (Qpow2_inject Hld) by lia.
    apply Qlt_shift_div_l.
    + change 0%Q with (inject_Z 0). rewrite <- Zlt_Qlt. lia.
    + unfold Qlt, Qmult, inject_Z. cbn [Qnum Qden].
      rewrite Pos.mul_1_r, Z.mul_1_r. nia.
Qed.

Lemma Qlog2_spec :
  forall q, (0 < q)%Q -> (2 ^ Qlog2 q <= q)%Q /\ (q < 2 ^ (Qlog2 q + 1))%Q.
Proof.
  intros [n d] Hq.
  assert (Hn : 0 < n)
    by (unfold Qlt in Hq; cbn [Qnum Qden] in Hq; lia).
  pose proof (Z.log2_spec n Hn) as Hn12.
  pose proof (Z.log2_spec (Z.pos d) (Pos2Z.is_pos d)) as Hd12.
  rewrite <- !Z.add_1_r in Hn12, Hd12.
  destruct (@Qlog2_bounds n d (Z.log2 n) (Z.log2 (Z.pos d))
              (Z.log2_nonneg n) (Z.log2_nonneg (Z.pos d))
              Hn12 Hd12) as [Hlow Hhigh].
  unfold Qlog2. cbn [Qnum Qden].
  destruct (Qle_bool (2 ^ (Z.log2 n - Z.log2 (Z.pos d))) (n # d)) eqn:Hle.
  - apply Qle_bool_iff in Hle. split; [exact Hle | exact Hhigh].
  - split.
    + exact Hlow.
    + replace (Z.log2 n - Z.log2 (Z.pos d) - 1 + 1)
        with (Z.log2 n - Z.log2 (Z.pos d)) by lia.
      apply Qnot_le_lt. intros Hc. apply Qle_bool_iff in Hc. congruence.
Qed.

Lemma Qlog2_mono :
  forall x y, (0 < x)%Q -> (x <= y)%Q -> Qlog2 x <= Qlog2 y.
Proof.
  intros x y Hx Hxy.
  assert (Hy : (0 < y)%Q) by (eapply Qlt_le_trans; eassumption).
  destruct (Qlog2_spec Hx) as [Hx1 _].
  destruct (Qlog2_spec Hy) as [_ Hy2].
  assert (H : (2 ^ Qlog2 x < 2 ^ (Qlog2 y + 1))%Q).
  { eapply Qle_lt_trans; [exact Hx1 |].
    eapply Qle_lt_trans; [exact Hxy | exact Hy2]. }
  apply Qpower_lt_compat_l_inv in H; [lia | reflexivity].
Qed.

Lemma round_half_even_bounds :
  forall q, Qfloor q <= round_half_even q <= Qfloor q + 1.
Proof.
  intros q. unfold round_half_even.
  destruct (q - inject_Z (Qfloor q) ?= 1 # 2)%Q;
    [destruct (Z.even (Qfloor q)) | |]; lia.
Qed.

Lemma round_half_even_inject_Z :
  forall z, round_half_even (inject_Z z) = z.
Proof.
  intros z. unfold round_half_even. rewrite Qfloor_Z.
  assert (H : (inject_Z z - inject_Z z ?= 1 # 2)%Q = Lt).
  { apply Qlt_alt. setoid_replace (inject_Z z - inject_Z z)%Q with 0%Q by ring.
    reflexivity. }
  rewrite H. reflexivity.
Qed.

Lemma round_half_even_mono :
  forall x y, (x <= y)%Q -> round_half_even x <= round_half_even y.
Proof.
  intros x y Hxy.
  pose proof (Qfloor_resp_le _ _ Hxy) as Hf.
  pose proof (round_half_even_bounds x) as Hbx.
  pose proof (round_half_even_bounds y) as Hby.
  destruct (Z.eq_dec (Qfloor x) (Qfloor y)) as [Heq | Hne]; [| lia].
  clear Hbx Hby Hf.
  unfold round_half_even. rewrite <- Heq.
  set (f := Qfloor x).
  assert (Hr : (x - inject_Z f <= y - inject_Z f)%Q).
  { apply Qplus_le_l with (z := inject_Z f). ring_simplify. exact Hxy. }
  destruct (x - inject_Z f ?= 1 # 2)%Q eqn:Hcx;
    destruct (y - inject_Z f ?= 1 # 2)%Q eqn:Hcy.
  - lia.
  - exfalso. apply Qeq_alt in Hcx. apply Qlt_alt in Hcy.
    rewrite Hcx in Hr. exact (Qlt_not_le _ _ Hcy Hr).
  - destruct (Z.even f); lia.
  - destruct (Z.even f); lia.
  - lia.
  - lia.
  - exfalso. apply Qgt_alt in Hcx. apply Qeq_alt in Hcy.
    rewrite Hcy in Hr. exact (Qlt_not_le _ _ Hcx Hr).
  - exfalso. apply Qgt_alt in Hcx. apply Qlt_alt in Hcy.
    apply (Qlt_irrefl (1 # 2)).
    eapply Qlt_le_trans; [exact Hcx |].
    eapply Qle_trans; [exact Hr |]. apply Qlt_le_weak. exact Hcy.
  - lia.
Qed.

Section Rounding.

Variables prec emin : Z.
Hypothesis prec_pos : 1 <= prec.

Let scale (x : Q) : Z := Z.max emin (Qlog2 x - prec + 1).
Let scaled (x : Q) : Q :=
  (inject_Z (round_half_even (x / 2 ^ scale x)) * 2 ^ scale x)%Q.

Lemma round_scaled_mono :
  forall x y, (0 < x)%Q -> (x <= y)%Q -> (scaled x <= scaled y)%Q.
Proof.
  intros x y Hx Hxy. unfold scaled.
  assert (Hy : (0 < y)%Q) by (eapply Qlt_le_trans; eassumption).
  pose proof (Qlog2_mono Hx Hxy) as Hlog.
  destruct (Z.eq_dec (scale x) (scale y)) as [Heq | Hne].
  - rewrite Heq. apply Qmult_le_compat_r.
    + rewrite <- Zle_Qle. apply round_half_even_mono.
      apply Qdiv_pow2_le. exact Hxy.
    + apply Qlt_le_weak. apply Qpow2_pos.
  - assert (Hlt : scale x < scale y) by (unfold scale in *; lia).
    assert (Hey : scale y = Qlog2 y - prec + 1) by (unfold scale in *; lia).
    assert (Hstep : Qlog2 x + 1 <= Qlog2 y) by (unfold scale in *; lia).
    destruct (Qlog2_spec Hx) as [_ Hx2].
    destruct (Qlog2_spec Hy) as [Hy1 _].
    apply Qle_trans with (2 ^ Qlog2 y)%Q.
    + assert (Hk : 0 <= Qlog2 y - scale x) by lia.
      assert (Hxle : (x / 2 ^ scale x
                      <= inject_Z (2 ^ (Qlog2 y - scale x)))%Q).
      { rewrite <- (Qpow2_inject Hk), <- Qpow2_div.
        apply Qdiv_pow2_le. apply Qlt_le_weak.
        eapply Qlt_le_trans; [exact Hx2 |]. apply Qpow2_le. exact Hstep. }
      apply round_half_even_mono in Hxle.
      rewrite round_half_even_inject_Z in Hxle.
      apply Qle_trans
        with (inject_Z (2 ^ (Qlog2 y - scale x)) * 2 ^ scale x)%Q.
      * apply Qmult_le_compat_r; [rewrite <- Zle_Qle; exact Hxle |].
        apply Qlt_le_weak. apply Qpow2_pos.
      * rewrite <- (Qpow2_inject Hk), <- Qpow2_plus.
        replace (Qlog2 y - scale x + scale x) with (Qlog2 y) by lia.
        apply Qle_refl.
    + assert (Hk : 0 <= prec - 1) by lia.
      assert (Hyge : (inject_Z (2 ^ (prec - 1)) <= y / 2 ^ scale y)%Q).
      { rewrite <- (Qpow2_inject Hk).
        replace (prec - 1) with (Qlog2 y - scale y) by lia.
        rewrite <- Qpow2_div. apply Qdiv_pow2_le. exact Hy1. }
      apply round_half_even_mono in Hyge.
      rewrite round_half_even_inject_Z in Hyge.
      apply Qle_trans with (inject_Z (2 ^ (prec - 1)) * 2 ^ scale y)%Q.
      * rewrite <- (Qpow2_inject Hk), <- Qpow2_plus.
        replace (prec - 1 + scale y) with (Qlog2 y) by lia.
        apply Qle_refl.
      * apply Qmult_le_compat_r; [rewrite <- Zle_Qle; exact Hyge |].
        apply Qlt_le_weak. apply Qpow2_pos.
Qed.

Lemma round_binary_pos :
  forall x, (0 < x)%Q -> (round_binary prec emin x == scaled x)%Q.
Proof.
  intros [n d] Hx.
  assert (Hn : 0 < n) by (unfold Qlt in Hx; cbn [Qnum Qden] in Hx; lia).
  destruct n as [| p | p]; try lia.
  unfold round_binary. cbn [Qnum Qabs Z.abs Z.ltb Z.compare].
  rewrite Qred_correct. reflexivity.
Qed.

Lemma round_binary_zero :
  forall x, (x == 0)%Q -> round_binary prec emin x = 0%Q.
Proof.
  intros [n d] Hx. unfold Qeq in Hx. cbn [Qnum Qden] in Hx.
  assert (n = 0) by lia. subst n. reflexivity.
Qed.

Lemma round_binary_nonneg :
  forall x, (0 <= x)%Q -> (0 <= round_binary prec emin x)%Q.
Proof.
  intros x Hx. destruct (Qle_lt_or_eq _ _ Hx) as [Hpos | Hzero].
  - rewrite (round_binary_pos Hpos). unfold scaled.
    apply Qmult_le_0_compat.
    + change 0%Q with (inject_Z 0). rewrite <- Zle_Qle.
      rewrite <- (round_half_even_inject_Z 0).
      apply round_half_even_mono. apply Qle_shift_div_l;
        [apply Qpow2_pos | rewrite Qmult_0_l; exact Hx].
    + apply Qlt_le_weak. apply Qpow2_pos.
  - rewrite (@round_binary_zero x) by (symmetry; exact Hzero).
    apply Qle_refl.
Qed.

Lemma round_binary_mono :
  forall x y,
    (0 <= x)%Q -> (x <= y)%Q ->
    (round_binary prec emin x <= round_binary prec emin y)%Q.
Proof.
  intros x y Hx Hxy. destruct (Qle_lt_or_eq _ _ Hx) as [Hpos | Hzero].
  - assert (Hy : (0 < y)%Q) by (eapply Qlt_le_trans; eassumption).
    rewrite (round_binary_pos Hpos), (round_binary_pos Hy).
    apply round_scaled_mono; assumption.
  - rewrite (@round_binary_zero x) by (symmetry; exact Hzero).
    apply round_binary_nonneg. eapply Qle_trans; eassumption.
Qed.

End Rounding.

Lemma to_double_nonneg : forall x, (0 <= x)%Q -> (0 <= to_double x)%Q.
Proof.
  intros x Hx. unfold to_double.
  apply round_binary_nonneg. exact Hx.
Qed.

Lemma to_double_mono :
  forall x y, (0 <= x)%Q -> (x <= y)%Q -> (to_double x <= to_double y)%Q.
Proof.
  intros x y Hx Hxy. unfold to_double.
  apply round_binary_mono; [lia | exact Hx | exact Hxy].
Qed.

Lemma audio_clock_mono :
  forall a b r : Z,
    0 <= a -> a <= b -> 0 <= r -> (audio_clock a r <= audio_clock b r)%Q.
Proof.
  intros a b r Ha Hab Hr. unfold audio_clock, double_of_Z.
  assert (Hd : (0 <= / to_double (inject_Z r))%Q).
  { apply Qinv_le_0_compat. apply to_double_nonneg.
    change 0%Q with (inject_Z 0). rewrite <- Zle_Qle. exact Hr. }
  assert (Ha' : (0 <= to_double (inject_Z a))%Q).
  { apply to_double_nonneg.
    change 0%Q with (inject_Z 0). rewrite <- Zle_Qle. exact Ha. }
  apply to_double_mono.
  - unfold Qdiv. apply Qmult_le_0_compat; assumption.
  - unfold Qdiv. apply Qmult_le_compat_r; [| exact Hd].
    apply to_double_mono.
    + change 0%Q with (inject_Z 0). rewrite <- Zle_Qle. exact Ha.
    + rewrite <- Zle_Qle. exact Hab.
Qed.

(** X9.  The audio clock does not run backwards: of two calls of
    [GetAudioFrame] in a row (no seek in between, the sample counter far from
    its wrap-around), the second leaves [audio_time] at or after the value
    the first left, whatever the second call's arguments. *)
Theorem GetAudioFrame_clock_monotone :
  forall f count1 valid2 count2 m,
    audio_fifo m = {| _fifo := Some f |} ->
    0 < audio_sample_rate m ->
    0 <= audio_frames_consumed m ->
    audio_frames_consumed m + Z.of_nat (av_audio_fifo_size f) < 2 ^ 64 ->
    0 <= count1 ->
    let m1 := snd (GetAudioFrame true count1 m) in
    let m2 := snd (GetAudioFrame valid2 count2 m1) in
    (audio_time m1 <= audio_time m2)%Q
    /\ audio_frames_consumed m <= audio_frames_consumed m1
       <= audio_frames_consumed m2.
Proof.
  intros f count1 valid2 count2 m Hfifo Hrate Hc0 Hwrap Hcount1 m1 m2.
  pose proof (GetAudioFrame_valid_call _ Hfifo Hcount1) as Hcall1.
  cbv zeta in Hcall1.
  set (n1 := Nat.min (Z.to_nat count1) (av_audio_fifo_size f)) in *.
  assert (Hu1 : usize (audio_frames_consumed m + Z.of_nat n1)
                = audio_frames_consumed m + Z.of_nat n1)
    by (unfold usize; apply Z.mod_small; subst n1; lia).
  rewrite Hu1 in Hcall1.
  set (f1 := {| fifo_samples := skipn n1 (fifo_samples f);
                allocated_samples := allocated_samples f |}) in *.
  assert (Hm1 : m1 = set_audio_clock (audio_frames_consumed m + Z.of_nat n1)
                       (audio_clock (audio_frames_consumed m + Z.of_nat n1)
                          (audio_sample_rate m))
                       (set_audio_fifo {| _fifo := Some f1 |} m))
    by (subst m1; rewrite Hcall1; reflexivity).
  assert (Hfifo1 : audio_fifo m1 = {| _fifo := Some f1 |})
    by (rewrite Hm1; reflexivity).
  assert (Hc1 : audio_frames_consumed m1
                = audio_frames_consumed m + Z.of_nat n1)
    by (rewrite Hm1; reflexivity).
  assert (Ht1 : audio_time m1
                = audio_clock (audio_frames_consumed m + Z.of_nat n1)
                    (audio_sample_rate m))
    by (rewrite Hm1; reflexivity).
  assert (Hrate1 : audio_sample_rate m1 = audio_sample_rate m)
    by (rewrite Hm1; reflexivity).
  clearbody m1. clear Hm1 Hcall1.
  destruct (Z_lt_ge_dec count2 0) as [Hneg | Hpos];
    [| destruct valid2].
  - assert (Hm2 : m2 = m1).
    { subst m2. unfold GetAudioFrame. apply Z.ltb_lt in Hneg.
      rewrite Hneg, orb_true_r. reflexivity. }
    rewrite Hm2. split; [apply Qle_refl | lia].
  - assert (Hcount2 : 0 <= count2) by lia.
    pose proof (GetAudioFrame_valid_call _ Hfifo1 Hcount2) as Hcall2.
    cbv zeta in Hcall2.
    set (n2 := Nat.min (Z.to_nat count2) (av_audio_fifo_size f1)) in *.
    assert (Hsize1 : av_audio_fifo_size f1
                     = (av_audio_fifo_size f - n1)%nat)
      by (unfold av_audio_fifo_size, f1; cbn [fifo_samples];
          apply length_skipn).
    assert (Hu2 : usize (audio_frames_consumed m1 + Z.of_nat n2)
                  = audio_frames_consumed m1 + Z.of_nat n2)
      by (unfold usize; apply Z.mod_small; subst n1 n2; lia).
    rewrite Hu2 in Hcall2.
    subst m2. rewrite Hcall2. cbn [snd].
    destruct m1 as [dm paused fin keep loader vsi vtb vq vfr acc pts vo pic
                    asi atb aq consumed atime rate ao log].
    cbn [set_audio_clock set_audio_fifo audio_time audio_frames_consumed
         audio_sample_rate] in *.
    split; [| lia].
    rewrite Ht1, Hrate1.
    apply audio_clock_mono; lia.
  - assert (Hm2 : m2 = m1) by reflexivity.
    rewrite Hm2. split; [apply Qle_refl | lia].
Qed.

Lemma GetAudioFrame_clock_monotone_witness :
  let m := mkMedia [] false false true false (-1) (mkRational 1 25)
             VideoQueue_new {| created := false; pixels := [] |} 0 0
             false false 1 (mkRational 1 4)
             (snd (AudioQueue_push [5; 6; 7]
                     (snd (AudioQueue_init 2 8 true AudioQueue_new))))
             0 0 4 true [] in
  let m1 := snd (GetAudioFrame true 2 m) in
  let m2 := snd (GetAudioFrame true 4 m1) in
  (audio_time m1 <= audio_time m2)%Q
  /\ audio_frames_consumed m <= audio_frames_consumed m1
     <= audio_frames_consumed m2.
Proof.
  intros m.
  set (f := {| fifo_samples := [5; 6; 7]; allocated_samples := 8 |}).
  assert (Hfifo : audio_fifo m = {| _fifo := Some f |}) by reflexivity.
  apply (@GetAudioFrame_clock_monotone f 2 true 4 m Hfifo);
    vm_compute; (reflexivity || discriminate).
Defined.

(** ** Pausing and resuming *)

(** X10.  [Pause()] is idempotent, and the audio device is stopped exactly
    when the call turns a playing object with an open audio stream into a
    paused one: on an object that is paused already, or that has no stream
    open, the call changes nothing, and without an audio stream no call
    reaches the device. *)
Theorem Pause_stops_device_on_transition :
  forall m,
    Pause (Pause m) = Pause m
    /\ (IsPaused m = true \/ (IsAudioOpened m || IsVideoOpened m) = false
        <-> Pause m = m)
    /\ (IsAudioOpened m = true /\ IsPaused m = false
        <-> calls (Pause m) = ma_device_stop :: calls m)
    /\ (IsAudioOpened m = false -> calls (Pause m) = calls m)
    /\ IsPaused (Pause m)
       = (IsPaused m || IsAudioOpened m || IsVideoOpened m).
Proof.
  intros m.
  assert (Hcons : forall (c : Call) l, l <> c :: l).
  { intros c l H. apply (f_equal (@length Call)) in H. cbn in H. lia. }
  destruct m as [dm paused fin keep loader vsi vtb vq vfr acc pts vo pic
                 asi atb aq consumed atime rate ao log].
  unfold Pause, IsPaused, IsAudioOpened, IsVideoOpened.
  cbn [audio_opened video_opened is_paused].
  destruct ao, vo, paused; cbn [negb orb andb call set_is_paused calls];
    (split; [reflexivity |]);
    (split;
     [split;
      [intros [H | H]; first [discriminate H | reflexivity]
      | intros H; first [discriminate H | left; reflexivity
                        | right; reflexivity] ] |]);
    (split;
     [split;
      [intros [H1 H2]; first [discriminate H1 | discriminate H2 | reflexivity]
      | intros H; first [split; reflexivity | now apply Hcons in H] ] |]);
    (split; [intros H; first [discriminate H | reflexivity] | reflexivity]).
Qed.

(** X11.  Pausing a playing object and resuming it gives the object back:
    the only trace is, with an audio stream open, one stop and one start of
    the audio device.  Resuming an object that plays changes nothing. *)
Theorem Play_after_Pause_resumes :
  forall m,
    IsPaused m = false ->
    Play (Pause m)
    = (if IsAudioOpened m
       then call ma_device_start (call ma_device_stop m) else m)
    /\ Play m = m
    /\ IsPaused (Pause (Play m)) = (IsAudioOpened m || IsVideoOpened m).
Proof.
  intros m Hplaying.
  destruct m as [dm paused fin keep loader vsi vtb vq vfr acc pts vo pic
                 asi atb aq consumed atime rate ao log].
  cbn in Hplaying. subst paused.
  destruct ao, vo; repeat split; reflexivity.
Qed.

Lemma Play_after_Pause_resumes_witness :
  let m := mkMedia [] false false true true 0 (mkRational 1 25)
             VideoQueue_new {| created := true; pixels := [] |} 0 0
             true false 1 (mkRational 1 44100) AudioQueue_new 0 0 44100 true
             [thread_start] in
  calls (Play (Pause m)) = [ma_device_start; ma_device_stop; thread_start]
  /\ IsPaused (Play (Pause m)) = false.
Proof.
  intros m.
  destruct (@Play_after_Pause_resumes m eq_refl) as (Hround & _ & _).
  rewrite Hround. split; reflexivity.
Defined.

(** ** Taking frames without the clock *)

(** X12.  [SkipVideoFrame()] succeeds exactly when the video stream is open
    and a frame is queued (the test of [FinishedReading()] never decides).
    It then removes the oldest queued frame and nothing else; when it fails
    the object is as before.  The playback time is not moved either way. *)
Theorem SkipVideoFrame_drops_oldest_frame :
  forall m,
    (IsVideoOpened m = true -> VideoQueue_wf (video_fifo m)) ->
    let r := SkipVideoFrame m in
    (fst r = Success
     <-> IsVideoOpened m = true /\ 0 < VideoQueue_size (video_fifo m))
    /\ (fst r = Success ->
        VideoQueue_contents (video_fifo (snd r))
        = tl (VideoQueue_contents (video_fifo m))
        /\ VideoQueue_size (video_fifo (snd r))
           = VideoQueue_size (video_fifo m) - 1
        /\ VideoQueue_wf (video_fifo (snd r)))
    /\ (fst r = Error -> snd r = m)
    /\ set_video_fifo VideoQueue_new (snd r) = set_video_fifo VideoQueue_new m
    /\ GetCurrentPlaybackTime (snd r) = GetCurrentPlaybackTime m.
Proof.
  intros m Hwf r. subst r. unfold SkipVideoFrame.
  destruct (IsVideoOpened m) eqn:Hopen; cbn [negb].
  2: { cbn [fst snd]. repeat split; try discriminate; try reflexivity.
       intros [H _]; discriminate H. }
  specialize (Hwf eq_refl).
  destruct (0 <? VideoQueue_size (video_fifo m)) eqn:Hsize.
  - apply Z.ltb_lt in Hsize.
    rewrite (FinishedReading_video_queued m Hopen Hsize). cbn [fst snd].
    split; [split; [intros _; split; [reflexivity | exact Hsize]
                   | reflexivity] |].
    split.
    { intros _. destruct m; cbn [video_fifo set_video_fifo] in *.
      split; [apply VideoQueue_pop_contents; exact Hwf |].
      split; [apply VideoQueue_pop_size; assumption
             | apply VideoQueue_pop_wf; exact Hwf]. }
    split; [discriminate |].
    split; [destruct m; reflexivity |].
    unfold GetCurrentPlaybackTime. destruct m; reflexivity.
  - apply Z.ltb_ge in Hsize.
    assert (Hr : (if FinishedReading m then (Error, m) else (Error, m))
                 = (Error, m)) by (destruct (FinishedReading m); reflexivity).
    rewrite Hr. cbn [fst snd].
    split; [split; [discriminate | intros [_ H]; lia] |].
    split; [discriminate |]. repeat split; reflexivity.
Qed.

Lemma SkipVideoFrame_drops_oldest_frame_witness :
  let q := VideoQueue_commit_all
             [mkFrame 0 10 [1]; mkFrame 1 10 [2]]
             (snd (VideoQueue_init 3 None VideoQueue_new)) in
  let m := mkMedia [] false false true true 0 (mkRational 1 25)
             q {| created := true; pixels := [] |} 0 0
             true false (-1) (mkRational 1 44100) AudioQueue_new 0 0 0 false
             [] in
  fst (SkipVideoFrame m) = Success
  /\ VideoQueue_contents (video_fifo (snd (SkipVideoFrame m)))
     = [mkFrame 1 10 [2]].
Proof.
  intros q m.
  assert (Hwf : IsVideoOpened m = true -> VideoQueue_wf (video_fifo m))
    by (intros _; cbn [video_fifo m]; queue_wf_by_computation).
  destruct (@SkipVideoFrame_drops_oldest_frame m Hwf) as (Hok & Hpop & _).
  assert (Hs : fst (SkipVideoFrame m) = Success)
    by (apply Hok; split; [reflexivity | vm_compute; reflexivity]).
  split; [exact Hs |].
  destruct (Hpop Hs) as (Hc & _). rewrite Hc. reflexivity.
Defined.

(** X13.  [GetVideoFrame()] on an open video stream with frames queued
    converts the oldest queued frame into the picture it returns, removes
    that frame from the queue and changes nothing else; in particular it does
    not move [last_video_pts].  With the stream closed or the queue empty it
    returns the picture of the previous call and leaves the object alone. *)
Theorem GetVideoFrame_now_presents_oldest_frame :
  forall m,
    (IsVideoOpened m = true -> VideoQueue_wf (video_fifo m)) ->
    let r := GetVideoFrame_now m in
    (forall f rest,
        IsVideoOpened m = true ->
        VideoQueue_contents (video_fifo m) = f :: rest ->
        pixels (video_frame (snd r)) = frame_data f
        /\ fst r = (if created (video_frame m) then Some (frame_data f)
                    else None)
        /\ VideoQueue_contents (video_fifo (snd r)) = rest
        /\ VideoQueue_wf (video_fifo (snd r)))
    /\ (IsVideoOpened m = false \/ VideoQueue_size (video_fifo m) = 0 ->
        r = (Decal (video_frame m), m))
    /\ set_video_frame (video_frame m)
         (set_video_fifo VideoQueue_new (snd r))
       = set_video_fifo VideoQueue_new m
    /\ created (video_frame (snd r)) = created (video_frame m)
    /\ fst r = Decal (video_frame (snd r)).
Proof.
  intros m Hwf r. subst r. unfold GetVideoFrame_now.
  destruct (IsVideoOpened m) eqn:Hopen; cbn [negb].
  2: { cbn [fst snd].
       split; [intros f rest H; discriminate H |].
       split; [reflexivity |]. destruct m; repeat split; reflexivity. }
  specialize (Hwf eq_refl).
  destruct (0 <? VideoQueue_size (video_fifo m)) eqn:Hsize.
  - apply Z.ltb_lt in Hsize.
    rewrite (FinishedReading_video_queued m Hopen Hsize). cbn [fst snd].
    split.
    { intros f rest _ Hc.
      destruct (VideoQueue_contents_head Hwf Hc) as (_ & Hfront & Hrest).
      destruct m; cbn [video_fifo video_frame set_video_fifo
                       ConvertFrameToRGBASprite set_video_frame created
                       pixels Decal] in *.
      rewrite Hfront.
      split; [reflexivity |]. split; [reflexivity |].
      split; [exact Hrest | apply VideoQueue_pop_wf; exact Hwf]. }
    split; [intros [H | H]; [discriminate H | lia] |].
    destruct m; repeat split; reflexivity.
  - apply Z.ltb_ge in Hsize.
    assert (Hr : (if FinishedReading m then (Decal (video_frame m), m)
                  else (Decal (video_frame m), m))
                 = (Decal (video_frame m), m))
      by (destruct (FinishedReading m); reflexivity).
    rewrite Hr. cbn [fst snd].
    split.
    { intros f rest _ Hc.
      pose proof (VideoQueue_contents_length Hwf) as Hlen.
      rewrite Hc in Hlen. cbn [length] in Hlen. lia. }
    split; [reflexivity |]. destruct m; repeat split; reflexivity.
Qed.

Lemma GetVideoFrame_now_presents_oldest_frame_witness :
  let q := VideoQueue_commit_all
             [mkFrame 0 10 [1]; mkFrame 1 10 [2]]
             (snd (VideoQueue_init 3 None VideoQueue_new)) in
  let m := mkMedia [] false false true true 0 (mkRational 1 25)
             q {| created := true; pixels := [] |} 0 7
             true false (-1) (mkRational 1 44100) AudioQueue_new 0 0 0 false
             [] in
  fst (GetVideoFrame_now m) = Some [1]
  /\ VideoQueue_contents (video_fifo (snd (GetVideoFrame_now m)))
     = [mkFrame 1 10 [2]].
Proof.
  intros q m.
  assert (Hwf : IsVideoOpened m = true -> VideoQueue_wf (video_fifo m))
    by (intros _; cbn [video_fifo m]; queue_wf_by_computation).
  destruct (@GetVideoFrame_now_presents_oldest_frame m Hwf) as (Hfront & _).
  destruct (Hfront (mkFrame 0 10 [1]) [mkFrame 1 10 [2]] eq_refl eq_refl)
    as (_ & Hd & Hc & _).
  split; [exact Hd | exact Hc].
Defined.

(** ** After [Close()] *)

(** X14.  [Close()] leaves an inert object: both streams are closed, the
    worker is stopped (and joined if it was running), the file is closed and
    both queues have given up their storage.  On such an object the playback
    time is 0, [GetVideoFrame(delta_time)] returns [nullptr],
    [GetVideoFrame()] the empty picture, [SkipVideoFrame()] and [Seek()]
    return [Error], and none of them, nor [Pause()] or [Play()], changes the
    object.  A second [Close()] only un-initialises the audio device once
    more. *)
Theorem Close_leaves_inert_object :
  forall m,
    let c := Close m in
    (IsVideoOpened c = false /\ IsAudioOpened c = false
     /\ HasAlbumArt c = false /\ demuxer c = []
     /\ keep_loading c = false /\ frame_loader c = false
     /\ _data (video_fifo c) = None /\ _fifo (audio_fifo c) = None)
    /\ calls c
       = ma_device_uninit
           :: (if frame_loader m then [thread_join] else []) ++ calls m
    /\ GetCurrentPlaybackTime c = 0%Q
    /\ (forall delta_time, GetVideoFrame delta_time c = Some (None, c))
    /\ GetVideoFrame_now c = (Some [], c)
    /\ SkipVideoFrame c = (Error, c)
    /\ (forall new_time response repositioned,
          Seek new_time response repositioned c = Some (Error, c))
    /\ Pause c = c /\ Play c = c
    /\ Close c = call ma_device_uninit c.
Proof.
  intros m c.
  assert (Hv : IsVideoOpened c = false) by reflexivity.
  assert (Ha : IsAudioOpened c = false) by reflexivity.
  assert (Hframe : video_frame c = {| created := true; pixels := [] |})
    by reflexivity.
  split.
  { subst c.
    destruct m as [dm paused fin keep loader vsi vtb vq vfr acc pts vo pic
                   asi atb aq consumed atime rate ao log].
    destruct vq as [qs qc qi qd [data | ]], aq as [[f | ]], loader;
      repeat (split; [reflexivity |]); reflexivity. }
  split.
  { subst c. destruct m as [dm paused fin keep loader vsi vtb vq vfr acc pts
                            vo pic asi atb aq consumed atime rate ao log].
    destruct loader; reflexivity. }
  split; [unfold GetCurrentPlaybackTime; rewrite Hv, Ha; reflexivity |].
  split; [intros delta_time; unfold GetVideoFrame; rewrite Hv; reflexivity |].
  split; [unfold GetVideoFrame_now; rewrite Hv, Hframe; reflexivity |].
  split; [unfold SkipVideoFrame; rewrite Hv; reflexivity |].
  split; [intros new_time response repositioned; unfold Seek;
          rewrite Hv, Ha; reflexivity |].
  split; [unfold Pause; rewrite Hv, Ha; reflexivity |].
  split; [unfold Play; rewrite Hv, Ha; reflexivity |].
  subst c. clear Hv Ha Hframe.
  destruct m as [dm paused fin keep loader vsi vtb vq vfr acc pts vo pic
                 asi atb aq consumed atime rate ao log].
  destruct vq as [qs qc qi qd [data | ]], aq as [[f | ]], loader;
    cbv; reflexivity.
Qed.

(** ** The decode worker *)

Ltac destruct_media m :=
  destruct m as [dm paused fin keep loader vsi vtb vq vfr acc pts vo pic
                 asi atb aq consumed atime rate ao log].


Lemma VideoQueue_store_back_size :
  forall f q,
    VideoQueue_size (VideoQueue_store_back f q) = VideoQueue_size q
    /\ VideoQueue_capacity (VideoQueue_store_back f q) = VideoQueue_capacity q.
Proof. intros f q. split; reflexivity. Qed.

Lemma worker_make_room :
  forall max q,
    worker_queue_ok max q ->
    let q1 := if max =? VideoQueue_size q then VideoQueue_pop q else q in
    VideoQueue_wf q1
    /\ VideoQueue_capacity q1 = VideoQueue_capacity q
    /\ VideoQueue_size q1 < max
    /\ VideoQueue_contents q1
       = (if max =? VideoQueue_size q then tl (VideoQueue_contents q)
          else VideoQueue_contents q)
    /\ Forall (fun f => pkt_size f <> -1) (VideoQueue_contents q1).
Proof.
  intros max q (Hwf & Hmax & Hsize & Hall) q1. subst q1.
  destruct (Z.eqb_spec max (VideoQueue_size q)) as [Heq | Hne].
  - split; [apply VideoQueue_pop_wf; exact Hwf |].
    split; [apply VideoQueue_pop_capacity |].
    split; [rewrite VideoQueue_pop_size by (assumption || lia); lia |].
    rewrite VideoQueue_pop_contents by exact Hwf.
    split; [reflexivity |].
    destruct (VideoQueue_contents q); [constructor |].
    inversion Hall; assumption.
  - repeat split; try assumption; try reflexivity. lia.
Qed.

Lemma decode_video_packet_step :
  forall max p m,
    worker_queue_ok max (video_fifo m) ->
    let r := decode_video_packet max p m in
    let kept := if max =? VideoQueue_size (video_fifo m)
                then tl (VideoQueue_contents (video_fifo m))
                else VideoQueue_contents (video_fifo m) in
    VideoQueue_contents (video_fifo (snd r))
    = kept ++ (match fst r with
               | Success =>
                   if pkt_size (decoded_frame p) =? -1 then []
                   else [decoded_frame p]
               | Error => []
               end)
    /\ worker_queue_ok max (video_fifo (snd r))
    /\ VideoQueue_capacity (video_fifo (snd r))
       = VideoQueue_capacity (video_fifo m)
    /\ set_video_fifo VideoQueue_new (snd r) = set_video_fifo VideoQueue_new m.
Proof.
  intros max p m Hok r kept.
  pose proof (@worker_make_room _ _ Hok) as (Hwf1 & Hcap1 & Hsize1 & Hc1 & Hall1).
  pose proof Hok as (_ & Hmax & _ & _).
  subst r kept. unfold decode_video_packet. rewrite <- Hc1.
  set (q1 := if max =? VideoQueue_size (video_fifo m)
             then VideoQueue_pop (video_fifo m) else video_fifo m) in *.
  assert (Hroom : VideoQueue_size q1 < VideoQueue_capacity q1) by lia.
  destruct (send_response p =? 0); cbn [negb].
  2: { cbn [fst snd]. rewrite app_nil_r.
       destruct_media m; cbn [video_fifo set_video_fifo] in *.
       repeat split; try assumption; try reflexivity; lia. }
  fold (decoded_frame p).
  set (response := match received p with
                   | _ :: _ => 0 | [] => receive_end p end).
  assert (Hpair : (match received p with
                   | r :: _ => (0, r_frame r)
                   | [] => (receive_end p, frame_defaults)
                   end) = (response, decoded_frame p))
    by (unfold response, decoded_frame; destruct (received p); reflexivity).
  rewrite Hpair. clear Hpair.
  set (q2 := VideoQueue_store_back (decoded_frame p) q1).
  assert (Hwf2 : VideoQueue_wf q2) by (apply VideoQueue_store_back_wf; exact Hwf1).
  assert (Hc2 : VideoQueue_contents q2 = VideoQueue_contents q1)
    by (apply VideoQueue_store_back_contents; assumption).
  assert (Hback : VideoQueue_back q2 = decoded_frame p)
    by (apply VideoQueue_store_back_back; exact Hwf1).
  assert (Hs2 : VideoQueue_size q2 = VideoQueue_size q1) by reflexivity.
  assert (Hcap2 : VideoQueue_capacity q2 = VideoQueue_capacity q1)
    by reflexivity.
  destruct ((response <? 0)
            && negb ((response =? AVERROR_EOF) || (response =? AVERROR_EAGAIN))).
  { cbn [fst snd]. rewrite app_nil_r.
    destruct_media m; cbn [video_fifo set_video_fifo] in *.
    rewrite Hc2.
    repeat split; try assumption; try reflexivity; try lia.
    rewrite Hc2; exact Hall1. }
  rewrite Hback. cbn [fst snd].
  destruct (Z.eqb_spec (pkt_size (decoded_frame p)) (-1)) as [Hempty | Hfull];
    cbn [negb].
  - rewrite app_nil_r.
    destruct_media m; cbn [video_fifo set_video_fifo] in *.
    rewrite Hc2.
    repeat split; try assumption; try reflexivity; try lia.
    rewrite Hc2; exact Hall1.
  - destruct_media m; cbn [video_fifo set_video_fifo] in *.
    rewrite VideoQueue_push_contents, Hback, Hc2 by (assumption || lia).
    split; [reflexivity |].
    split.
    { split; [apply VideoQueue_push_wf; assumption || lia |].
      split; [change (VideoQueue_capacity (VideoQueue_push q2))
                with (VideoQueue_capacity q2); lia |].
      split; [rewrite VideoQueue_push_size by (assumption || lia); lia |].
      rewrite VideoQueue_push_contents, Hback, Hc2 by (assumption || lia).
      apply Forall_app. split; [exact Hall1 |].
      constructor; [exact Hfull | constructor]. }
    split; [| reflexivity].
    change (VideoQueue_capacity (VideoQueue_push q2))
      with (VideoQueue_capacity q2). lia.
Qed.

Lemma decode_video_packet_step_members :
  forall max p m,
    set_video_fifo VideoQueue_new (snd (decode_video_packet max p m))
    = set_video_fifo VideoQueue_new m.
Proof.
  intros max p m. unfold decode_video_packet.
  destruct (negb (send_response p =? 0)); [destruct m; reflexivity |].
  destruct (received p) as [| r rs].
  - destruct ((receive_end p <? 0)
              && negb ((receive_end p =? AVERROR_EOF)
                       || (receive_end p =? AVERROR_EAGAIN)));
      destruct m; reflexivity.
  - destruct ((0 <? 0)
              && negb ((0 =? AVERROR_EOF) || (0 =? AVERROR_EAGAIN)));
      destruct m; reflexivity.
Qed.

Lemma members_of_video_step :
  forall a b,
    set_video_fifo VideoQueue_new a = set_video_fifo VideoQueue_new b ->
    idle a = idle b
    /\ finished_reading a = finished_reading b
    /\ keep_loading a = keep_loading b
    /\ HasAlbumArt a = HasAlbumArt b
    /\ IsVideoOpened a = IsVideoOpened b
    /\ IsAudioOpened a = IsAudioOpened b
    /\ audio_fifo a = audio_fifo b.
Proof.
  intros a b H. destruct a, b.
  unfold idle, HasAlbumArt, IsVideoOpened, IsAudioOpened.
  cbn in *. inversion H. repeat split; reflexivity.
Qed.

Lemma members_of_audio_step :
  forall a b,
    set_audio_fifo AudioQueue_new a = set_audio_fifo AudioQueue_new b ->
    idle a = idle b
    /\ finished_reading a = finished_reading b
    /\ keep_loading a = keep_loading b
    /\ HasAlbumArt a = HasAlbumArt b
    /\ IsVideoOpened a = IsVideoOpened b
    /\ IsAudioOpened a = IsAudioOpened b
    /\ video_fifo a = video_fifo b.
Proof.
  intros a b H. destruct a, b.
  unfold idle, HasAlbumArt, IsVideoOpened, IsAudioOpened.
  cbn in *. inversion H. repeat split; reflexivity.
Qed.

Lemma decode_audio_frames_audio_only :
  forall rs e m,
    set_audio_fifo AudioQueue_new (snd (decode_audio_frames rs e m))
    = set_audio_fifo AudioQueue_new m.
Proof.
  induction rs as [| r rest IH]; intros e m; cbn [decode_audio_frames].
  - destruct ((e <? 0)
              && negb ((e =? AVERROR_EOF) || (e =? AVERROR_EAGAIN)));
      reflexivity.
  - destruct (negb (pkt_size (r_frame r) =? -1)); [| apply IH].
    destruct (r_convert_response r =? 0); [| reflexivity].
    destruct (push_flushed (r_flush r)
                (snd (AudioQueue_push (r_resampled r) (audio_fifo m))))
      as [[|] q2].
    + rewrite IH. destruct m; reflexivity.
    + destruct m; reflexivity.
Qed.

Lemma decode_audio_packet_audio_only :
  forall p m,
    set_audio_fifo AudioQueue_new (snd (decode_audio_packet p m))
    = set_audio_fifo AudioQueue_new m.
Proof.
  intros p m. unfold decode_audio_packet.
  destruct ((send_response p <? 0)
            && negb (send_response p =? AVERROR_EAGAIN)); [reflexivity |].
  apply decode_audio_frames_audio_only.
Qed.


Lemma DecodingThread_loop_queue_ok :
  forall pkts maxv minv mina m,
    worker_queue_ok maxv (video_fifo m) ->
    worker_queue_ok maxv
      (video_fifo (snd (DecodingThread_loop pkts maxv minv mina m)))
    /\ VideoQueue_capacity
         (video_fifo (snd (DecodingThread_loop pkts maxv minv mina m)))
       = VideoQueue_capacity (video_fifo m).
Proof.
  induction pkts as [| p rest IH]; intros maxv minv mina m Hok;
    cbn [DecodingThread_loop]; cbv zeta.
  - destruct (negb _); [destruct m; split; [exact Hok | reflexivity] |].
    destruct (negb (keep_loading m));
      destruct m; split; (exact Hok || reflexivity).
  - destruct (negb _); [destruct m; split; [exact Hok | reflexivity] |].
    destruct (negb (keep_loading m));
      [destruct m; split; [exact Hok | reflexivity] |].
    destruct (IsVideoOpened m && (stream_index p =? video_stream_index m)).
    { pose proof (@decode_video_packet_step maxv p m Hok) as (_ & Hok1 & Hcap1 & _).
      destruct (decode_video_packet maxv p m) as [[|] m1];
        cbn [snd] in Hok1, Hcap1.
      - destruct (IH maxv minv mina m1 Hok1) as (Hok2 & Hcap2).
        split; [exact Hok2 | congruence].
      - cbn [snd]. destruct m1; split; [exact Hok1 | exact Hcap1]. }
    destruct (IsAudioOpened m && (stream_index p =? audio_stream_index m)).
    { pose proof (decode_audio_packet_audio_only p m) as Hstep.
      destruct (decode_audio_packet p m) as [[|] m1]; cbn [snd] in Hstep;
        destruct (@members_of_audio_step _ _ Hstep) as (_ & _ & _ & _ & _ & _ & Hq).
      - rewrite <- Hq in Hok.
        destruct (IH maxv minv mina m1 Hok) as (Hok2 & Hcap2).
        split; [exact Hok2 | congruence].
      - cbn [snd]. rewrite <- Hq in *.
        destruct m1; split; [exact Hok | reflexivity]. }
    apply IH. exact Hok.
Qed.

Lemma worker_queue_ok_pop :
  forall max q, worker_queue_ok max q -> worker_queue_ok max (VideoQueue_pop q).
Proof.
  intros max q (Hwf & Hmax & Hsize & Hall).
  split; [apply VideoQueue_pop_wf; exact Hwf |].
  split; [rewrite VideoQueue_pop_capacity; exact Hmax |].
  split.
  - destruct (Z_lt_ge_dec 0 (VideoQueue_size q)) as [Hpos | Hzero].
    + rewrite VideoQueue_pop_size by assumption. lia.
    + unfold VideoQueue_pop.
      assert (Hb : (0 <? _size q) = false)
        by (apply Z.ltb_ge; unfold VideoQueue_size in Hzero; lia).
      rewrite Hb. exact Hsize.
  - rewrite VideoQueue_pop_contents by exact Hwf.
    destruct (VideoQueue_contents q); [constructor |].
    inversion Hall; assumption.
Qed.

Lemma SkipVideoFrame_queue_ok :
  forall max m,
    worker_queue_ok max (video_fifo m) ->
    worker_queue_ok max (video_fifo (snd (SkipVideoFrame m))).
Proof.
  intros max m Hok. unfold SkipVideoFrame.
  destruct (negb (IsVideoOpened m)); [exact Hok |].
  destruct (FinishedReading m); [exact Hok |].
  destruct (0 <? VideoQueue_size (video_fifo m)); [| exact Hok].
  destruct m. apply worker_queue_ok_pop. exact Hok.
Qed.

Lemma GetVideoFrame_now_queue_ok :
  forall max m,
    worker_queue_ok max (video_fifo m) ->
    worker_queue_ok max (video_fifo (snd (GetVideoFrame_now m))).
Proof.
  intros max m Hok. unfold GetVideoFrame_now.
  destruct (negb (IsVideoOpened m)); [exact Hok |].
  destruct (FinishedReading m); [exact Hok |].
  destruct (0 <? VideoQueue_size (video_fifo m)); [| exact Hok].
  destruct m. apply worker_queue_ok_pop. exact Hok.
Qed.

Lemma sync_loop_queue_ok :
  forall max fuel ref m out m',
    worker_queue_ok max (video_fifo m) ->
    sync_loop fuel ref m = Some (out, m') ->
    worker_queue_ok max (video_fifo m').
Proof.
  induction fuel as [| k IH]; intros ref m out m' Hok Hrun;
    cbn [sync_loop] in Hrun; [discriminate Hrun |].
  destruct (PeekFrame m) as [next_frame |].
  - cbv zeta in Hrun.
    destruct (Qle_bool ref _) in Hrun.
    + injection Hrun as <- <-. destruct m; exact Hok.
    + apply IH in Hrun; [exact Hrun |].
      apply SkipVideoFrame_queue_ok. destruct m; exact Hok.
  - injection Hrun as <- <-. exact Hok.
Qed.

Lemma GetVideoFrame_queue_ok :
  forall max delta_time m d m',
    worker_queue_ok max (video_fifo m) ->
    GetVideoFrame delta_time m = Some (d, m') ->
    worker_queue_ok max (video_fifo m').
Proof.
  intros max delta_time m d m' Hok Hrun. unfold GetVideoFrame in Hrun.
  destruct (negb (IsVideoOpened m)); [injection Hrun as <- <-; exact Hok |].
  destruct (FinishedReading m).
  { injection Hrun as Hrun. apply (f_equal snd) in Hrun. cbn [snd] in Hrun.
    rewrite <- Hrun. apply GetVideoFrame_now_queue_ok. exact Hok. }
  destruct (IsPaused m); [injection Hrun as <- <-; exact Hok |].
  destruct (HasAlbumArt m).
  { injection Hrun as Hrun. apply (f_equal snd) in Hrun. cbn [snd] in Hrun.
    rewrite <- Hrun. apply GetVideoFrame_now_queue_ok. exact Hok. }
  set (start := if IsAudioOpened m then (audio_time m, m)
                else ((float_add (delta_time_accumulator m) delta_time),
                      set_delta_time_accumulator
                        (float_add (delta_time_accumulator m) delta_time) m)) in Hrun.
  assert (Hstart : worker_queue_ok max (video_fifo (snd start)))
    by (subst start; destruct (IsAudioOpened m); [exact Hok |];
        destruct m; exact Hok).
  destruct start as [time_reference m1]. cbn [snd] in Hstart.
  destruct (Qlt_bool time_reference (last_video_pts m1));
    [injection Hrun as <- <-; exact Hstart |].
  destruct (sync_loop _ time_reference m1) as [[[dd | []] m2] |] eqn:Hloop;
    [| | discriminate Hrun].
  - injection Hrun as <- <-. exact (@sync_loop_queue_ok _ _ _ _ _ _ Hstart Hloop).
  - injection Hrun as Hrun. apply (f_equal snd) in Hrun. cbn [snd] in Hrun.
    rewrite <- Hrun. apply GetVideoFrame_now_queue_ok.
    exact (@sync_loop_queue_ok _ _ _ _ _ _ Hstart Hloop).
Qed.

(** X15.  One video packet in the worker.  When the queue already holds
    [max_video_queue_size] frames the oldest one is given up first, before
    the packet is handed to the decoder; the decoded frame is appended only
    if the packet was decoded without error and the frame is not empty
    ([pkt_size] is not -1).  So a packet that yields no frame, or fails,
    still costs a saturated queue its oldest frame.  The queue stays within
    [max_video_queue_size] and no other member changes. *)
Theorem DecodingThread_video_packet_evicts_then_appends :
  forall max p m,
    worker_queue_ok max (video_fifo m) ->
    let r := decode_video_packet max p m in
    let kept := if max =? VideoQueue_size (video_fifo m)
                then tl (VideoQueue_contents (video_fifo m))
                else VideoQueue_contents (video_fifo m) in
    VideoQueue_contents (video_fifo (snd r))
    = kept ++ (match fst r with
               | Success =>
                   if pkt_size (decoded_frame p) =? -1 then []
                   else [decoded_frame p]
               | Error => []
               end)
    /\ VideoQueue_size (video_fifo (snd r)) <= max
    /\ VideoQueue_capacity (video_fifo (snd r))
       = VideoQueue_capacity (video_fifo m)
    /\ set_video_fifo VideoQueue_new (snd r) = set_video_fifo VideoQueue_new m.
Proof.
  intros max p m Hok r kept.
  destruct (@decode_video_packet_step max p m Hok)
    as (Hc & (_ & _ & Hsize & _) & Hcap & Hrest).
  split; [exact Hc |]. split; [exact Hsize |].
  split; [exact Hcap | exact Hrest].
Qed.

Lemma DecodingThread_video_packet_evicts_then_appends_witness :
  let frame ts := {| best_effort_timestamp := ts; pkt_size := 100;
                     frame_data := [ts] |} in
  let q := VideoQueue_commit_all [frame 0; frame 1]
             (snd (VideoQueue_init 3 None VideoQueue_new)) in
  let m := mkMedia [] false false true true 0 (mkRational 1 25)
             q {| created := true; pixels := [] |} 0 0
             true false (-1) (mkRational 1 44100) AudioQueue_new 0 0 0 false
             [] in
  let no_frame := {| stream_index := 0; send_response := 0;
                     received := []; receive_end := AVERROR_EAGAIN |} in
  let one_frame := {| stream_index := 0; send_response := 0;
                      received := [mkReceived (frame 2) 0 [] []];
                      receive_end := AVERROR_EAGAIN |} in
  VideoQueue_contents (video_fifo (snd (decode_video_packet 2 no_frame m)))
  = [frame 1]
  /\ VideoQueue_contents (video_fifo (snd (decode_video_packet 2 one_frame m)))
     = [frame 1; frame 2].
Proof.
  intros frame q m no_frame one_frame.
  assert (Hok : worker_queue_ok 2 (video_fifo m)).
  { split; [cbn [video_fifo m]; queue_wf_by_computation |].
    split; [vm_compute; split; [discriminate | reflexivity] |].
    split; [vm_compute; discriminate |].
    vm_compute. repeat constructor; discriminate. }
  split.
  - destruct (@DecodingThread_video_packet_evicts_then_appends 2 no_frame m
                Hok) as (Hc & _).
    rewrite Hc. reflexivity.
  - destruct (@DecodingThread_video_packet_evicts_then_appends 2 one_frame m
                Hok) as (Hc & _).
    rewrite Hc. reflexivity.
Defined.

(** X16.  The bounds of the video queue are an invariant of playback.  If
    the queue of an open video stream is consistent, holds at most
    [max_video_queue_size] frames (one less than its capacity; 1 for album
    art) and no empty frame, then the same is true after the worker has run,
    whatever packets the demuxer delivers and however the run ends, and
    after each of [GetVideoFrame(delta_time)], [GetVideoFrame()] and
    [SkipVideoFrame()]. *)
Theorem DecodingThread_keeps_video_queue_in_bounds :
  forall m,
    IsVideoOpened m = true ->
    worker_queue_ok (worker_max_video m) (video_fifo m) ->
    (worker_queue_ok (worker_max_video m) (video_fifo (snd (DecodingThread m)))
     /\ VideoQueue_capacity (video_fifo (snd (DecodingThread m)))
        = VideoQueue_capacity (video_fifo m))
    /\ (forall delta_time d m',
          GetVideoFrame delta_time m = Some (d, m') ->
          worker_queue_ok (worker_max_video m) (video_fifo m'))
    /\ worker_queue_ok (worker_max_video m)
         (video_fifo (snd (GetVideoFrame_now m)))
    /\ worker_queue_ok (worker_max_video m)
         (video_fifo (snd (SkipVideoFrame m))).
Proof.
  intros m Hopen Hok.
  split.
  { unfold DecodingThread. cbv zeta.
    change (IsVideoOpened (set_finished_reading false m))
      with (IsVideoOpened m).
    rewrite Hopen.
    change (if HasAlbumArt (set_finished_reading false m) then 1
            else usize (VideoQueue_capacity
                          (video_fifo (set_finished_reading false m)) - 1))
      with (worker_max_video m).
    apply (@DecodingThread_loop_queue_ok
             (demuxer (set_finished_reading false m)) (worker_max_video m)
             _ _ (set_finished_reading false m)).
    exact Hok. }
  split.
  { intros delta_time d m' Hrun.
    exact (@GetVideoFrame_queue_ok _ delta_time m d m' Hok Hrun). }
  split; [apply GetVideoFrame_now_queue_ok; exact Hok
         | apply SkipVideoFrame_queue_ok; exact Hok].
Qed.

Lemma DecodingThread_keeps_video_queue_in_bounds_witness :
  let frame ts := {| best_effort_timestamp := ts; pkt_size := 100;
                     frame_data := [ts] |} in
  let packet ts := {| stream_index := 0; send_response := 0;
                      received := [mkReceived (frame ts) 0 [] []];
                      receive_end := AVERROR_EAGAIN |} in
  let opened := snd (InitVideo 0 true 4 None (mkRational 1 25) false
                       (Media_new false (mkRational 0 1) (mkRational 0 1))) in
  let m := set_demuxer [packet 0; packet 1; packet 2; packet 3; packet 4]
             opened in
  worker_queue_ok 3 (video_fifo (snd (DecodingThread m)))
  /\ VideoQueue_capacity (video_fifo (snd (DecodingThread m))) = 4.
Proof.
  intros frame packet opened m.
  assert (Hok : worker_queue_ok (worker_max_video m) (video_fifo m)).
  { split; [cbn [video_fifo m]; queue_wf_by_computation |].
    split; [vm_compute; split; [discriminate | reflexivity] |].
    split; [vm_compute; discriminate |].
    vm_compute. constructor. }
  destruct (@DecodingThread_keeps_video_queue_in_bounds m eq_refl Hok)
    as ((Hq & Hcap) & _).
  split; [exact Hq | exact Hcap].
Defined.


(** ** The protocol of [Seek] *)





(** ** Formats and volume *)

(** X19.  [CorrectDeprecatedPixelFormat] maps each deprecated full-range
    format to a format that is not deprecated and keeps every other format;
    so its result is never a deprecated format and applying it twice is the
    same as applying it once. *)
Theorem CorrectDeprecatedPixelFormat_never_deprecated :
  forall pix_fmt,
    is_yuvj (CorrectDeprecatedPixelFormat pix_fmt) = false
    /\ CorrectDeprecatedPixelFormat (CorrectDeprecatedPixelFormat pix_fmt)
       = CorrectDeprecatedPixelFormat pix_fmt
    /\ (is_yuvj pix_fmt = false
        <-> CorrectDeprecatedPixelFormat pix_fmt = pix_fmt).
Proof.
  intros pix_fmt.
  destruct pix_fmt; cbn; repeat split; try reflexivity; discriminate.
Qed.

(** X20.  Whatever the setting and the stream's original format,
    [ChooseAudioFormat] succeeds with a format that the [switch] of
    [InitialiseAndStartMiniaudio] accepts, and the sample size it records is
    the size FFmpeg gives for that format.  So the playback device is refused
    only when [ma_device_init] or [ma_device_start] fails, and
    [ma_device_start] is called exactly when [ma_device_init] succeeded. *)
Theorem InitialiseAndStartMiniaudio_accepts_chosen_format :
  forall setting original,
    fst (fst (ChooseAudioFormat setting original)) = Success
    /\ playback_format (chosen_format setting original) <> None
    /\ snd (ChooseAudioFormat setting original)
       = av_get_bytes_per_sample (chosen_format setting original)
    /\ (forall device_init_ok device_start_ok m,
          let r := InitialiseAndStartMiniaudio
                     (chosen_format setting original)
                     device_init_ok device_start_ok m in
          (fst r = Success
           <-> device_init_ok = true /\ device_start_ok = true)
          /\ calls (snd r)
             = (if device_init_ok then [ma_device_start] else []) ++ calls m
          /\ IsAudioOpened (snd r) = IsAudioOpened m).
Proof.
  intros setting original.
  split; [destruct setting, original; reflexivity |].
  split; [destruct setting, original; discriminate |].
  split; [destruct setting, original; reflexivity |].
  intros device_init_ok device_start_ok m r. subst r.
  unfold InitialiseAndStartMiniaudio.
  destruct (playback_format (chosen_format setting original)) eqn:Hfmt.
  2: { destruct setting, original; discriminate Hfmt. }
  destruct_media m.
  destruct device_init_ok, device_start_ok; cbn;
    (split; [split; [intros H; first [discriminate H | split; reflexivity]
                    | intros [H1 H2]; first [discriminate | reflexivity]]
            | split; reflexivity]).
Qed.

(** X21.  [SetAudioVolume] clamps: with an audio stream open the volume it
    stores (and passes to the device) lies in [0, 1], and equals the
    requested volume when that lies in [0, 1]; without an audio stream it
    stores nothing, and [GetAudioVolume] then reports 0 whatever is
    stored.  (Volumes are rational numbers here; a NaN is outside the
    model.) *)
Theorem SetAudioVolume_clamps :
  forall new_volume m audio_volume,
    let v := SetAudioVolume new_volume m audio_volume in
    (IsAudioOpened m = false ->
     v = audio_volume /\ GetAudioVolume m v = 0%Q)
    /\ (IsAudioOpened m = true ->
        (0 <= v)%Q /\ (v <= 1)%Q
        /\ ((0 <= new_volume)%Q -> (new_volume <= 1)%Q -> v = new_volume)
        /\ ((new_volume < 0)%Q -> v = 0%Q)
        /\ ((1 < new_volume)%Q -> v = 1%Q)
        /\ GetAudioVolume m v = v
        /\ SetAudioVolume v m v = v).
Proof.
  intros new_volume m audio_volume v. subst v.
  unfold SetAudioVolume, GetAudioVolume.
  destruct (IsAudioOpened m); cbn [negb].
  - split; [discriminate |]. intros _.
    destruct (Qlt_bool new_volume 0) eqn:Hlow.
    { apply Qlt_bool_iff in Hlow.
      repeat split; try reflexivity; try discriminate.
      - intros H0 _. exfalso. exact (Qlt_not_le _ _ Hlow H0).
      - intros H1. exfalso.
        apply (Qlt_irrefl 0). apply Qlt_trans with new_volume; [| exact Hlow].
        apply Qlt_trans with 1%Q; [reflexivity | exact H1]. }
    assert (Hge : (0 <= new_volume)%Q).
    { apply Qnot_lt_le. intros H. apply Qlt_bool_iff in H. congruence. }
    destruct (Qlt_bool 1 new_volume) eqn:Hhigh.
    { apply Qlt_bool_iff in Hhigh.
      repeat split; try reflexivity; try discriminate.
      - intros _ H1. exfalso. exact (Qlt_not_le _ _ Hhigh H1).
      - intros H. exfalso. exact (Qlt_not_le _ _ H Hge). }
    assert (Hle : (new_volume <= 1)%Q).
    { apply Qnot_lt_le. intros H. apply Qlt_bool_iff in H. congruence. }
    rewrite Hlow, Hhigh.
    repeat split; try assumption; try reflexivity.
    + intros H. exfalso. exact (Qlt_not_le _ _ H Hge).
    + intros H. exfalso. exact (Qlt_not_le _ _ H Hle).
  - split; [intros _; split; reflexivity | discriminate].
Qed.

(** ** Opening a file *)

Lemma ChooseAudioFormat_succeeds :
  forall setting original,
    exists size,
      ChooseAudioFormat setting original
      = (Success, chosen_format setting original, size)
      /\ playback_format (chosen_format setting original) <> None.
Proof.
  intros setting original.
  destruct setting, original; eexists; (split; [reflexivity | discriminate]).
Qed.

Lemma InitVideo_control_members :
  forall best_stream codec_ok fps_capacity alloc_fail time_base pic m,
    let m' := snd (InitVideo best_stream codec_ok fps_capacity alloc_fail
                     time_base pic m) in
    demuxer m' = demuxer m /\ is_paused m' = is_paused m
    /\ finished_reading m' = finished_reading m
    /\ keep_loading m' = keep_loading m /\ frame_loader m' = frame_loader m
    /\ audio_opened m' = audio_opened m /\ audio_fifo m' = audio_fifo m
    /\ calls m' = calls m
    /\ video_stream_index m' = best_stream.
Proof.
  intros best_stream codec_ok fps_capacity alloc_fail time_base pic m m'.
  subst m'. unfold InitVideo.
  destruct (best_stream <? 0);
    [destruct (best_stream =? AVERROR_STREAM_NOT_FOUND);
     repeat split; reflexivity |].
  destruct (negb codec_ok); [repeat split; reflexivity |].
  destruct (HasAlbumArt m); [repeat split; reflexivity |].
  destruct (VideoQueue_init (Z.max fps_capacity 2) alloc_fail (video_fifo m))
    as [[|] q]; repeat split; reflexivity.
Qed.

(** X22.  A successful [InitVideo()] on a stream that exists opens the video
    with an empty queue whose capacity is [preloaded_frames_scale] times the
    frame rate, but at least 2, and with the playback time at 0.  The queue
    is sized before the stream's attached-picture flag is read, so album art
    gets the same capacity.  The bounds the worker and the consumers maintain
    hold from the start. *)
Theorem InitVideo_opens_with_queue_in_bounds :
  forall best_stream codec_ok fps_capacity alloc_fail time_base pic m m',
    HasAlbumArt m = false ->
    0 <= fps_capacity < 65536 ->
    0 <= best_stream ->
    InitVideo best_stream codec_ok fps_capacity alloc_fail time_base pic m
    = (Success, m') ->
    (IsVideoOpened m' = true /\ HasAlbumArt m' = pic
     /\ video_stream_index m' = best_stream /\ video_time_base m' = time_base)
    /\ (VideoQueue_capacity (video_fifo m') = Z.max fps_capacity 2
        /\ VideoQueue_size (video_fifo m') = 0)
    /\ (GetCurrentPlaybackTime m' = 0%Q /\ delta_time_accumulator m' = 0%Q)
    /\ worker_queue_ok (worker_max_video m') (video_fifo m')
    /\ codec_ok = true.
Proof.
  intros best_stream codec_ok fps_capacity alloc_fail time_base pic m m'
    Hart Hfps Hbest Hrun.
  unfold InitVideo in Hrun.
  apply Z.ltb_ge in Hbest. rewrite Hbest, Hart in Hrun.
  destruct codec_ok; cbn [negb] in Hrun; [| discriminate Hrun].
  destruct (VideoQueue_init (Z.max fps_capacity 2) alloc_fail (video_fifo m))
    as [[|] q] eqn:Hinit; [| discriminate Hrun].
  assert (Hcap : 0 <= Z.max fps_capacity 2 < 65536) by lia.
  destruct (VideoQueue_init_wf _ _ Hcap Hinit) as (Hwf & Hsize & Hcapacity).
  injection Hrun as <-.
  unfold IsVideoOpened, HasAlbumArt, GetCurrentPlaybackTime, worker_max_video,
    IsVideoOpened, HasAlbumArt.
  cbn [video_opened attached_pic video_stream_index video_time_base
       video_fifo last_video_pts delta_time_accumulator].
  split; [repeat split; reflexivity |].
  split; [split; assumption |].
  split; [split; reflexivity |].
  split; [| reflexivity].
  split; [exact Hwf |].
  rewrite Hcapacity, Hsize.
  split.
  - destruct pic; [lia |]. unfold usize. rewrite Z.mod_small; lia.
  - split.
    + destruct pic; [lia |]. unfold usize. rewrite Z.mod_small; lia.
    + rewrite (VideoQueue_contents_empty _ Hsize). constructor.
Qed.

Lemma InitVideo_opens_with_queue_in_bounds_witness :
  let m := Media_new false (mkRational 0 1) (mkRational 0 1) in
  let m' := snd (InitVideo 0 true 1 None (mkRational 1 25) true m) in
  VideoQueue_capacity (video_fifo m') = 2
  /\ HasAlbumArt m' = true
  /\ worker_queue_ok 1 (video_fifo m').
Proof.
  intros m m'.
  assert (Hfps : 0 <= 1 < 65536) by lia.
  assert (Hbest : 0 <= 0) by lia.
  destruct (@InitVideo_opens_with_queue_in_bounds 0 true 1 None
              (mkRational 1 25) true m m' eq_refl Hfps Hbest eq_refl)
    as ((_ & Hpic & _) & (Hcap & _) & _ & Hok & _).
  split; [exact Hcap |]. split; [exact Hpic | exact Hok].
Defined.

Lemma AudioQueue_init_members :
  forall channels capacity alloc_ok q,
    let r := AudioQueue_init channels capacity alloc_ok q in
    (fst r = Success <-> capacity <> 0 /\ channels <> 0 /\ alloc_ok = true)
    /\ (fst r = Success ->
        AudioQueue_samples (snd r) = []
        /\ AudioQueue_capacity (snd r) = Z.to_nat capacity).
Proof.
  intros channels capacity alloc_ok q r. subst r. unfold AudioQueue_init.
  destruct (Z.eqb_spec capacity 0) as [Hc | Hc];
    [cbn [orb fst snd]; split;
     [split; [discriminate | intros (H & _); contradiction] | discriminate] |].
  destruct (Z.eqb_spec channels 0) as [Hch | Hch];
    [cbn [orb fst snd]; split;
     [split; [discriminate | intros (_ & H & _); contradiction]
     | discriminate] |].
  cbn [orb]. destruct alloc_ok; cbn [fst snd].
  - split; [split; [intros _; repeat split; assumption | reflexivity] |].
    intros _. unfold AudioQueue_samples, AudioQueue_capacity,
      av_audio_fifo_space, av_audio_fifo_size, av_audio_fifo_alloc.
    cbn [_fifo fifo_samples allocated_samples length].
    split; [reflexivity | lia].
  - split; [split; [discriminate | intros (_ & _ & H); discriminate H]
           | discriminate].
Qed.

Lemma InitAudio_control_members :
  forall settings a m,
    let m' := snd (InitAudio settings a m) in
    demuxer m' = demuxer m /\ is_paused m' = is_paused m
    /\ finished_reading m' = finished_reading m
    /\ keep_loading m' = keep_loading m /\ frame_loader m' = frame_loader m
    /\ video_opened m' = video_opened m /\ attached_pic m' = attached_pic m
    /\ video_fifo m' = video_fifo m
    /\ last_video_pts m' = last_video_pts m
    /\ audio_stream_index m' = audio_best_stream a.
Proof.
  intros settings a m m'. subst m'. unfold InitAudio.
  destruct (ChooseAudioFormat_succeeds (audio_format_setting settings)
              (original_format a)) as (size & -> & Hfmt).
  unfold InitialiseAndStartMiniaudio.
  destruct (playback_format _); [| contradiction].
  destruct (audio_best_stream a <? 0);
    [destruct (audio_best_stream a =? AVERROR_STREAM_NOT_FOUND);
     repeat split; reflexivity |].
  destruct (negb (audio_codec_ok a)); [repeat split; reflexivity |].
  destruct (negb (resampler_ok a)); [repeat split; reflexivity |].
  destruct (AudioQueue_init _ _ _ _) as [[|] q];
    [| repeat split; reflexivity].
  destruct (negb (device_init_ok a)); [repeat split; reflexivity |].
  destruct (negb (device_start_ok a)); repeat split; reflexivity.
Qed.

(** X23.  [InitAudio()] succeeds without opening anything when the file has
    no audio stream.  Otherwise it succeeds exactly when the decoder and the
    resampler are set up, the sample rate, [preloaded_frames_scale] and the
    channel count are not zero, the FIFO is allocated and the playback
    device is initialised and started; the choice of the sample format can
    not make it fail.  It then leaves the audio stream open with the audio
    clock at 0, an empty FIFO for [preloaded_frames_scale] seconds of samples
    and the device started.  After a failure the audio stream is not marked
    open. *)
Theorem InitAudio_outcome :
  forall settings a m,
    let r := InitAudio settings a m in
    let capacity := preloaded_frames_scale settings * sample_rate a in
    (fst r = Success
     <-> audio_best_stream a = AVERROR_STREAM_NOT_FOUND
         \/ (0 <= audio_best_stream a
             /\ audio_codec_ok a = true /\ resampler_ok a = true
             /\ capacity <> 0 /\ channels a <> 0 /\ fifo_alloc_ok a = true
             /\ device_init_ok a = true /\ device_start_ok a = true))
    /\ (fst r = Success -> 0 <= audio_best_stream a ->
        IsAudioOpened (snd r) = true
        /\ audio_frames_consumed (snd r) = 0
        /\ audio_time (snd r) = 0%Q
        /\ audio_sample_rate (snd r) = sample_rate a
        /\ audio_time_base (snd r) = stream_time_base a
        /\ AudioQueue_samples (audio_fifo (snd r)) = []
        /\ AudioQueue_capacity (audio_fifo (snd r)) = Z.to_nat capacity
        /\ calls (snd r) = ma_device_start :: calls m)
    /\ (fst r = Error \/ audio_best_stream a < 0 ->
        IsAudioOpened (snd r) = IsAudioOpened m).
Proof.
  intros settings a m r capacity. subst r capacity. unfold InitAudio.
  destruct (ChooseAudioFormat_succeeds (audio_format_setting settings)
              (original_format a)) as (size & -> & Hfmt).
  unfold InitialiseAndStartMiniaudio.
  destruct (playback_format _) as [fmt |]; [| contradiction].
  clear Hfmt.
  assert (Hneg : AVERROR_STREAM_NOT_FOUND < 0) by reflexivity.
  destruct (Z.ltb_spec (audio_best_stream a) 0) as [Hlt | Hge].
  { destruct (Z.eqb_spec (audio_best_stream a) AVERROR_STREAM_NOT_FOUND)
      as [Heq | Hne]; cbn [fst snd].
    - split; [split; [intros _; left; exact Heq | reflexivity] |].
      split; [intros _ H; lia | intros _; reflexivity].
    - split; [split; [discriminate | intros [H | (H & _)]; [contradiction | lia]] |].
      split; [discriminate | intros _; reflexivity]. }
  assert (Hstream : audio_best_stream a <> AVERROR_STREAM_NOT_FOUND) by lia.
  destruct (audio_codec_ok a); cbn [negb].
  2: { cbn [fst snd].
       split; [split; [discriminate
                      | intros [H | (_ & H & _)]; [contradiction | discriminate H]] |].
       split; [discriminate | intros _; reflexivity]. }
  destruct (resampler_ok a); cbn [negb].
  2: { cbn [fst snd].
       split; [split; [discriminate
                      | intros [H | (_ & _ & H & _)];
                        [contradiction | discriminate H]] |].
       split; [discriminate | intros _; reflexivity]. }
  pose proof (AudioQueue_init_members (channels a)
                (preloaded_frames_scale settings * sample_rate a)
                (fifo_alloc_ok a) (audio_fifo m)) as Hinit.
  cbn [audio_fifo].
  destruct (AudioQueue_init (channels a)
              (preloaded_frames_scale settings * sample_rate a)
              (fifo_alloc_ok a) (audio_fifo m)) as [[|] q];
    cbn [fst snd] in Hinit; destruct Hinit as (Hiff & Hq).
  2: { cbn [fst snd].
       split; [split; [discriminate
                      | intros [H | (_ & _ & _ & H1 & H2 & H3 & _)];
                        [contradiction |];
                        assert (Hs : Error = Success)
                          by (apply Hiff; repeat split; assumption);
                        discriminate Hs] |].
       split; [discriminate | intros _; destruct_media m; reflexivity]. }
  destruct (proj1 Hiff eq_refl) as (Hc & Hch & Halloc).
  destruct (Hq eq_refl) as (Hsamples & Hcapacity).
  destruct (device_init_ok a); cbn [negb].
  2: { cbn [fst snd].
       split; [split; [discriminate
                      | intros [H | (_ & _ & _ & _ & _ & _ & H & _)];
                        [contradiction | discriminate H]] |].
       split; [discriminate | intros _; destruct_media m; reflexivity]. }
  destruct (device_start_ok a); cbn [negb fst snd].
  2: { split; [split; [discriminate
                      | intros [H | (_ & _ & _ & _ & _ & _ & _ & H)];
                        [contradiction | discriminate H]] |].
       split; [discriminate | intros _; destruct_media m; reflexivity]. }
  split; [split; [intros _; right; repeat split; assumption | reflexivity] |].
  split.
  - intros _ _. destruct_media m.
    cbn [set_audio_opened call set_audio_fifo audio_fifo
         audio_frames_consumed audio_time audio_sample_rate audio_time_base
         calls IsAudioOpened audio_opened].
    repeat split; try reflexivity; assumption.
  - intros [H | H]; [discriminate H | lia].
Qed.

Lemma InitVideo_opened :
  forall best_stream codec_ok fps_capacity alloc_fail time_base pic m,
    let r := InitVideo best_stream codec_ok fps_capacity alloc_fail
               time_base pic m in
    (fst r = Success ->
     video_opened (snd r) = video_opened m || (0 <=? best_stream))
    /\ (fst r = Error -> video_opened (snd r) = video_opened m)
    /\ (0 <= best_stream -> codec_ok = true -> alloc_fail = None ->
        fst r = Success).
Proof.
  intros best_stream codec_ok fps_capacity alloc_fail time_base pic m r.
  subst r. unfold InitVideo.
  destruct (Z.ltb_spec best_stream 0) as [Hlt | Hge].
  { assert (Hb : (0 <=? best_stream) = false) by (apply Z.leb_gt; exact Hlt).
    rewrite Hb, orb_false_r.
    destruct (best_stream =? AVERROR_STREAM_NOT_FOUND); cbn [fst snd];
      (split; [reflexivity || discriminate |]);
      (split; [reflexivity || discriminate | intros H; lia]). }
  assert (Hb : (0 <=? best_stream) = true) by (apply Z.leb_le; exact Hge).
  rewrite Hb, orb_true_r.
  destruct codec_ok; cbn [negb].
  2: { cbn [fst snd]. split; [discriminate |].
       split; [reflexivity | intros _ H; discriminate H]. }
  destruct (HasAlbumArt m).
  { cbn [fst snd]. split; [reflexivity |].
    split; [discriminate | reflexivity]. }
  destruct (VideoQueue_init (Z.max fps_capacity 2) alloc_fail (video_fifo m))
    as [[|] q] eqn:Hinit; cbn [fst snd].
  - split; [reflexivity |]. split; [discriminate | reflexivity].
  - split; [discriminate |]. split; [reflexivity |].
    intros _ _ ->. unfold VideoQueue_init in Hinit.
    assert (Hc : (Z.max fps_capacity 2 <=? 1) = false)
      by (apply Z.leb_gt; lia).
    rewrite Hc in Hinit. discriminate Hinit.
Qed.

Lemma InitAudio_opened :
  forall settings a m,
    let r := InitAudio settings a m in
    (fst r = Success ->
     audio_opened (snd r) = audio_opened m || (0 <=? audio_best_stream a))
    /\ (fst r = Error -> audio_opened (snd r) = audio_opened m)
    /\ (forall x, fst (InitAudio settings a x) = fst r).
Proof.
  intros settings a m r. subst r. unfold InitAudio.
  destruct (ChooseAudioFormat_succeeds (audio_format_setting settings)
              (original_format a)) as (size & -> & Hfmt).
  unfold InitialiseAndStartMiniaudio.
  destruct (playback_format _) as [fmt |]; [| contradiction].
  destruct (Z.ltb_spec (audio_best_stream a) 0) as [Hlt | Hge].
  { assert (Hb : (0 <=? audio_best_stream a) = false)
      by (apply Z.leb_gt; exact Hlt).
    rewrite Hb, orb_false_r.
    destruct (audio_best_stream a =? AVERROR_STREAM_NOT_FOUND); cbn [fst snd];
      (split; [reflexivity || discriminate |]);
      (split; [reflexivity || discriminate | reflexivity]). }
  assert (Hb : (0 <=? audio_best_stream a) = true)
    by (apply Z.leb_le; exact Hge).
  rewrite Hb, orb_true_r.
  destruct (negb (audio_codec_ok a));
    [cbn [fst snd]; split; [discriminate | split; reflexivity] |].
  destruct (negb (resampler_ok a));
    [cbn [fst snd]; split; [discriminate | split; reflexivity] |].
  cbn [audio_fifo].
  assert (Hany : forall q q',
            fst (AudioQueue_init (channels a)
                   (preloaded_frames_scale settings * sample_rate a)
                   (fifo_alloc_ok a) q)
            = fst (AudioQueue_init (channels a)
                     (preloaded_frames_scale settings * sample_rate a)
                     (fifo_alloc_ok a) q')).
  { intros q q'. unfold AudioQueue_init.
    destruct (_ || _); [reflexivity |].
    destruct (fifo_alloc_ok a); reflexivity. }
  destruct (AudioQueue_init (channels a)
              (preloaded_frames_scale settings * sample_rate a)
              (fifo_alloc_ok a) (audio_fifo m)) as [[|] q] eqn:Hinit.
  2: { cbn [fst snd]. split; [discriminate |].
       split; [destruct_media m; reflexivity |].
       intros x. specialize (Hany (audio_fifo x) (audio_fifo m)).
       rewrite Hinit in Hany. cbn [fst] in Hany.
       destruct (AudioQueue_init _ _ _ (audio_fifo x)) as [rx qx].
       cbn [fst] in Hany. subst rx. reflexivity. }
  assert (Hx : forall x,
            fst (AudioQueue_init (channels a)
                   (preloaded_frames_scale settings * sample_rate a)
                   (fifo_alloc_ok a) (audio_fifo x)) = Success).
  { intros x. rewrite (Hany (audio_fifo x) (audio_fifo m)), Hinit.
    reflexivity. }
  destruct (negb (device_init_ok a)).
  { cbn [fst snd]. split; [discriminate |].
    split; [destruct_media m; reflexivity |].
    intros x. specialize (Hx x).
    destruct (AudioQueue_init _ _ _ (audio_fifo x)) as [rx qx].
    cbn [fst] in Hx. subst rx. reflexivity. }
  destruct (negb (device_start_ok a)); cbn [fst snd].
  - split; [discriminate |]. split; [destruct_media m; reflexivity |].
    intros x. specialize (Hx x).
    destruct (AudioQueue_init _ _ _ (audio_fifo x)) as [rx qx].
    cbn [fst] in Hx. subst rx. reflexivity.
  - split; [reflexivity |]. split; [discriminate |].
    intros x. specialize (Hx x).
    destruct (AudioQueue_init _ _ _ (audio_fifo x)) as [rx qx].
    cbn [fst] in Hx. subst rx. reflexivity.
Qed.

Lemma Open_start_members :
  forall m,
    let m1 := if IsVideoOpened m || IsAudioOpened m then Close m else m in
    video_opened m1 = false /\ audio_opened m1 = false
    /\ frame_loader m1
       = frame_loader m && negb (IsVideoOpened m || IsAudioOpened m).
Proof.
  intros m. destruct_media m.
  unfold IsVideoOpened, IsAudioOpened. cbn [video_opened audio_opened].
  destruct vo, ao, loader; repeat split; reflexivity.
Qed.

(** Whether a worker is running has no influence on [InitVideo] and
    [InitAudio], which in turn do not touch the worker. *)
Lemma InitVideo_frame_loader :
  forall best_stream codec_ok fps_capacity alloc_fail time_base pic b m,
    InitVideo best_stream codec_ok fps_capacity alloc_fail time_base pic
      (set_frame_loader b m)
    = (fst (InitVideo best_stream codec_ok fps_capacity alloc_fail time_base
              pic m),
       set_frame_loader b
         (snd (InitVideo best_stream codec_ok fps_capacity alloc_fail
                 time_base pic m))).
Proof.
  intros best_stream codec_ok fps_capacity alloc_fail time_base pic b m.
  unfold InitVideo.
  change (HasAlbumArt (set_frame_loader b m)) with (HasAlbumArt m).
  change (video_fifo (set_frame_loader b m)) with (video_fifo m).
  destruct (best_stream <? 0);
    [destruct (best_stream =? AVERROR_STREAM_NOT_FOUND); reflexivity |].
  destruct (negb codec_ok); [reflexivity |].
  destruct (HasAlbumArt m); [reflexivity |].
  destruct (VideoQueue_init (Z.max fps_capacity 2) alloc_fail (video_fifo m))
    as [[|] q]; reflexivity.
Qed.

Lemma InitAudio_frame_loader :
  forall settings a b m,
    InitAudio settings a (set_frame_loader b m)
    = (fst (InitAudio settings a m),
       set_frame_loader b (snd (InitAudio settings a m))).
Proof.
  intros settings a b m. unfold InitAudio.
  destruct (audio_best_stream a <? 0);
    [destruct (audio_best_stream a =? AVERROR_STREAM_NOT_FOUND);
     reflexivity |].
  destruct (negb (audio_codec_ok a)); [reflexivity |].
  destruct (ChooseAudioFormat (audio_format_setting settings)
              (original_format a)) as [[[|] fmt] size]; [| reflexivity].
  destruct (negb (resampler_ok a)); [reflexivity |].
  cbn [audio_fifo set_frame_loader].
  match goal with
  | |- context [AudioQueue_init ?c ?n ?ok ?q] =>
      destruct (AudioQueue_init c n ok q) as [[|] q1]
  end; [| reflexivity].
  unfold InitialiseAndStartMiniaudio.
  destruct (playback_format fmt); [| reflexivity].
  destruct (negb (device_init_ok a)); [reflexivity |].
  destruct (negb (device_start_ok a)); reflexivity.
Qed.

(** [Open] after the settings check, step by step: the result of the steps
    before the worker is started, and the object they leave. *)
Lemma Open_steps :
  forall file_ok packets v a open_video open_audio playback_settings
         settings m,
    let used := match playback_settings with
                | Some s => s
                | None => settings
                end in
    let finish (result : Result) (x : Media) :=
      match result with
      | Success =>
          match StartDecodingThread x with
          | Some started => Some (Success, used, started)
          | None => None
          end
      | Error => Some (Error, used, x)
      end in
    0 < preloaded_frames_scale used ->
    exists result m5,
      Open file_ok packets v a open_video open_audio playback_settings
        settings m = finish result m5
      /\ (IsVideoOpened m || IsAudioOpened m = false ->
          Open file_ok packets v a open_video open_audio playback_settings
            settings (set_frame_loader false m)
          = finish result (set_frame_loader false m5))
      /\ frame_loader m5
         = frame_loader m && negb (IsVideoOpened m || IsAudioOpened m)
      /\ (result = Success ->
          file_ok = true /\ demuxer m5 = packets /\ is_paused m5 = false
          /\ video_opened m5 = open_video && (0 <=? video_best_stream v)
          /\ audio_opened m5 = open_audio && (0 <=? audio_best_stream a))
      /\ (result = Error -> audio_opened m5 = false)
      /\ (file_ok = true -> open_video = true -> open_audio = true ->
          0 <= video_best_stream v -> video_codec_ok v = true ->
          frame_alloc_fail v = None ->
          fst (InitAudio used a m) = Error ->
          result = Error /\ video_opened m5 = true
          /\ demuxer m5 = packets).
Proof.
  intros file_ok packets v a open_video open_audio playback_settings
    settings m used finish Hscale.
  unfold Open. fold used. unfold ApplySettings.
  apply Z.ltb_lt in Hscale. rewrite Hscale.
  change (IsVideoOpened (set_frame_loader false m))
    with (IsVideoOpened m).
  change (IsAudioOpened (set_frame_loader false m))
    with (IsAudioOpened m).
  pose proof (Open_start_members m) as Hstart. cbv zeta in Hstart.
  set (m1 := if IsVideoOpened m || IsAudioOpened m then Close m else m) in *.
  destruct Hstart as (Hvo1 & Hao1 & Hloader1).
  unfold OpenFile. destruct file_ok.
  2: { exists Error, m1. split; [reflexivity |].
       split; [intros Hclosed; subst m1; rewrite Hclosed; reflexivity |].
       split; [exact Hloader1 |].
       split; [discriminate |]. split; [intros _; exact Hao1 |].
       intros H; discriminate H. }
  set (m3 := set_is_paused false (set_demuxer packets m1)).
  assert (Hm3 : video_opened m3 = false /\ audio_opened m3 = false
                /\ frame_loader m3 = frame_loader m1
                /\ demuxer m3 = packets /\ is_paused m3 = false).
  { subst m3. clearbody m1. destruct_media m1. cbn in *.
    repeat split; assumption || reflexivity. }
  destruct Hm3 as (Hvo3 & Hao3 & Hloader3 & Hdm3 & Hp3).
  assert (Hjoined3 :
    IsVideoOpened m || IsAudioOpened m = false ->
    set_is_paused false (set_demuxer packets (set_frame_loader false m))
    = set_frame_loader false m3).
  { intros Hclosed. subst m3 m1. rewrite Hclosed. reflexivity. }
  clearbody m3.
  set (video := if open_video
                then InitVideo (video_best_stream v) (video_codec_ok v)
                       (fps_capacity used v)
                       (frame_alloc_fail v) (video_stream_time_base v)
                       (disposition_attached_pic v) m3
                else (Success, m3)).
  assert (Hvideo :
    (fst video = Success ->
     video_opened (snd video) = open_video && (0 <=? video_best_stream v))
    /\ audio_opened (snd video) = false
    /\ frame_loader (snd video) = frame_loader m1
    /\ demuxer (snd video) = packets /\ is_paused (snd video) = false
    /\ (open_video = true -> 0 <= video_best_stream v ->
        video_codec_ok v = true -> frame_alloc_fail v = None ->
        fst video = Success)).
  { subst video. destruct open_video.
    - pose proof (InitVideo_control_members (video_best_stream v)
                    (video_codec_ok v)
                    (fps_capacity used v)
                    (frame_alloc_fail v) (video_stream_time_base v)
                    (disposition_attached_pic v) m3) as Hc.
      pose proof (InitVideo_opened (video_best_stream v)
                    (video_codec_ok v)
                    (fps_capacity used v)
                    (frame_alloc_fail v) (video_stream_time_base v)
                    (disposition_attached_pic v) m3) as Ho.
      cbv zeta in Hc, Ho.
      destruct Hc as (Hd & Hp & _ & _ & Hl & Hao & _).
      destruct Ho as (Hs & _ & Hgood).
      split; [intros H; rewrite (Hs H), Hvo3; reflexivity |].
      split; [congruence |]. split; [congruence |].
      split; [congruence |]. split; [congruence |].
      intros _. exact Hgood.
    - cbn [fst snd andb]. split; [intros _; exact Hvo3 |].
      repeat split; try assumption; intros H; discriminate H. }
  assert (Hvideo_joined :
    (if open_video
     then InitVideo (video_best_stream v) (video_codec_ok v)
            (fps_capacity used v)
            (frame_alloc_fail v) (video_stream_time_base v)
            (disposition_attached_pic v) (set_frame_loader false m3)
     else (Success, set_frame_loader false m3))
    = (fst video, set_frame_loader false (snd video))).
  { subst video. destruct open_video; [| reflexivity].
    apply InitVideo_frame_loader. }
  destruct video as [result_v m4]. cbn [fst snd] in Hvideo, Hvideo_joined.
  destruct Hvideo as (Hvo4 & Hao4 & Hloader4 & Hdm4 & Hp4 & Hgood4).
  destruct result_v.
  2: { exists Error, m4. split; [reflexivity |].
       split.
       { intros Hclosed. rewrite Hclosed.
         rewrite (Hjoined3 Hclosed), Hvideo_joined. reflexivity. }
       split; [congruence |].
       split; [discriminate |]. split; [intros _; exact Hao4 |].
       intros _ Hov _ Hbest Hcodec Halloc _.
       discriminate (Hgood4 Hov Hbest Hcodec Halloc). }
  specialize (Hvo4 eq_refl).
  set (audio := if open_audio then InitAudio used a m4 else (Success, m4)).
  assert (Haudio :
    (fst audio = Success ->
     audio_opened (snd audio) = open_audio && (0 <=? audio_best_stream a))
    /\ (fst audio = Error -> audio_opened (snd audio) = false)
    /\ video_opened (snd audio) = video_opened m4
    /\ frame_loader (snd audio) = frame_loader m1
    /\ demuxer (snd audio) = packets /\ is_paused (snd audio) = false
    /\ (open_audio = true -> fst (InitAudio used a m) = Error ->
        fst audio = Error)).
  { subst audio. destruct open_audio.
    - pose proof (InitAudio_control_members used a m4) as Hc.
      pose proof (InitAudio_opened used a m4) as Ho.
      pose proof (InitAudio_opened used a m) as Hm.
      cbv zeta in Hc, Ho, Hm.
      destruct Hc as (Hd & Hp & _ & _ & Hl & Hvo & _).
      destruct Ho as (Hs & He & _). destruct Hm as (_ & _ & Hany).
      split; [intros H; rewrite (Hs H), Hao4; reflexivity |].
      split; [intros H; rewrite (He H); exact Hao4 |].
      split; [congruence |]. split; [congruence |].
      split; [congruence |]. split; [congruence |].
      intros _ Hfail. rewrite (Hany m4). exact Hfail.
    - cbn [fst snd andb].
      split; [intros _; exact Hao4 |]. split; [discriminate |].
      repeat split; try assumption; intros H; discriminate H. }
  assert (Haudio_joined :
    (if open_audio then InitAudio used a (set_frame_loader false m4)
     else (Success, set_frame_loader false m4))
    = (fst audio, set_frame_loader false (snd audio))).
  { subst audio. destruct open_audio; [| reflexivity].
    apply InitAudio_frame_loader. }
  destruct audio as [result_a m5]. cbn [fst snd] in Haudio, Haudio_joined.
  destruct Haudio as (Hao5 & Hao5' & Hvo5 & Hloader5 & Hdm5 & Hp5 & Hbad5).
  exists result_a, m5.
  split; [destruct result_a; reflexivity |].
  split.
  { intros Hclosed. rewrite Hclosed.
    rewrite (Hjoined3 Hclosed), Hvideo_joined, Haudio_joined.
    destruct result_a; reflexivity. }
  split; [congruence |].
  split.
  { intros ->. specialize (Hao5 eq_refl).
    repeat split; congruence. }
  split; [exact Hao5' |].
  intros _ Hov Hoa Hbest Hcodec Halloc Hfail.
  split; [exact (Hbad5 Hoa Hfail) |].
  split; [| exact Hdm5].
  rewrite Hvo5, Hvo4, Hov. apply Z.leb_le in Hbest. rewrite Hbest.
  reflexivity.
Qed.

(** [StartDecodingThread] ends the program on a joinable worker and else
    starts one, touching the three worker members only. *)
Lemma StartDecodingThread_outcome :
  forall m,
    (frame_loader m = true -> StartDecodingThread m = None)
    /\ (frame_loader m = false ->
        exists started,
          StartDecodingThread m = Some started
          /\ keep_loading started = true /\ finished_reading started = false
          /\ frame_loader started = true
          /\ is_paused started = is_paused m
          /\ demuxer started = demuxer m
          /\ video_opened started = video_opened m
          /\ audio_opened started = audio_opened m).
Proof.
  intros m. destruct_media m. cbn [frame_loader].
  split; intros ->; [reflexivity |].
  eexists. split; [reflexivity |]. repeat split.
Qed.

(** X24.  [Open(filename, open_video, open_audio, playback_settings)].  The
    settings passed in replace the member [settings] before anything is
    checked; with [preloaded_frames_scale] at 0 the call then fails and
    leaves the object, an open media included, as it is.  The call ends the
    program (the new worker is assigned to a [std::thread] that is still
    joinable) exactly when the object has a worker but no stream open, as
    after an [Open] that opened no stream, and the call would succeed
    without that worker.  When the call succeeds there was no such worker,
    the object plays, a fresh worker runs, and a stream is open exactly if it
    was asked for and the file has one; so the call also succeeds with no
    stream open at all.  When the call fails later than the settings check,
    no audio stream is left open and the call has started no worker: the
    worker of a media that was open has been joined, and a worker that was
    left without a stream is still there. *)
Theorem Open_outcome :
  forall file_ok packets v a open_video open_audio playback_settings
         settings m,
    let run := Open file_ok packets v a open_video open_audio
                 playback_settings settings in
    let used := match playback_settings with
                | Some s => s
                | None => settings
                end in
    let leftover :=
      frame_loader m && negb (IsVideoOpened m || IsAudioOpened m) in
    (run m = None <->
     leftover = true
     /\ exists m', run (set_frame_loader false m) = Some (Success, used, m'))
    /\ (preloaded_frames_scale used <= 0 -> run m = Some (Error, used, m))
    /\ (forall r used' m',
          run m = Some (r, used', m') ->
          used' = used
          /\ (r = Success ->
              leftover = false
              /\ (0 < preloaded_frames_scale used /\ file_ok = true)
              /\ (IsPaused m' = false /\ keep_loading m' = true
                  /\ frame_loader m' = true
                  /\ finished_reading m' = false)
              /\ demuxer m' = packets
              /\ IsVideoOpened m'
                 = open_video && (0 <=? video_best_stream v)
              /\ IsAudioOpened m'
                 = open_audio && (0 <=? audio_best_stream a))
          /\ (r = Error -> 0 < preloaded_frames_scale used ->
              IsAudioOpened m' = false
              /\ frame_loader m' = leftover)).
Proof.
  intros file_ok packets v a open_video open_audio playback_settings
    settings m run used leftover.
  destruct (Z.ltb_spec 0 (preloaded_frames_scale used)) as [Hscale | Hscale].
  2: { assert (Hfail : forall x, run x = Some (Error, used, x)).
       { intros x. subst run. unfold Open. fold used. unfold ApplySettings.
         apply Z.ltb_ge in Hscale. rewrite Hscale. reflexivity. }
       split.
       { rewrite Hfail. split; [discriminate |].
         intros (_ & m' & H). rewrite Hfail in H. discriminate H. }
       split; [intros _; apply Hfail |].
       intros r used' m' Hrun. rewrite Hfail in Hrun.
       injection Hrun as <- <- <-.
       split; [reflexivity |]. split; [discriminate |]. intros _ H. lia. }
  destruct (@Open_steps file_ok packets v a open_video open_audio
              playback_settings settings m Hscale)
    as (result & m5 & Hrun & Hjoined & Hloader & Hgood & Hbad & _).
  fold used in Hrun, Hjoined. fold run in Hrun, Hjoined.
  fold leftover in Hloader.
  destruct (StartDecodingThread_outcome m5) as (Hstop & Hgo).
  destruct (StartDecodingThread_outcome (set_frame_loader false m5))
    as (_ & Hgo_joined).
  destruct (Hgo_joined eq_refl) as (started_joined & Hstarted_joined & _).
  assert (Hclosed : leftover = true ->
                    IsVideoOpened m || IsAudioOpened m = false).
  { subst leftover. intros H. apply andb_prop in H as [_ H].
    apply negb_true_iff in H. exact H. }
  split; [| split; [intros H; lia |]].
  - split.
    + intros Hnone. rewrite Hrun in Hnone.
      destruct result; [| discriminate Hnone].
      destruct leftover eqn:Hleft.
      * split; [reflexivity |]. exists started_joined.
        rewrite (Hjoined (Hclosed eq_refl)). cbv beta iota.
        rewrite Hstarted_joined. reflexivity.
      * destruct (Hgo Hloader) as (started & Hstarted & _).
        rewrite Hstarted in Hnone. discriminate Hnone.
    + intros (Hleft & m' & Hrun_joined).
      rewrite (Hjoined (Hclosed Hleft)) in Hrun_joined.
      rewrite Hrun. destruct result; [| discriminate Hrun_joined].
      rewrite Hleft in Hloader. rewrite (Hstop Hloader). reflexivity.
  - intros r used' m' Hsome. rewrite Hrun in Hsome.
    destruct result.
    + destruct leftover eqn:Hleft;
        [rewrite (Hstop Hloader) in Hsome; discriminate Hsome |].
      destruct (Hgo Hloader)
        as (started & Hstarted & Hk & Hf & Hl & Hp & Hd & Hvo & Hao).
      rewrite Hstarted in Hsome. injection Hsome as <- <- <-.
      destruct (Hgood eq_refl) as (Hfile & Hd5 & Hp5 & Hvo5 & Hao5).
      split; [reflexivity |]. split; [| intros H; discriminate H].
      intros _. split; [reflexivity |].
      split; [split; [exact Hscale | exact Hfile] |].
      unfold IsPaused, IsVideoOpened, IsAudioOpened.
      repeat split; congruence.
    + injection Hsome as <- <- <-.
      split; [reflexivity |]. split; [intros H; discriminate H |].
      intros _ _. split; [exact (Hbad eq_refl) | exact Hloader].
Qed.

(** [Open] twice on a file of which no stream is asked for: the first call
    succeeds and leaves a worker, the second call ends the program. *)
Example Open_twice_without_streams :
  let v := {| video_best_stream := 0; video_codec_ok := true;
              average_fps := 25; frame_alloc_fail := None;
              video_stream_time_base := mkRational 1 25;
              disposition_attached_pic := false |} in
  let a := {| audio_best_stream := 1; audio_codec_ok := true;
              original_format := AV_SAMPLE_FMT_FLTP; resampler_ok := true;
              stream_time_base := mkRational 1 44100; channels := 2;
              sample_rate := 44100; fifo_alloc_ok := true;
              device_init_ok := true; device_start_ok := true |} in
  let settings := {| preloaded_frames_scale := 1;
                     audio_format_setting := Default |} in
  let m := Media_new false (mkRational 0 1) (mkRational 0 1) in
  exists m',
    Open true [] v a false false None settings m
    = Some (Success, settings, m')
    /\ IsVideoOpened m' = false /\ IsAudioOpened m' = false
    /\ frame_loader m' = true
    /\ Open true [] v a false false None settings m' = None.
Proof.
  intros v a settings m. eexists. split; [reflexivity |].
  repeat split.
Qed.

(** X25.  A failure of the audio initialisation does not undo the video
    initialisation: when [Open] is asked for both streams, the video stream
    is opened and [InitAudio()] then fails, [Open] returns [Error] and leaves
    the object with the video stream open, the audio stream closed and no
    worker started. *)
Theorem Open_audio_failure_leaves_video_open :
  forall packets v a playback_settings settings m,
    let used := match playback_settings with
                | Some s => s
                | None => settings
                end in
    0 < preloaded_frames_scale used ->
    0 <= video_best_stream v ->
    video_codec_ok v = true ->
    frame_alloc_fail v = None ->
    fst (InitAudio used a m) = Error ->
    exists m',
      Open true packets v a true true playback_settings settings m
      = Some (Error, used, m')
      /\ IsVideoOpened m' = true
      /\ IsAudioOpened m' = false
      /\ frame_loader m'
         = frame_loader m && negb (IsVideoOpened m || IsAudioOpened m)
      /\ demuxer m' = packets.
Proof.
  intros packets v a playback_settings settings m used Hscale Hbest Hcodec
    Halloc Haudio.
  destruct (@Open_steps true packets v a true true playback_settings
              settings m Hscale)
    as (result & m5 & Hrun & _ & Hloader & _ & Hbad & Hcase).
  fold used in Hrun, Hcase.
  destruct (Hcase eq_refl eq_refl eq_refl Hbest Hcodec Halloc Haudio)
    as (-> & Hvo & Hd).
  exists m5. split; [exact Hrun |].
  split; [exact Hvo |]. split; [exact (Hbad eq_refl) |].
  split; [exact Hloader | exact Hd].
Qed.

Lemma Open_audio_failure_leaves_video_open_witness :
  let v := {| video_best_stream := 0; video_codec_ok := true;
              average_fps := 25; frame_alloc_fail := None;
              video_stream_time_base := mkRational 1 25;
              disposition_attached_pic := false |} in
  let a := {| audio_best_stream := 1; audio_codec_ok := false;
              original_format := AV_SAMPLE_FMT_FLTP; resampler_ok := true;
              stream_time_base := mkRational 1 44100; channels := 2;
              sample_rate := 44100; fifo_alloc_ok := true;
              device_init_ok := true; device_start_ok := true |} in
  let settings := {| preloaded_frames_scale := 1;
                     audio_format_setting := Default |} in
  let m := Media_new false (mkRational 0 1) (mkRational 0 1) in
  exists m',
    Open true [] v a true true None settings m = Some (Error, settings, m')
    /\ IsVideoOpened m' = true
    /\ frame_loader m' = false.
Proof.
  intros v a settings m.
  assert (Hscale : 0 < 1) by lia.
  assert (Hbest : 0 <= 0) by lia.
  destruct (@Open_audio_failure_leaves_video_open [] v a None settings m
              Hscale Hbest eq_refl eq_refl eq_refl)
    as (m' & Hr & Hv & _ & Hl & _).
  exists m'. split; [exact Hr |]. split; [exact Hv | exact Hl].
Defined.

(** ** The audio queue during playback *)

Lemma AudioQueue_push_ok :
  forall c data q,
    AudioQueue_ok q /\ (c <= AudioQueue_capacity q)%nat ->
    AudioQueue_ok (snd (AudioQueue_push data q))
    /\ (c <= AudioQueue_capacity (snd (AudioQueue_push data q)))%nat.
Proof.
  intros c data [[f |]] [Hok Hc]; [| split; assumption].
  rewrite AudioQueue_push_allocated.
  pose proof (drain_for_push_size (length data) f) as Hdsize.
  pose proof (drain_for_push_allocated (length data) f) as Hdalloc.
  unfold AudioQueue_capacity, AudioQueue_ok, fifo_ok, av_audio_fifo_space,
    av_audio_fifo_size in *.
  cbn [fst snd _fifo fifo_samples allocated_samples] in *.
  rewrite Hdalloc, !length_app, Hdsize.
  clear Hdsize Hdalloc.
  split;
    repeat match goal with
           | |- context [(?a <? ?b)%nat] => destruct (Nat.ltb_spec a b)
           end; lia.
Qed.

Lemma push_flushed_ok :
  forall c fl q,
    AudioQueue_ok q /\ (c <= AudioQueue_capacity q)%nat ->
    AudioQueue_ok (snd (push_flushed fl q))
    /\ (c <= AudioQueue_capacity (snd (push_flushed fl q)))%nat.
Proof.
  induction fl as [| [response block] rest IH]; intros q Hq;
    cbn [push_flushed]; [exact Hq |].
  destruct (response =? 0); [| exact Hq].
  apply IH. apply AudioQueue_push_ok. exact Hq.
Qed.

Lemma decode_audio_frames_ok :
  forall c rs e m,
    AudioQueue_ok (audio_fifo m)
    /\ (c <= AudioQueue_capacity (audio_fifo m))%nat ->
    AudioQueue_ok (audio_fifo (snd (decode_audio_frames rs e m)))
    /\ (c <= AudioQueue_capacity
               (audio_fifo (snd (decode_audio_frames rs e m))))%nat.
Proof.
  induction rs as [| r rest IH]; intros e m Hq; cbn [decode_audio_frames].
  - destruct ((e <? 0)
              && negb ((e =? AVERROR_EOF) || (e =? AVERROR_EAGAIN)));
      exact Hq.
  - destruct (negb (pkt_size (r_frame r) =? -1)); [| apply IH; exact Hq].
    destruct (r_convert_response r =? 0); [| exact Hq].
    pose proof (@push_flushed_ok c (r_flush r) _
                  (@AudioQueue_push_ok c (r_resampled r) _ Hq)) as Hq2.
    destruct (push_flushed (r_flush r)
                (snd (AudioQueue_push (r_resampled r) (audio_fifo m))))
      as [[|] q2]; cbn [snd] in Hq2.
    + apply IH. destruct_media m. exact Hq2.
    + cbn [snd]. destruct_media m. exact Hq2.
Qed.

Lemma DecodingThread_loop_audio_ok :
  forall c pkts maxv minv mina m,
    AudioQueue_ok (audio_fifo m)
    /\ (c <= AudioQueue_capacity (audio_fifo m))%nat ->
    AudioQueue_ok
      (audio_fifo (snd (DecodingThread_loop pkts maxv minv mina m)))
    /\ (c <= AudioQueue_capacity
               (audio_fifo
                  (snd (DecodingThread_loop pkts maxv minv mina m))))%nat.
Proof.
  induction pkts as [| p rest IH]; intros maxv minv mina m Hq;
    cbn [DecodingThread_loop]; cbv zeta.
  - destruct (negb _); [destruct_media m; exact Hq |].
    destruct (negb (keep_loading m)); destruct_media m; exact Hq.
  - destruct (negb _); [destruct_media m; exact Hq |].
    destruct (negb (keep_loading m)); [destruct_media m; exact Hq |].
    destruct (IsVideoOpened m && (stream_index p =? video_stream_index m)).
    { pose proof (decode_video_packet_step_members maxv p m) as Hstep.
      destruct (decode_video_packet maxv p m) as [[|] m1]; cbn [snd] in Hstep;
        destruct (@members_of_video_step _ _ Hstep)
          as (_ & _ & _ & _ & _ & _ & Ha); rewrite <- Ha in Hq.
      - apply IH. exact Hq.
      - cbn [snd]. destruct_media m1. exact Hq. }
    destruct (IsAudioOpened m && (stream_index p =? audio_stream_index m)).
    { assert (Hq1 :
        AudioQueue_ok (audio_fifo (snd (decode_audio_packet p m)))
        /\ (c <= AudioQueue_capacity
                   (audio_fifo (snd (decode_audio_packet p m))))%nat).
      { unfold decode_audio_packet.
        destruct ((send_response p <? 0)
                  && negb (send_response p =? AVERROR_EAGAIN));
          [exact Hq | apply decode_audio_frames_ok; exact Hq]. }
      destruct (decode_audio_packet p m) as [[|] m1]; cbn [snd] in Hq1.
      - apply IH. exact Hq1.
      - cbn [snd]. destruct_media m1. exact Hq1. }
    apply IH. exact Hq.
Qed.

(** X26.  The audio FIFO stays consistent during playback.  If it holds no
    more samples than it is allocated for, the same is true after the worker
    has run, whatever the demuxer delivers, and the worker never lowers
    [capacity()]; [GetAudioFrame] keeps both the consistency and the
    capacity. *)
Theorem DecodingThread_keeps_audio_queue_consistent :
  forall m,
    AudioQueue_ok (audio_fifo m) ->
    (AudioQueue_ok (audio_fifo (snd (DecodingThread m)))
     /\ (AudioQueue_capacity (audio_fifo m)
         <= AudioQueue_capacity (audio_fifo (snd (DecodingThread m))))%nat
     /\ (AudioQueue_size (audio_fifo (snd (DecodingThread m)))
         <= AudioQueue_capacity (audio_fifo (snd (DecodingThread m))))%nat)
    /\ (forall output_valid sample_count,
          let m' := snd (GetAudioFrame output_valid sample_count m) in
          AudioQueue_ok (audio_fifo m')
          /\ AudioQueue_capacity (audio_fifo m')
             = AudioQueue_capacity (audio_fifo m)).
Proof.
  intros m Hok. split.
  - assert (Hq : AudioQueue_ok (audio_fifo (set_finished_reading false m))
                 /\ (AudioQueue_capacity (audio_fifo m)
                     <= AudioQueue_capacity
                          (audio_fifo (set_finished_reading false m)))%nat)
      by (destruct_media m; split; [exact Hok | apply Nat.le_refl]).
    unfold DecodingThread. cbv zeta.
    match goal with
    | |- context [DecodingThread_loop ?d ?a ?b ?c ?x] =>
        destruct (@DecodingThread_loop_audio_ok
                    (AudioQueue_capacity (audio_fifo m)) d a b c x Hq)
          as (Hok' & Hcap');
        generalize dependent (DecodingThread_loop d a b c x)
    end.
    intros r Hok' Hcap'.
    split; [exact Hok' |]. split; [exact Hcap' |].
    unfold AudioQueue_ok, AudioQueue_size, AudioQueue_capacity, fifo_ok,
      av_audio_fifo_space in *.
    destruct (_fifo (audio_fifo (snd r))); lia.
  - intros output_valid sample_count m'. subst m'. unfold GetAudioFrame.
    destruct (negb output_valid || (sample_count <? 0));
      [split; [exact Hok | reflexivity] |].
    destruct (audio_fifo m) as [[f |]] eqn:Hfifo.
    + rewrite AudioQueue_pop_allocated.
      destruct (Z.of_nat _ <? 0); destruct_media m;
        cbn [snd set_audio_fifo set_audio_clock audio_fifo] in *;
        unfold AudioQueue_ok, AudioQueue_capacity, fifo_ok,
          av_audio_fifo_space, av_audio_fifo_size in *;
        cbn [_fifo fifo_samples allocated_samples] in *;
        rewrite length_skipn; split; lia.
    + unfold AudioQueue_pop. cbn [_fifo].
      destruct (Z.of_nat _ <? 0); destruct_media m;
        cbn [snd set_audio_fifo set_audio_clock audio_fifo] in *;
        split; reflexivity || exact I.
Qed.

Lemma DecodingThread_keeps_audio_queue_consistent_witness :
  let block := mkReceived (mkFrame 0 100 []) 0 [1; 2; 3] [] in
  let packet := {| stream_index := 1; send_response := 0;
                   received := [block; block];
                   receive_end := AVERROR_EAGAIN |} in
  let m := mkMedia [packet] false false true true (-1) (mkRational 1 25)
             VideoQueue_new {| created := false; pixels := [] |} 0 0
             false false 1 (mkRational 1 4)
             (snd (AudioQueue_init 2 4 true AudioQueue_new))
             0 0 4 true [] in
  AudioQueue_ok (audio_fifo (snd (DecodingThread m)))
  /\ (4 <= AudioQueue_capacity (audio_fifo (snd (DecodingThread m))))%nat.
Proof.
  intros block packet m.
  assert (Hok : AudioQueue_ok (audio_fifo m))
    by (vm_compute; apply Nat.le_0_l).
  destruct (@DecodingThread_keeps_audio_queue_consistent m Hok)
    as ((Hok' & Hcap & _) & _).
  split; [exact Hok' | exact Hcap].
Defined.
